(** * HelioSyn: the scheduling and simulation core

    A shallow embedding of [src/lib/simulationConfig.ts],
    [src/lib/smartScheduler.ts], [src/lib/physicsModels.ts] and
    [src/lib/simulation.ts].

    The TypeScript code computes with JavaScript numbers.  The embedding is
    written once over an interface [Number] of the operations the code uses
    and is read at two instances:
    - [float], the IEEE-754 binary64 numbers of the language (executable:
      every definition evaluates on concrete inputs);
    - [R], exact real arithmetic, the idealisation in which the arithmetic
      properties of the specification are stated.
    Objects of class [Job] are mutable and shared by reference between the
    scheduler's array, the arrays [schedule] returns and the simulation's set
    of running jobs: a reference is an index into the scheduler's [jobs]
    array, which is the store every mutation goes through. *)

From Stdlib Require Import ZArith QArith Reals Lra Lia List String Ascii Bool.
From Stdlib Require Import Floats Permutation Sorted.
From stdpp Require Import base list.
Import ListNotations.

Set Default Proof Using "Type".

(* ================================================================== *)
(** * JavaScript numbers *)
(* ================================================================== *)

(** The operations on numbers the sources use.  [nrem] is the remainder
    operator [%], [nopp] the unary minus; [nltb], [nleb] and [neqb] are the
    operators [<], [<=] and [===]; [a > b] is [nltb b a] and [a !== b] is
    [negb (neqb a b)]. *)
Class Number (num : Type) := {
  nZ : Z -> num;
  nadd : num -> num -> num;
  nsub : num -> num -> num;
  nmul : num -> num -> num;
  ndiv : num -> num -> num;
  nrem : num -> num -> num;
  nopp : num -> num;
  nltb : num -> num -> bool;
  nleb : num -> num -> bool;
  neqb : num -> num -> bool;
  Math_abs : num -> num;
  Math_max : num -> num -> num;
  Math_min : num -> num -> num;
  Math_floor : num -> num
}.

(** The transcendental functions of [Math], which ECMAScript leaves to the
    implementation to approximate, and the constant [Math.PI]. *)
Class MathLib (num : Type) := {
  Math_PI : num;
  Math_sin : num -> num;
  Math_cos : num -> num;
  Math_exp : num -> num
}.

Declare Scope num_scope.
Delimit Scope num_scope with num.
Notation "a + b" := (nadd a b) : num_scope.
Notation "a - b" := (nsub a b) : num_scope.
Notation "a * b" := (nmul a b) : num_scope.
Notation "a / b" := (ndiv a b) : num_scope.
Notation "a 'mod' b" := (nrem a b) : num_scope.
Notation "- a" := (nopp a) : num_scope.
Notation "a <? b" := (nltb a b) (at level 70, no associativity) : num_scope.
Notation "a <=? b" := (nleb a b) (at level 70, no associativity) : num_scope.
Notation "a >? b" := (nltb b a) (at level 70, no associativity) : num_scope.
Notation "a === b" := (neqb a b) (at level 70, no associativity) : num_scope.
Notation "a !== b" := (negb (neqb a b)) (at level 70, no associativity) : num_scope.

(** A decimal literal of the source: the quotient of two integers, which at
    [float] is the correctly rounded value the literal denotes. *)
Definition lit {num : Type} `{Number num} (q : Q) : num :=
  ndiv (nZ (Qnum q)) (nZ (Zpos (Qden q))).
Arguments lit {num _} q%_Q.

(** Truthiness of a number: every number but [0], [-0] and [NaN]. *)
Definition truthy {num : Type} `{Number num} (x : num) : bool :=
  neqb x x && negb (neqb x (lit 0)).

(** [SameValueZero], the key equality of [Map] and [Set]: [===], except that
    [NaN] equals itself. *)
Definition sameValueZero {num : Type} `{Number num} (x y : num) : bool :=
  neqb x y || (negb (neqb x x) && negb (neqb y y)).

(* ------------------------------------------------------------------ *)
(** ** The binary64 instance *)

(** The integer [z] as a double, correctly rounded. *)
Definition float_of_Z (z : Z) : float :=
  SF2Prim (binary_normalize prec emax z 0 false).

(** [Math.max]: [NaN] when an argument is, and [+0] above [-0]. *)
Definition float_max (a b : float) : float :=
  if PrimFloat.is_nan a then a
  else if PrimFloat.is_nan b then b
  else if PrimFloat.ltb a b then b
  else if PrimFloat.ltb b a then a
  else match PrimFloat.classify a with NZero => b | _ => a end.

(** [Math.min]: [NaN] when an argument is, and [-0] below [+0]. *)
Definition float_min (a b : float) : float :=
  if PrimFloat.is_nan a then a
  else if PrimFloat.is_nan b then b
  else if PrimFloat.ltb a b then a
  else if PrimFloat.ltb b a then b
  else match PrimFloat.classify a with PZero => b | _ => a end.

(** [Math.floor]: the largest integer not above [x]; [NaN], the infinities
    and the zeros are returned as they are. *)
Definition float_floor (x : float) : float :=
  match Prim2SF x with
  | S754_finite s m e =>
      if (0 <=? e)%Z then x
      else
        let q := Z.shiftr (Zpos m) (- e) in
        let exact := (Z.shiftl q (- e) =? Zpos m)%Z in
        if s then (if exact then x else PrimFloat.opp (float_of_Z (q + 1)))
        else float_of_Z q
  | _ => x
  end.

(** The remainder [x % y]: exact, with the sign of the dividend. *)
Definition float_rem (x y : float) : float :=
  match Prim2SF x, Prim2SF y with
  | S754_nan, _ | _, S754_nan => PrimFloat.nan
  | S754_infinity _, _ => PrimFloat.nan
  | _, S754_zero _ => PrimFloat.nan
  | S754_zero _, _ => x
  | _, S754_infinity _ => x
  | S754_finite sx mx ex, S754_finite _ my ey =>
      let e := Z.min ex ey in
      let r := Z.rem (Zpos mx * 2 ^ (ex - e)) (Zpos my * 2 ^ (ey - e)) in
      SF2Prim (binary_normalize prec emax (if sx then (- r)%Z else r) e sx)
  end.

#[export] Instance Number_float : Number float := {
  nZ := float_of_Z;
  nadd := PrimFloat.add;
  nsub := PrimFloat.sub;
  nmul := PrimFloat.mul;
  ndiv := PrimFloat.div;
  nrem := float_rem;
  nopp := PrimFloat.opp;
  nltb := PrimFloat.ltb;
  nleb := PrimFloat.leb;
  neqb := PrimFloat.eqb;
  Math_abs := PrimFloat.abs;
  Math_max := float_max;
  Math_min := float_min;
  Math_floor := float_floor
}.

(** ECMAScript fixes no algorithm for [Math.sin], [Math.cos] and
    [Math.exp]: their results are implementation-approximated.  The
    instance below, argument reduction followed by the Taylor series, is one
    such implementation; with it the model runs where no data is supplied.
    What is proved of the model at [float] without evaluating these
    functions holds for every instance of [MathLib float]. *)

(** The integer part of a finite double. *)
Definition float_to_Z (x : float) : Z :=
  match Prim2SF x with
  | S754_finite s m e =>
      let a :=
        if (0 <=? e)%Z then Z.shiftl (Zpos m) e else Z.shiftr (Zpos m) (- e) in
      if s then (- a)%Z else a
  | _ => 0%Z
  end.

Definition float_PI : float := 0x1.921fb54442d18p+1%float.
Definition float_LN2 : float := 0x1.62e42fefa39efp-1%float.

(** [n] further terms of a series: each term is the one before times [q]
    over [k * (k + 1)], where [k] grows by 2 from term to term. *)
Fixpoint trig_series (n : nat) (k q term acc : float) : float :=
  match n with
  | O => acc
  | S n =>
      let term' := (term * q / (k * (k + 1)))%float in
      trig_series n (k + 2)%float q term' (acc + term')%float
  end.

(** The argument less the nearest multiple of [2 * PI]. *)
Definition reduce_2PI (x : float) : float :=
  let k := float_floor (x / (2 * float_PI) + 0.5)%float in
  (x - k * (2 * float_PI))%float.

Definition float_sin (x : float) : float :=
  let y := reduce_2PI x in
  trig_series 14 2%float (- (y * y))%float y y.

Definition float_cos (x : float) : float :=
  let y := reduce_2PI x in
  trig_series 14 1%float (- (y * y))%float 1%float 1%float.

(** [n] further terms of the exponential series: each term is the one
    before times [r] over [k]. *)
Fixpoint exp_series (n : nat) (k r term acc : float) : float :=
  match n with
  | O => acc
  | S n =>
      let term' := (term * r / k)%float in
      exp_series n (k + 1)%float r term' (acc + term')%float
  end.

Definition float_exp (x : float) : float :=
  if PrimFloat.is_nan x then x
  else if (x <? -750)%float then 0%float
  else if (710 <? x)%float then PrimFloat.infinity
  else
    let k := float_floor (x / float_LN2 + 0.5)%float in
    let r := (x - k * float_LN2)%float in
    Z.ldexp (exp_series 20 1%float r 1%float 1%float) (float_to_Z k).

#[export] Instance MathLib_float : MathLib float := {
  Math_PI := float_PI;
  Math_sin := float_sin;
  Math_cos := float_cos;
  Math_exp := float_exp
}.

(* ------------------------------------------------------------------ *)
(** ** The exact instance *)

Definition Rltb (a b : R) : bool := if Rlt_dec a b then true else false.
Definition Rleb (a b : R) : bool := if Rle_dec a b then true else false.
Definition Reqb (a b : R) : bool := if Req_dec_T a b then true else false.

(** The quotient [x / y] truncated towards zero, and the remainder it
    leaves. *)
Definition Rtrunc (x : R) : R :=
  if Rle_dec 0 x then IZR (Int_part x) else (- IZR (Int_part (- x)))%R.

Definition Rrem (x y : R) : R := (x - y * Rtrunc (x / y))%R.

#[export] Instance Number_R : Number R := {
  nZ := IZR;
  nadd := Rplus;
  nsub := Rminus;
  nmul := Rmult;
  ndiv := Rdiv;
  nrem := Rrem;
  nopp := Ropp;
  nltb := Rltb;
  nleb := Rleb;
  neqb := Reqb;
  Math_abs := Rabs;
  Math_max := Rmax;
  Math_min := Rmin;
  Math_floor := fun x => IZR (Int_part x)
}.

#[export] Instance MathLib_R : MathLib R := {
  Math_PI := PI;
  Math_sin := sin;
  Math_cos := cos;
  Math_exp := exp
}.

(* ================================================================== *)
(** * simulationConfig.ts *)
(* ================================================================== *)

Section Config.
Context {num : Type} `{Number num}.

Definition SIMULATION_START_HOUR : num := lit 0.
Definition SIMULATION_END_HOUR : num := lit 24.
Definition TIME_STEP_MINUTES : num := lit 10.

Definition MAX_DATA_HUB_POWER : num := lit 10.
Definition BASELINE_BACKGROUND_LOAD : num := lit 3.0.

Definition IDEAL_TEMP : num := lit 25.
Definition THERMAL_THRESHOLD : num := lit 32.
Definition HEAT_ACCUMULATION : num := lit 0.15.
Definition THERMAL_DISSIPATION : num := lit 0.05.

Definition TEMP_THRESHOLD : num := lit 25.
Definition COOLING_FACTOR : num := lit 0.5.
Definition COOLING_EFFICIENCY : num := lit 0.6.
Definition COOLING_COP : num := lit 3.0.
Definition LOAD_COOLING_FACTOR : num := lit 0.05.

Definition MAX_SOLAR_KW : num := lit 8.0.
Definition SOLAR_EFFICIENCY : num := lit 0.85.

Definition GRID_CARBON_INTENSITY : num := lit 0.7.
Definition DEADLINE_PENALTY_KWH : num := lit 2.0.

End Config.

(* ================================================================== *)
(** * smartScheduler.ts: class Job *)
(* ================================================================== *)

Inductive Priority : Type := high | medium | low | critical.

Inductive Status : Type := WAITING | RUNNING | DONE.

Definition Priority_eqb (p q : Priority) : bool :=
  match p, q with
  | high, high | medium, medium | low, low | critical, critical => true
  | _, _ => false
  end.

Definition Status_eqb (s t : Status) : bool :=
  match s, t with
  | WAITING, WAITING | RUNNING, RUNNING | DONE, DONE => true
  | _, _ => false
  end.

(** [String.prototype.toLowerCase] on the ASCII letters. *)
Definition lower_ascii (c : ascii) : ascii :=
  let n := nat_of_ascii c in
  if (65 <=? n)%nat && (n <=? 90)%nat then ascii_of_nat (n + 32) else c.

Fixpoint toLowerCase (s : string) : string :=
  match s with
  | EmptyString => EmptyString
  | String c s' => String (lower_ascii c) (toLowerCase s')
  end.

(** [Job.normalizePriority]: one of the four names, whatever its case;
    anything else is [medium]. *)
Definition normalizePriority (p : string) : Priority :=
  let lower := toLowerCase p in
  if String.eqb lower "high" then high
  else if String.eqb lower "medium" then medium
  else if String.eqb lower "low" then low
  else if String.eqb lower "critical" then critical
  else medium.

Section JobClass.
Context {num : Type} `{Number num}.
Local Open Scope num_scope.

(** The fields of a [Job].  The field [id], a token drawn from
    [Math.random], is read nowhere in the core and is left out: a job is
    identified by its reference.  [duration] and [remaining] are minutes,
    [deadline] and [startHour] are hours or [null]. *)
Record Job : Type := mkJob {
  name : string;
  powerKw : num;
  duration : num;
  remaining : num;
  priority : Priority;
  deadline : option num;
  status : Status;
  penalized : bool;
  startHour : option num;
  flexible : bool
}.

(** [new Job(name, powerKw, durationMin, priority, deadlineHour, flexible)] *)
Definition new_Job (name : string) (powerKw durationMin : num)
    (priority : string) (deadlineHour : option num) (flexible : bool) : Job :=
  {| name := name;
     powerKw := powerKw;
     duration := durationMin;
     remaining := durationMin;
     priority := normalizePriority priority;
     deadline := deadlineHour;
     status := WAITING;
     penalized := false;
     startHour := None;
     flexible := flexible |}.

Definition set_status (j : Job) (s : Status) : Job :=
  mkJob (name j) (powerKw j) (duration j) (remaining j) (priority j)
        (deadline j) s (penalized j) (startHour j) (flexible j).

Definition set_startHour (j : Job) (h : option num) : Job :=
  mkJob (name j) (powerKw j) (duration j) (remaining j) (priority j)
        (deadline j) (status j) (penalized j) h (flexible j).

Definition set_remaining (j : Job) (r : num) : Job :=
  mkJob (name j) (powerKw j) (duration j) r (priority j)
        (deadline j) (status j) (penalized j) (startHour j) (flexible j).

Definition set_penalized (j : Job) (b : bool) : Job :=
  mkJob (name j) (powerKw j) (duration j) (remaining j) (priority j)
        (deadline j) (status j) b (startHour j) (flexible j).

(** [Job.start] *)
Definition start (j : Job) (currentHour : num) : Job :=
  match status j with
  | WAITING =>
      let j := set_status j RUNNING in
      match startHour j with
      | None => set_startHour j (Some currentHour)
      | Some _ => j
      end
  | _ => j
  end.

(** [Job.runStep] *)
Definition runStep (j : Job) (dtMin currentHour : num) : Job :=
  match status j with
  | DONE => j
  | _ =>
      let j := match status j with WAITING => start j currentHour | _ => j end in
      let j := set_remaining j (remaining j - dtMin) in
      if remaining j <=? lit 0 then set_status (set_remaining j (lit 0)) DONE
      else j
  end.

(** [Job.deadlineMissed]: the job after the call and the value returned. *)
Definition deadlineMissed (j : Job) (currentHour : num) : Job * bool :=
  match deadline j with
  | None => (j, false)
  | Some d =>
      if (currentHour >? d) && negb (Status_eqb (status j) DONE)
         && negb (penalized j)
      then (set_penalized j true, true)
      else (j, false)
  end.

(** [Job.urgencyScore] *)
Definition urgencyScore (j : Job) (currentHour : num) : num :=
  match deadline j with
  | None => lit 0
  | Some d =>
      let hoursUntilDeadline := d - currentHour in
      let hoursNeeded := remaining j / lit 60.0 in
      if hoursUntilDeadline <=? lit 0 then lit 999
      else hoursNeeded / hoursUntilDeadline
  end.

End JobClass.

Arguments Job num : clear implicits.
Arguments mkJob {num}.

(* ================================================================== *)
(** * References to jobs and [Array.prototype.sort] *)
(* ================================================================== *)

(** A reference to a [Job] object: its index in the scheduler's [jobs]
    array.  The array is the store: a method call on a referenced job
    replaces the entry at that index. *)
Abbreviation ref := nat (only parsing).

#[export] Instance Job_inhabited {num : Type} `{Number num} : Inhabited (Job num) :=
  populate (new_Job "" (lit 0) (lit 0) "" None true).

(** [Array.prototype.sort(cmp)] is stable and places [x] after [y] only when
    [cmp(x, y) > 0].  It is modelled by the stable insertion sort.  When
    [cmp] is a consistent comparator ECMAScript fixes the sorted array, and
    it is the one computed here.  When [cmp] is not consistent ECMAScript
    leaves the order to the implementation: the array computed here is then
    a permutation of the input, as the array of every engine is, and need
    not be the permutation a given engine returns. *)
Fixpoint sort_insert {num : Type} `{Number num} {A : Type}
    (cmp : A -> A -> num) (x : A) (l : list A) : list A :=
  match l with
  | [] => [x]
  | y :: l' => if (cmp x y >? lit 0)%num then y :: sort_insert cmp x l' else x :: l
  end.

Definition Array_sort {num : Type} `{Number num} {A : Type}
    (cmp : A -> A -> num) (l : list A) : list A :=
  foldr (sort_insert cmp) [] l.

(** [this.jobs.filter(j => j.status === 'WAITING')], as references, in the
    order of the array. *)
Definition waitingJobs {num : Type} `{Number num} (jobs : list (Job num))
    : list ref :=
  List.filter (fun r => Status_eqb (status (jobs !!! r)) WAITING)
    (seq 0 (length jobs)).

(* ================================================================== *)
(** * smartScheduler.ts: class SmartScheduler *)
(* ================================================================== *)

Module SmartScheduler.
Section Smart.
Context {num : Type} `{Number num}.
Local Open Scope num_scope.

(** [addJob]: [this.jobs.push(job)]. *)
Definition addJob (jobs : list (Job num)) (job : Job num) : list (Job num) :=
  jobs ++ [job].

(** The table [pMap] of [prioritizeJobs]. *)
Definition pMap (p : Priority) : num :=
  match p with
  | critical => lit (-1)
  | high => lit 0
  | medium => lit 1
  | low => lit 2
  end.

(** The comparator handed to [sort] in [prioritizeJobs]. *)
Definition compareJobs (currentHour : num) (a b : Job num) : num :=
  if pMap (priority a) !== pMap (priority b) then
    pMap (priority a) - pMap (priority b)
  else
    let urgencyA := urgencyScore a currentHour in
    let urgencyB := urgencyScore b currentHour in
    if Math_abs (urgencyA - urgencyB) >? lit 0.1 then urgencyB - urgencyA
    else powerKw a - powerKw b.

(** [prioritizeJobs]: the array of references [jobs] sorted by
    [compareJobs], the objects read through the store [heap]. *)
Definition prioritizeJobs (heap : list (Job num)) (jobs : list ref)
    (currentHour _solarKw : num) : list ref :=
  Array_sort
    (fun a b => compareJobs currentHour (heap !!! a) (heap !!! b)) jobs.

(** One iteration of the loop of [schedule] over the sorted candidates; the
    state is [(runningJobs, totalPowerUsed, this.jobs)]. *)
Definition consider (solarAvailableKw currentTemp currentHour : num)
    (st : list ref * num * list (Job num)) (r : ref)
    : list ref * num * list (Job num) :=
  let '(runningJobs, totalPowerUsed, jobs) := st in
  let job := jobs !!! r in
  if (currentTemp >? THERMAL_THRESHOLD) && Priority_eqb (priority job) low
  then st
  else if Priority_eqb (priority job) medium
          && (solarAvailableKw <? lit 1.0) && flexible job
  then st
  else if totalPowerUsed + powerKw job <=? MAX_DATA_HUB_POWER
  then (runningJobs ++ [r],
        totalPowerUsed + powerKw job,
        <[r := start job currentHour]> jobs)
  else st.

(** The loop of [schedule], with its final [totalPowerUsed]. *)
Definition schedule_loop (jobs : list (Job num))
    (solarAvailableKw currentTemp currentHour : num)
    : list ref * num * list (Job num) :=
  let sortedJobs :=
    prioritizeJobs jobs (waitingJobs jobs) currentHour solarAvailableKw in
  fold_left (consider solarAvailableKw currentTemp currentHour) sortedJobs
    ([], lit 0, jobs).

(** [schedule]: the references of the jobs admitted by this call, and the
    scheduler's jobs after it. *)
Definition schedule (jobs : list (Job num))
    (solarAvailableKw currentTemp currentHour : num)
    : list ref * list (Job num) :=
  let '(runningJobs, _, jobs') :=
    schedule_loop jobs solarAvailableKw currentTemp currentHour in
  (runningJobs, jobs').

End Smart.
End SmartScheduler.

(* ================================================================== *)
(** * smartScheduler.ts: class BaselineScheduler *)
(* ================================================================== *)

Module BaselineScheduler.
Section Baseline.
Context {num : Type} `{Number num}.
Local Open Scope num_scope.

Definition addJob (jobs : list (Job num)) (job : Job num) : list (Job num) :=
  jobs ++ [job].

(** The loop of [schedule] over the waiting jobs, left by [break] at the
    first job that does not fit. *)
Fixpoint fifo_loop (hour : num) (waiting : list ref)
    (runningJobs : list ref) (totalPower : num) (jobs : list (Job num))
    : list ref * num * list (Job num) :=
  match waiting with
  | [] => (runningJobs, totalPower, jobs)
  | r :: rest =>
      let job := jobs !!! r in
      if totalPower + powerKw job <=? MAX_DATA_HUB_POWER
      then fifo_loop hour rest (runningJobs ++ [r])
             (totalPower + powerKw job) (<[r := start job hour]> jobs)
      else (runningJobs, totalPower, jobs)
  end.

Definition schedule_loop (jobs : list (Job num)) (hour : num)
    : list ref * num * list (Job num) :=
  let waiting := waitingJobs jobs in
  fifo_loop hour waiting [] BASELINE_BACKGROUND_LOAD jobs.

(** [schedule]: the environment arguments are ignored. *)
Definition schedule (jobs : list (Job num)) (_solar _temp hour : num)
    : list ref * list (Job num) :=
  let '(runningJobs, _, jobs') := schedule_loop jobs hour in
  (runningJobs, jobs').

End Baseline.
End BaselineScheduler.

(* ================================================================== *)
(** * physicsModels.ts *)
(* ================================================================== *)

Section Physics.
Context {num : Type} `{Number num} `{MathLib num}.
Local Open Scope num_scope.

Definition D2R : num := Math_PI / lit 180.

(** [tilt ?? latitude] and the default values of optional parameters. *)
Definition orElse (x : option num) (d : num) : num :=
  match x with Some v => v | None => d end.

(** The sine of the solar altitude computed by [calculateIrradiance]. *)
Definition sinAlpha (dayOfYear hour latitude : num) : num :=
  let latRad := latitude * D2R in
  let delta :=
    lit 23.45 * Math_sin ((lit 360 / lit 365) * (lit 284 + dayOfYear) * D2R) in
  let deltaRad := delta * D2R in
  let omega := lit 15 * (hour - lit 12) in
  let omegaRad := omega * D2R in
  Math_sin latRad * Math_sin deltaRad
  + Math_cos latRad * Math_cos deltaRad * Math_cos omegaRad.

(** [calculateIrradiance].  The source also binds [alpha] to
    [Math.asin(sinAlpha)] and never reads it. *)
Definition calculateIrradiance (dayOfYear hour latitude : num)
    (tilt : option num) : num :=
  let tiltRad := orElse tilt latitude * D2R in
  let delta :=
    lit 23.45 * Math_sin ((lit 360 / lit 365) * (lit 284 + dayOfYear) * D2R) in
  let deltaRad := delta * D2R in
  let omega := lit 15 * (hour - lit 12) in
  let omegaRad := omega * D2R in
  let sinAlpha := sinAlpha dayOfYear hour latitude in
  if sinAlpha <=? lit 0 then lit 0.0
  else
    let A := lit 1160 in
    let B := lit 0.168 in
    let Ibn := A * Math_exp (- B / sinAlpha) in
    let effLatRad := (latitude - orElse tilt latitude) * D2R in
    let cosTheta :=
      Math_sin effLatRad * Math_sin deltaRad
      + Math_cos effLatRad * Math_cos deltaRad * Math_cos omegaRad in
    let I_beam := Ibn * Math_max (lit 0) cosTheta in
    let C := lit 0.095 in
    let I_diffuse := C * Ibn * ((lit 1 + Math_cos tiltRad) / lit 2) in
    let rho := lit 0.2 in
    let I_reflected :=
      Ibn * (sinAlpha + C) * rho * ((lit 1 - Math_cos tiltRad) / lit 2) in
    Math_max (lit 0) (I_beam + I_diffuse + I_reflected).

(** [getSolarPower]; an absent argument takes its default. *)
Definition getSolarPower (hour : num) (maxPowerKw latitude dayOfYear : option num)
    : num :=
  let maxPowerKw := orElse maxPowerKw MAX_SOLAR_KW in
  let latitude := orElse latitude (lit 21.0) in
  let dayOfYear := orElse dayOfYear (lit 172) in
  let irradiance := calculateIrradiance dayOfYear hour latitude (Some latitude) in
  let outputKw := maxPowerKw * (irradiance / lit 1000.0) * SOLAR_EFFICIENCY in
  outputKw.

Definition DEF_MIN_TEMP : num := lit 26.0.
Definition DEF_MAX_TEMP : num := lit 42.0.
Definition PEAK_TEMP_HOUR : num := lit 14.0.

(** [getAmbientTemp] *)
Definition getAmbientTemp (hour : num) (minTemp maxTemp : option num) : num :=
  let minTemp := orElse minTemp DEF_MIN_TEMP in
  let maxTemp := orElse maxTemp DEF_MAX_TEMP in
  let h := hour mod lit 24 in
  let avg := (minTemp + maxTemp) / lit 2 in
  let amp := (maxTemp - minTemp) / lit 2 in
  let phase := (h - PEAK_TEMP_HOUR) * (lit 2 * Math_PI / lit 24) in
  avg + amp * Math_cos phase.

(** [getCoolingPowerKw] *)
Definition getCoolingPowerKw (hubTemp computeLoadKw : num) : num :=
  if hubTemp <=? TEMP_THRESHOLD then lit 0.0
  else
    let excess := hubTemp - TEMP_THRESHOLD in
    let coolingReq :=
      (COOLING_FACTOR * excess) + (LOAD_COOLING_FACTOR * computeLoadKw) in
    let electricalPower := coolingReq / COOLING_COP in
    Math_max (lit 0) electricalPower.

End Physics.

(* ================================================================== *)
(** * simulation.ts *)
(* ================================================================== *)

Section Simulation.
Context {num : Type} `{Number num} `{MathLib num}.
Local Open Scope num_scope.

(** [getGridPrice]: the time-of-use price. *)
Definition getGridPrice (hour : num) : num :=
  if hour <? lit 6 then lit 4.0
  else if (lit 18 <=? hour) && (hour <? lit 22) then lit 12.0
  else lit 8.0.

(** A [StandardizedPoint]: [timestamp] holds [Number(p.timestamp)] when the
    point's timestamp is not [null]. *)
Record StandardizedPoint : Type := mkPoint {
  timestamp : option num;
  value : num
}.

(** A [Map] from numbers to numbers: the entries set, the latest first.
    Keys are compared by [SameValueZero]. *)
Definition NumMap : Type := list (num * num).

Definition Map_set (m : NumMap) (k v : num) : NumMap := (k, v) :: m.

Fixpoint Map_get (m : NumMap) (k : num) : option num :=
  match m with
  | [] => None
  | (k', v) :: m' => if sameValueZero k' k then Some v else Map_get m' k
  end.

(** [createLookup]: the value recorded for the hour [h], else the value of
    the point whose index is [Math.floor(h)], else [null]. *)
Definition createLookup (data : option (list StandardizedPoint))
    : num -> option num :=
  match data with
  | None | Some [] => fun _ => None
  | Some data =>
      let map :=
        fold_left
          (fun map p =>
             match timestamp p with
             | Some t => Map_set map t (value p)
             | None => map
             end)
          data [] in
      let fallbackMap :=
        fold_left
          (fun fm ip => Map_set fm (nZ (Z.of_nat (fst ip))) (value (snd ip)))
          (combine (seq 0 (length data)) data) [] in
      fun h =>
        match Map_get map h with
        | Some v => Some v
        | None =>
            let idx := Math_floor h in
            match Map_get fallbackMap idx with
            | Some v => Some v
            | None => None
            end
        end
  end.

(** An element of the argument [appliances].  [app_power] is
    [parseFloat(app.power)]; [app_duration] (hours) and [app_flexible] may be
    absent; [app_deadlineHour] is the deadline of the job specification, a
    field the entry point does not read. *)
Record Appliance : Type := mkAppliance {
  app_name : string;
  app_power : num;
  app_duration : option num;
  app_priority : string;
  app_deadlineHour : option num;
  app_flexible : option bool
}.

Record Files : Type := mkFiles {
  solar : option (list StandardizedPoint);
  weather : option (list StandardizedPoint)
}.

Record SimulationConfig : Type := mkConfig {
  maxSolarKw : option num;
  minTemp : option num;
  maxTemp : option num;
  latitude : option num;
  dayOfYear : option num
}.

(** The job built from one appliance by the [forEach] of
    [runSmartSimulation]. *)
Definition jobOfAppliance (app : Appliance) : Job num :=
  new_Job
    (app_name app)
    (app_power app)
    (match app_duration app with
     | Some d => if truthy d then d * lit 60 else lit 120
     | None => lit 120
     end)
    (app_priority app)
    (Some (lit 18))
    (match app_flexible app with Some false => false | _ => true end).

(** [scheduler.addJob], by the class of the scheduler. *)
Definition scheduler_addJob (useSmart : bool) (jobs : list (Job num))
    (job : Job num) : list (Job num) :=
  if useSmart then SmartScheduler.addJob jobs job
  else BaselineScheduler.addJob jobs job.

(** The scheduler's [jobs] once every appliance has been added. *)
Definition setupJobs (useSmart : bool) (appliances : list Appliance)
    : list (Job num) :=
  fold_left (fun jobs app => scheduler_addJob useSmart jobs (jobOfAppliance app))
    appliances [].

Record Logs : Type := mkLogs {
  log_time : list num;
  log_solar : list num;
  log_grid : list num;
  log_temp : list num;
  log_cooling : list num;
  log_cost : list num
}.

(** The variables of [runSmartSimulation] the loop reads and writes. *)
Record SimState : Type := mkSim {
  jobs : list (Job num);
  currentlyRunning : list ref;
  gridEnergy : num;
  solarEnergy : num;
  coolingEnergy : num;
  carbon : num;
  slaViolations : num;
  accumulatedCost : num;
  logs : Logs;
  currentTemp : num;
  currentHour : num
}.

Definition dtHours : num := TIME_STEP_MINUTES / lit 60.0.

(** [scheduler.schedule], by the class of the scheduler. *)
Definition scheduler_schedule (useSmart : bool) (jobs : list (Job num))
    (solarAvailable currentTemp currentHour : num) : list ref * list (Job num) :=
  if useSmart
  then SmartScheduler.schedule jobs solarAvailable currentTemp currentHour
  else BaselineScheduler.schedule jobs solarAvailable currentTemp currentHour.

(** The solar power available at [hour]: the looked-up value, else the
    model's. *)
Definition solarAvailableAt (files : Files) (config : SimulationConfig)
    (hour : num) : num :=
  match createLookup (solar files) hour with
  | Some solarRaw => solarRaw
  | None =>
      getSolarPower hour (maxSolarKw config) (latitude config) (dayOfYear config)
  end.

Definition ambientTempAt (files : Files) (config : SimulationConfig)
    (hour : num) : num :=
  match createLookup (weather files) hour with
  | Some tempRaw => tempRaw
  | None => getAmbientTemp hour (minTemp config) (maxTemp config)
  end.

(** Part B of the loop body: every running job advances by one time step
    and leaves the set when it is done. *)
Definition runExisting (currentHour : num)
    (jobs : list (Job num)) (running : list ref) : list (Job num) * list ref :=
  fold_left
    (fun (st : list (Job num) * list ref) r =>
       let '(jobs, running) := st in
       let job := runStep (jobs !!! r) TIME_STEP_MINUTES currentHour in
       let jobs := <[r := job]> jobs in
       if Status_eqb (status job) DONE
       then (jobs, List.filter (fun r' => negb (Nat.eqb r' r)) running)
       else (jobs, running))
    running (jobs, running).

(** Part C: the jobs the scheduler returns join the set. *)
Definition addNew (jobs : list (Job num)) (newJobs running : list ref)
    : list ref :=
  fold_left
    (fun running j =>
       if negb (existsb (Nat.eqb j) running)
          && negb (Status_eqb (status (jobs !!! j)) DONE)
       then running ++ [j] else running)
    newJobs running.

(** Part F: every job is asked whether its deadline was missed. *)
Definition checkDeadlines (currentHour : num) (jobs : list (Job num))
    (slaViolations : num) : list (Job num) * num :=
  fold_left
    (fun (st : list (Job num) * num) j =>
       let '(done, sla) := st in
       let '(j', missed) := deadlineMissed j currentHour in
       (done ++ [j'], if missed then sla + lit 1 else sla))
    jobs ([], slaViolations).

(** One iteration of the [while] loop. *)
Definition simStep (files : Files) (config : SimulationConfig)
    (useSmart : bool) (s : SimState) : SimState :=
  let currentHour := currentHour s in
  (* A. Environment *)
  let solarAvailable := solarAvailableAt files config currentHour in
  let ambientTemp := ambientTempAt files config currentHour in
  (* B. Run existing jobs *)
  let '(jobs, running) := runExisting currentHour (jobs s) (currentlyRunning s) in
  (* C. Scheduler decision *)
  let '(newJobs, jobs) :=
    scheduler_schedule useSmart jobs solarAvailable (currentTemp s) currentHour in
  let running := addNew jobs newJobs running in
  (* D. Power and thermal physics *)
  let computeLoad :=
    fold_left (fun sum j => sum + powerKw (jobs !!! j)) running (lit 0) in
  let solarUsed := Math_min computeLoad solarAvailable in
  let gridUsed := Math_max (lit 0) (computeLoad - solarUsed) in
  let coolingNeeded := getCoolingPowerKw (currentTemp s) computeLoad in
  let tempChange :=
    (HEAT_ACCUMULATION * computeLoad)
    - (COOLING_EFFICIENCY * coolingNeeded)
    - (THERMAL_DISSIPATION * (currentTemp s - ambientTemp)) in
  let currentTemp := currentTemp s + tempChange in
  (* E. Record metrics *)
  let currentGridUse := gridUsed + coolingNeeded in
  let price := getGridPrice currentHour in
  let stepCost := currentGridUse * dtHours * price in
  let solarEnergy := solarEnergy s + solarUsed * dtHours in
  let gridEnergy := gridEnergy s + currentGridUse * dtHours in
  let coolingEnergy := coolingEnergy s + coolingNeeded * dtHours in
  let carbon := carbon s + currentGridUse * dtHours * GRID_CARBON_INTENSITY in
  let accumulatedCost := accumulatedCost s + stepCost in
  let logs :=
    {| log_time := log_time (logs s) ++ [currentHour];
       log_solar := log_solar (logs s) ++ [solarUsed];
       log_grid := log_grid (logs s) ++ [currentGridUse];
       log_temp := log_temp (logs s) ++ [currentTemp];
       log_cooling := log_cooling (logs s) ++ [coolingNeeded];
       log_cost := log_cost (logs s) ++ [accumulatedCost] |} in
  (* F. Deadlines *)
  let '(jobs, slaViolations) :=
    checkDeadlines currentHour jobs (slaViolations s) in
  {| jobs := jobs;
     currentlyRunning := running;
     gridEnergy := gridEnergy;
     solarEnergy := solarEnergy;
     coolingEnergy := coolingEnergy;
     carbon := carbon;
     slaViolations := slaViolations;
     accumulatedCost := accumulatedCost;
     logs := logs;
     currentTemp := currentTemp;
     currentHour := currentHour + dtHours |}.

(** The state on entry to the loop. *)
Definition initialState (useSmart : bool) (appliances : list Appliance)
    : SimState :=
  {| jobs := setupJobs useSmart appliances;
     currentlyRunning := [];
     gridEnergy := lit 0;
     solarEnergy := lit 0;
     coolingEnergy := lit 0;
     carbon := lit 0;
     slaViolations := lit 0;
     accumulatedCost := lit 0;
     logs := mkLogs [] [] [] [] [] [];
     currentTemp := IDEAL_TEMP;
     currentHour := SIMULATION_START_HOUR |}.

(** [while (currentHour < SIMULATION_END_HOUR)]: [fuel] bounds the number
    of iterations; [None] when it does not suffice. *)
Fixpoint simLoop (fuel : nat) (files : Files) (config : SimulationConfig)
    (useSmart : bool) (s : SimState) : option SimState :=
  if currentHour s <? SIMULATION_END_HOUR then
    match fuel with
    | O => None
    | S fuel => simLoop fuel files config useSmart (simStep files config useSmart s)
    end
  else Some s.

Record Energy : Type := mkEnergy {
  energy_solar : num;
  energy_grid : num;
  energy_cooling : num;
  energy_total : num;
  energy_solarPct : num
}.

Record TimelineEvent : Type := mkEvent {
  ev_name : string;
  ev_start : option num;
  ev_duration : num;
  ev_priority : Priority;
  ev_status : Status
}.

(** [SchedulerMetrics]; [cost.total] and [cost.grid] are the same number
    and [cost.penalty] is the constant 0. *)
Record SchedulerMetrics : Type := mkMetrics {
  energy : Energy;
  cost_total : num;
  cost_penalty : num;
  metrics_carbon : num;
  sla_violations : num;
  sla_penaltyKwh : num;
  timeline : list TimelineEvent;
  metrics_logs : Logs
}.

(** The object returned after the loop. *)
Definition wrapUp (s : SimState) : SchedulerMetrics :=
  {| energy :=
       {| energy_solar := solarEnergy s;
          energy_grid := gridEnergy s - coolingEnergy s;
          energy_cooling := coolingEnergy s;
          energy_total := solarEnergy s + gridEnergy s;
          energy_solarPct :=
            (solarEnergy s / (solarEnergy s + gridEnergy s)) * lit 100 |};
     cost_total := accumulatedCost s;
     cost_penalty := lit 0;
     metrics_carbon := carbon s;
     sla_violations := slaViolations s;
     sla_penaltyKwh := slaViolations s * DEADLINE_PENALTY_KWH;
     timeline :=
       map (fun j => mkEvent (name j) (startHour j) (duration j / lit 60)
                       (priority j) (status j))
         (jobs s);
     metrics_logs := logs s |}.

(** [runSmartSimulation] *)
Definition runSmartSimulation (fuel : nat) (appliances : list Appliance)
    (files : Files) (config : SimulationConfig) (useSmart : bool)
    : option SchedulerMetrics :=
  match simLoop fuel files config useSmart (initialState useSmart appliances) with
  | Some s => Some (wrapUp s)
  | None => None
  end.

End Simulation.

Arguments StandardizedPoint num : clear implicits.
Arguments Appliance num : clear implicits.
Arguments Files num : clear implicits.
Arguments SimulationConfig num : clear implicits.
Arguments SimState num : clear implicits.
Arguments SchedulerMetrics num : clear implicits.

(* ================================================================== *)
(** * Lifetimes of a job *)
(* ================================================================== *)

Section JobCalls.
Context {num : Type} `{Number num}.

(** A method call on a [Job]. *)
Inductive Call : Type :=
| CallStart (currentHour : num)
| CallRunStep (dtMin currentHour : num)
| CallDeadlineMissed (currentHour : num)
| CallUrgencyScore (currentHour : num).

(** The job after a call, and the value a call of [deadlineMissed]
    returned. *)
Definition call (j : Job num) (c : Call) : Job num * list bool :=
  match c with
  | CallStart h => (start j h, [])
  | CallRunStep dt h => (runStep j dt h, [])
  | CallDeadlineMissed h => let '(j', b) := deadlineMissed j h in (j', [b])
  | CallUrgencyScore _ => (j, [])
  end.

(** A sequence of calls: the job at its end and the values the calls of
    [deadlineMissed] returned, in order. *)
Fixpoint lifetime (j : Job num) (cs : list Call) : Job num * list bool :=
  match cs with
  | [] => (j, [])
  | c :: cs =>
      let '(j', bs) := call j c in
      let '(j'', bs') := lifetime j' cs in
      (j'', bs ++ bs')
  end.

(** The states of a job in the order of its life. *)
Definition status_rank (s : Status) : nat :=
  match s with
  | WAITING => 0
  | RUNNING => 1
  | DONE => 2
  end.

(** The number of [true] among the values returned. *)
Definition count_true (bs : list bool) : nat :=
  length (List.filter (fun b => b) bs).

(** A sequence of [runStep] calls, each with its [dtMin] and
    [currentHour]. *)
Definition advance (j : Job num) (steps : list (num * num)) : Job num :=
  fold_left (fun j s => runStep j (fst s) (snd s)) steps j.

(** The minutes advanced by a sequence of [runStep] calls. *)
Definition advanced (steps : list (num * num)) : num :=
  fold_left (fun t s => nadd t (fst s)) steps (lit 0).

End JobCalls.

Arguments Call num : clear implicits.

(** The state of a job of duration [d] after [t] minutes were advanced, in
    exact arithmetic: what remains is [d - t] until [t] reaches [d], and 0
    from then on. *)
Definition advanced_inv (d t : R) (j : Job R) : Prop :=
  match status j with
  | DONE => remaining j = 0%R /\ (d <= t)%R
  | _ => remaining j = (d - t)%R /\ (t < d)%R
  end.

(* ================================================================== *)
(** * Vocabulary for the schedulers *)
(* ================================================================== *)

Section SchedulerVocabulary.
Context {num : Type} `{Number num}.
Local Open Scope num_scope.

(** The sum of [powerKw] over the referenced jobs, accumulated from [init]
    in the order of the list. *)
Definition sum_powerKw_from (init : num) (jobs : list (Job num))
    (refs : list ref) : num :=
  fold_left (fun sum r => sum + powerKw (jobs !!! r)) refs init.

Definition sum_powerKw (jobs : list (Job num)) (refs : list ref) : num :=
  sum_powerKw_from (lit 0) jobs refs.

(** The jobs in [RUNNING] status. *)
Definition runningJobs (jobs : list (Job num)) : list ref :=
  List.filter (fun r => Status_eqb (status (jobs !!! r)) RUNNING)
    (seq 0 (length jobs)).

(** The power budget as a call of [SmartScheduler.schedule] would keep it if
    it counted the running jobs: the jobs it admits together with those
    already running stay within the capacity. *)
Definition within_capacity_with_running (jobs : list (Job num))
    (solarAvailableKw currentTemp currentHour : num) : bool :=
  let admitted :=
    fst (SmartScheduler.schedule jobs solarAvailableKw currentTemp currentHour) in
  sum_powerKw jobs admitted + sum_powerKw jobs (runningJobs jobs)
  <=? MAX_DATA_HUB_POWER.

End SchedulerVocabulary.

(* ================================================================== *)
(** * Vocabulary for the simulation *)
(* ================================================================== *)

Section SimulationVocabulary.
Context {num : Type} `{Number num} `{MathLib num}.
Local Open Scope num_scope.

(** A flexible medium job that waits: it was never started and is not in
    the set of running jobs. *)
Definition waits (r : ref) (s : SimState num) : Prop :=
  (r < length (jobs s))%nat
  /\ priority (jobs s !!! r) = medium
  /\ flexible (jobs s !!! r) = true
  /\ status (jobs s !!! r) = WAITING
  /\ startHour (jobs s !!! r) = None
  /\ ~ In r (currentlyRunning s).

(** The deadline of the job is the [deadlineHour] of the specification,
    [null] when the specification gives none. *)
Definition deadline_as_specified (app : Appliance num) (j : Job num) : bool :=
  match app_deadlineHour app, deadline j with
  | None, None => true
  | Some d, Some d' => d' === d
  | _, _ => false
  end.

(** The duration of the job, in minutes, is 60 times the duration of the
    specification, in hours. *)
Definition duration_as_specified (app : Appliance num) (j : Job num) : bool :=
  match app_duration app with
  | Some d => duration j === d * lit 60
  | None => false
  end.

End SimulationVocabulary.

(* ================================================================== *)
(** * The order asked of the candidates *)
(* ================================================================== *)

(** ** What ECMAScript asks of [Array.prototype.sort] *)

Section ComparatorVocabulary.
Context {num : Type} `{Number num} {A : Type}.
Variable cmp : A -> A -> num.
Local Open Scope num_scope.

(** The three relations ECMAScript reads off a comparator: [a <C b] when
    [cmp(a, b) < 0], [a >C b] when [cmp(a, b) > 0], and [a =C b] when
    neither holds. *)
Definition cmp_lt (a b : A) : bool := cmp a b <? lit 0.
Definition cmp_gt (a b : A) : bool := cmp a b >? lit 0.
Definition cmp_eq (a b : A) : bool := negb (cmp_lt a b) && negb (cmp_gt a b).

(** The requirements of a consistent comparator at the values [a], [b] and
    [c]: [cmp(a, b)] is a number, not [NaN], so that one relation at most
    holds of [a] and [b]; [=C] is reflexive and symmetric; [=C], [<C] and
    [>C] are transitive. *)
Definition consistent_at (a b c : A) : bool :=
  (cmp a b === cmp a b)
  && negb (cmp_lt a b && cmp_gt a b)
  && cmp_eq a a
  && implb (cmp_eq a b) (cmp_eq b a)
  && implb (cmp_eq a b && cmp_eq b c) (cmp_eq a c)
  && implb (cmp_lt a b && cmp_lt b c) (cmp_lt a c)
  && implb (cmp_gt a b && cmp_gt b c) (cmp_gt a c).

(** [cmp] is a consistent comparator for the values of [l].  When it is
    not, ECMAScript leaves the order of the sorted array to the
    implementation. *)
Definition consistent_comparator (l : list A) : bool :=
  forallb (fun a => forallb (fun b => forallb (consistent_at a b) l) l) l.

(** [a] comes before [b] in the array [old]. *)
Definition occurs_before (old : list A) (a b : A) : Prop :=
  exists i j, (i < j)%nat /\ old !! i = Some a /\ old !! j = Some b.

(** What ECMAScript asks of an element [a] placed before an element [b] by
    the sort of the array [old]: [b <C a] does not hold, and unless [a <C b]
    holds [a] came before [b] in [old] (the sort is stable). *)
Definition sort_order (old : list A) (a b : A) : Prop :=
  cmp_lt b a = false /\ (cmp_lt a b = false -> occurs_before old a b).

(** [new] is a result ECMAScript admits for the sort of [old] by a
    consistent comparator: the same elements, every one placed before
    another as [sort_order] asks. *)
Definition sorted_by (old new : list A) : Prop :=
  Permutation new old /\ StronglySorted (sort_order old) new.

End ComparatorVocabulary.

(** ** The order the specification asks of the candidates *)

Section CandidateOrder.
Context {num : Type} `{Number num}.
Local Open Scope num_scope.

(** The priority classes in the order critical < high < medium < low. *)
Definition class_rank (p : Priority) : nat :=
  match p with
  | critical => 0
  | high => 1
  | medium => 2
  | low => 3
  end.

(** The job [a] has to come before the job [b]: [a] is of a strictly
    earlier class; or of the same class and, when the urgency scores differ
    by more than the tolerance, of the higher score, and otherwise of the
    smaller power. *)
Definition must_precede (currentHour : num) (a b : Job num) : bool :=
  if (class_rank (priority a) <? class_rank (priority b))%nat then true
  else if (class_rank (priority b) <? class_rank (priority a))%nat then false
  else
    let urgencyA := urgencyScore a currentHour in
    let urgencyB := urgencyScore b currentHour in
    if Math_abs (urgencyA - urgencyB) >? lit 0.1 then urgencyB <? urgencyA
    else powerKw a <? powerKw b.

(** No job of the list has to come before a job placed before it. *)
Fixpoint precedence_kept (currentHour : num) (l : list (Job num)) : bool :=
  match l with
  | [] => true
  | a :: l' =>
      forallb (fun b => negb (must_precede currentHour b a)) l'
      && precedence_kept currentHour l'
  end.

(** The comparator of [prioritizeJobs] on references to jobs. *)
Definition compareRefs (heap : list (Job num)) (currentHour : num)
    (a b : ref) : num :=
  SmartScheduler.compareJobs currentHour (heap !!! a) (heap !!! b).

(** The jobs behind the references [prioritizeJobs] returns, in its order. *)
Definition prioritized (heap : list (Job num)) (refs : list ref)
    (currentHour solarKw : num) : list (Job num) :=
  map (fun r => heap !!! r)
    (SmartScheduler.prioritizeJobs heap refs currentHour solarKw).

End CandidateOrder.

(* ================================================================== *)
(** * Concrete inputs at binary64 *)
(* ================================================================== *)

Module Examples.
Local Open Scope float_scope.

(** Twenty-four hourly points without timestamp, all of value [v]. *)
Definition hourly (v : float) : list (StandardizedPoint float) :=
  map (fun _ => mkPoint None v) (seq 0 24).

Definition no_config : SimulationConfig float :=
  mkConfig None None None None None.

(** Historical data: five kilowatts of solar power and an ambient
    temperature of 20 degrees at every hour. *)
Definition mild_day : Files float :=
  mkFiles (Some (hourly 5)) (Some (hourly 20)).

(** The ambient temperature alone, the solar power left to the model. *)
Definition mild_weather : Files float :=
  mkFiles None (Some (hourly 20)).

(** No solar power at any hour. *)
Definition dark_day : Files float :=
  mkFiles (Some (hourly 0)) (Some (hourly 20)).

Definition pump : Appliance float :=
  mkAppliance "Water Pump" 2 (Some 1) "Medium" (Some 6) (Some true).

Definition lighting : Appliance float :=
  mkAppliance "Lighting System" 0.5 (Some 6) "Critical" None (Some false).

(** An appliance whose duration was left out. *)
Definition timer : Appliance float :=
  mkAppliance "Timer" 1 None "Low" None None.

(** Two jobs of 8 kW each. *)
Definition two_heaters : list (Job float) :=
  [ new_Job "Heater A" 8 120 "high" (Some 18) true;
    new_Job "Heater B" 8 120 "high" (Some 18) true ].

(** Three waiting jobs of one class, whose deadline is ten hours after hour
    8: their urgency scores then are 1, 1.08 and 1.16. *)
Definition cyclic_jobs : list (Job float) :=
  [ new_Job "A" 1 600 "high" (Some 18) true;
    new_Job "B" 2 648 "high" (Some 18) true;
    new_Job "C" 3 696 "high" (Some 18) true ].

(** The appliances the dashboard starts with. *)
Definition household : list (Job float) :=
  [ new_Job "Air Conditioner" 1.5 240 "High" (Some 18) true;
    new_Job "Water Pump" 2 60 "Medium" (Some 18) true;
    new_Job "EV Charger" 7 210 "Low" (Some 18) true;
    new_Job "Lighting System" 0.5 360 "Critical" (Some 18) false ].

(** The appliances the dashboard starts with, as it hands them to
    [runSmartSimulation]. *)
Definition dashboard : list (Appliance float) :=
  [ mkAppliance "Air Conditioner" 1.5 (Some 4) "High" None (Some true);
    mkAppliance "Water Pump" 2 (Some 1) "Medium" None (Some true);
    mkAppliance "EV Charger" 7 (Some 3.5) "Low" None (Some true);
    mkAppliance "Lighting System" 0.5 (Some 6) "Critical" None (Some false) ].

(** A job of half a minute, and five calls of [runStep] with a tenth of a
    minute each. *)
Definition half_minute : Job float :=
  new_Job "Timer" 1 0.5 "high" None true.

Definition tenths : list (float * float) :=
  List.repeat (lit 0.1, 0) 5.

(** A job whose duration is 0, and one whose duration is negative. *)
Definition no_minutes : Job float :=
  new_Job "Timer" 1 0 "high" None true.

Definition negative_minutes : Job float :=
  new_Job "Timer" 1 (-1) "high" None true.

(** A job due at hour 1 and the calls made on it. *)
Definition late_job : Job float :=
  new_Job "Water Pump" 2 120 "medium" (Some 1) true.

Definition late_calls : list (Call float) :=
  [ CallDeadlineMissed 0.5; CallRunStep 10 0.5; CallDeadlineMissed 2;
    CallRunStep 10 2; CallDeadlineMissed 2.5 ].

End Examples.
(* ================================================================== *)
(** * Vocabulary for the runs of the simulation *)
(* ================================================================== *)

Section RunVocabulary.
Context {num : Type} `{Number num} `{MathLib num}.
Local Open Scope num_scope.

(** The state after [n] iterations of the loop of [runSmartSimulation]: the
    variables of the function when the condition of the loop is tested for
    the time [n + 1].  The loop itself stops at the first such test that
    finds the clock not below [SIMULATION_END_HOUR]. *)
Definition stateAfter (files : Files num) (config : SimulationConfig num)
    (useSmart : bool) (appliances : list (Appliance num)) (n : nat)
    : SimState num :=
  Nat.iter n (simStep files config useSmart) (initialState useSmart appliances).

(** The set [currentlyRunning] agrees with the status of the jobs: it holds
    no reference twice, and it holds a reference exactly when the job is
    [RUNNING]. *)
Definition running_consistent (s : SimState num) : Prop :=
  NoDup (currentlyRunning s)
  /\ forall r, In r (currentlyRunning s)
               <-> (r < length (jobs s))%nat
                   /\ status (jobs s !!! r) = RUNNING.

(** The power drawn by the jobs of the set [currentlyRunning], summed as
    part D of the loop body sums it. *)
Definition computeLoad (s : SimState num) : num :=
  fold_left (fun sum j => sum + powerKw (jobs s !!! j)) (currentlyRunning s)
    (lit 0).

(** The number of jobs whose flag [penalized] is set. *)
Definition count_penalized (jobs : list (Job num)) : nat :=
  length (List.filter penalized jobs).

(** The value of a counter that started at 0 and was incremented [k]
    times. *)
Definition incremented (k : nat) : num :=
  Nat.iter k (fun x => x + lit 1) (lit 0).

End RunVocabulary.

Section StepVocabulary.
Context {num : Type} `{Number num}.
Local Open Scope num_scope.

(** The fields of a job that its constructor sets from the arguments and
    no method assigns afterwards. *)
Definition specification (j : Job num)
    : string * num * num * Priority * option num * bool :=
  (name j, powerKw j, duration j, priority j, deadline j, flexible j).

(** The number of jobs that are not [DONE]. *)
Definition count_unfinished (jobs : list (Job num)) : nat :=
  length (List.filter (fun j => negb (Status_eqb (status j) DONE)) jobs).

(** The conditions under which the loop of [SmartScheduler.schedule] passes
    over a job without looking at its power. *)
Definition passed_over (solarAvailableKw currentTemp : num) (job : Job num)
    : bool :=
  ((currentTemp >? THERMAL_THRESHOLD) && Priority_eqb (priority job) low)
  || (Priority_eqb (priority job) medium && (solarAvailableKw <? lit 1.0)
      && flexible job).

(** The hour [h] is the key under which the point [p] is recorded. *)
Definition recorded_at (h : num) (p : StandardizedPoint num) : bool :=
  match timestamp p with
  | Some t => sameValueZero t h
  | None => false
  end.

(** The map from indices to values that [createLookup] falls back on. *)
Definition fallbackMap (data : list (StandardizedPoint num)) : NumMap :=
  fold_left
    (fun fm ip => Map_set fm (nZ (Z.of_nat (fst ip))) (value (snd ip)))
    (combine (seq 0 (length data)) data) [].

(** The value of the clock of the simulation at the start of iteration
    [k]. *)
Definition clock (k : nat) : num :=
  Nat.iter k (fun h => h + dtHours) SIMULATION_START_HOUR.

(** The state of a job goes with its status. *)
Definition status_agrees (n : nat) (j : Job num) : Prop :=
  (status j = WAITING -> startHour j = None /\ remaining j = duration j)
  /\ (status j <> WAITING ->
      exists k, (k < n)%nat /\ startHour j = Some (clock k))
  /\ (status j = DONE -> remaining j = lit 0).

End StepVocabulary.

Section ByIteration.
Context {num : Type} `{Number num}.
Local Open Scope num_scope.

(** The price bands by iteration: the off-peak price up to iteration 35, the
    peak price from iteration [first_peak] to iteration 131, the standard
    price otherwise. *)
Definition price_band (first_peak k : nat) : num :=
  if (k <? 36)%nat then lit 4.0
  else if (first_peak <=? k)%nat && (k <? 132)%nat then lit 12.0
  else lit 8.0.

End ByIteration.

(** The iterations at which the binary64 clock is just below a whole hour
    that the exact clock has reached. *)
Definition late_iterations : list nat :=
  [6; 18; 24; 60; 66; 72; 78; 84; 90; 96; 102; 108; 114]%nat.

(** The index of the hourly point read at iteration [k] in binary64. *)
Definition index_read_float (k : nat) : nat :=
  if existsb (Nat.eqb k) late_iterations then (k / 6 - 1)%nat else (k / 6)%nat.

(* ================================================================== *)
(** * predictionService.ts and csvParser.ts: the pure parts *)
(* ================================================================== *)

Section Prediction.
Context {num : Type} `{Number num}.
Local Open Scope num_scope.

(** The array [hours] that [predict24Hours] requests, [currentHour] being
    the value of [new Date().getHours()]. *)
Definition predict24Hours_hours (currentHour : num) : list num :=
  map (fun i => (currentHour + nZ (Z.of_nat i)) mod lit 24) (seq 0 24).

End Prediction.

(** The characters the pattern [/[^a-z0-9]/g] keeps. *)
Definition is_lower_alnum (c : ascii) : bool :=
  let n := nat_of_ascii c in
  ((97 <=? n)%nat && (n <=? 122)%nat) || ((48 <=? n)%nat && (n <=? 57)%nat).

(** [s.replace(/[^a-z0-9]/g, '')] *)
Fixpoint strip_other (s : string) : string :=
  match s with
  | EmptyString => EmptyString
  | String c s' =>
      if is_lower_alnum c then String c (strip_other s') else strip_other s'
  end.

(** [h.toLowerCase().replace(/[^a-z0-9]/g, '')], on strings of ASCII
    characters. *)
Definition normalizeName (s : string) : string := strip_other (toLowerCase s).

(** [s.includes(sub)] *)
Fixpoint includes (s sub : string) : bool :=
  String.prefix sub s
  || match s with
     | EmptyString => false
     | String _ s' => includes s' sub
     end.

(** [l.findIndex(f)], [None] standing for -1. *)
Fixpoint findIndex {A : Type} (f : A -> bool) (l : list A) : option nat :=
  match l with
  | [] => None
  | x :: l' => if f x then Some 0%nat else option_map S (findIndex f l')
  end.

(** [findColumn]: [None] stands for [undefined]. *)
Definition findColumn (headers keywords : list string) : option string :=
  let lowerHeaders := map normalizeName headers in
  (fix loop (keywords : list string) : option string :=
     match keywords with
     | [] => None
     | keyword :: rest =>
         let normalizedKeyword := normalizeName keyword in
         match findIndex (fun h => includes h normalizedKeyword) lowerHeaders with
         | Some index => headers !! index
         | None => loop rest
         end
     end) keywords.

(** The header [h] matches the keyword: its normal form contains that of
    the keyword. *)
Definition matches (keyword h : string) : bool :=
  includes (normalizeName h) (normalizeName keyword).

(* ================================================================== *)
(** * Further concrete inputs *)
(* ================================================================== *)

Module Inputs.

(** An appliance that does not fit on top of the background load. *)
Definition boiler : Appliance float :=
  mkAppliance "Boiler" 8%float (Some 1%float) "High" None None.

(** Two points recorded at hour 6 and one point without timestamp. *)
Definition stamped : list (StandardizedPoint float) :=
  [ mkPoint (Some 6%float) 1%float; mkPoint (Some 6%float) 2%float;
    mkPoint None 3%float ].

(** Two points without timestamp, in exact arithmetic. *)
Definition two_points : list (StandardizedPoint R) :=
  [ mkPoint None 5%R; mkPoint None 7%R ].

(** A job that exceeds the capacity of the hub by itself. *)
Definition kiln : list (Job R) :=
  [ new_Job "Kiln" 12%R 60%R "high" (Some 18%R) true ].

(** Two hours of work due at hour 18. *)
Definition pump_job : Job R :=
  new_Job "Water Pump" 2%R 120%R "medium" (Some 18%R) true.

(** An appliance whose power could not be parsed. *)
Definition broken : Appliance float :=
  mkAppliance "Heater" PrimFloat.nan (Some 1%float) "High" None None.

(** A fan of 2 kW whose duration was left out, and a day without data, in
    exact arithmetic. *)
Definition fan : Appliance R :=
  mkAppliance "Fan" 2%R None "High" None None.

Definition no_files : Files R := mkFiles None None.

Definition no_settings : SimulationConfig R :=
  mkConfig None None None None None.

(** The header of a file of solar data. *)
Definition solar_headers : list string :=
  [ "Date"%string; "Solar_Radiation"%string; "Production (kW)"%string ].

End Inputs.

(* ================================================================== *)
(** * Properties of class Job *)
(* ================================================================== *)

Ltac unfold_start j :=
  unfold start; destruct (status j) eqn:?; simpl; try reflexivity;
  destruct (startHour j); simpl; congruence.

Section JobFacts.
Context {num : Type} `{Number num}.
Local Open Scope num_scope.

Lemma start_penalized (j : Job num) h : penalized (start j h) = penalized j.
Proof. unfold_start j. Qed.

Lemma start_priority (j : Job num) h : priority (start j h) = priority j.
Proof. unfold_start j. Qed.

Lemma start_flexible (j : Job num) h : flexible (start j h) = flexible j.
Proof. unfold_start j. Qed.

Lemma start_powerKw (j : Job num) h : powerKw (start j h) = powerKw j.
Proof. unfold_start j. Qed.

Lemma start_remaining (j : Job num) h : remaining (start j h) = remaining j.
Proof. unfold_start j. Qed.

Lemma start_status (j : Job num) h :
  status (start j h) = match status j with WAITING => RUNNING | s => s end.
Proof. unfold_start j. Qed.

Lemma runStep_penalized (j : Job num) dt h :
  penalized (runStep j dt h) = penalized j.
Proof.
  unfold runStep.
  destruct (status j) eqn:E; try reflexivity;
    match goal with |- context [if ?c then _ else _] => destruct c end;
    simpl; rewrite ?start_penalized; reflexivity.
Qed.

(** A call of [deadlineMissed] answers [true] exactly under its three
    conditions. *)
Lemma deadlineMissed_true_iff (j : Job num) h :
  snd (deadlineMissed j h) = true <->
  exists d, deadline j = Some d /\ (h >? d) = true
            /\ status j <> DONE /\ penalized j = false.
Proof.
  unfold deadlineMissed. destruct (deadline j) as [d|]; simpl.
  - destruct (h >? d) eqn:Eh, (status j) eqn:Es, (penalized j) eqn:Ep; simpl;
      split; intros Hx; try discriminate;
      try (exists d; repeat split; congruence);
      destruct Hx as (d' & Hd & Hgt & Hs & Hp); inversion Hd; subst;
      congruence.
  - split; [discriminate|]. intros (d & Hd & _). discriminate.
Qed.

Lemma deadlineMissed_penalized (j : Job num) h :
  penalized (fst (deadlineMissed j h))
  = penalized j || snd (deadlineMissed j h).
Proof.
  unfold deadlineMissed. destruct (deadline j) as [d|]; simpl.
  - destruct ((h >? d) && negb (Status_eqb (status j) DONE)
              && negb (penalized j)) eqn:E; simpl.
    + rewrite orb_true_r. reflexivity.
    + rewrite orb_false_r. reflexivity.
  - rewrite orb_false_r. reflexivity.
Qed.

Lemma deadlineMissed_flagged (j : Job num) h :
  penalized j = true -> snd (deadlineMissed j h) = false.
Proof.
  intros Hp. unfold deadlineMissed. destruct (deadline j); simpl; auto.
  rewrite Hp, andb_false_r. reflexivity.
Qed.

Lemma call_penalized (j : Job num) c :
  penalized j = true ->
  penalized (fst (call j c)) = true /\ count_true (snd (call j c)) = 0%nat.
Proof.
  intros Hp. destruct c as [h | dt h | h | h]; simpl.
  - rewrite start_penalized. auto.
  - rewrite runStep_penalized. auto.
  - pose proof (deadlineMissed_penalized j h) as Hq.
    pose proof (deadlineMissed_flagged j h Hp) as Hf.
    destruct (deadlineMissed j h) as [j' b]; simpl in *.
    subst b. rewrite Hq, Hp. auto.
  - auto.
Qed.

Lemma count_true_app (bs bs' : list bool) :
  count_true (bs ++ bs') = (count_true bs + count_true bs')%nat.
Proof.
  unfold count_true. rewrite List.filter_app, length_app. reflexivity.
Qed.

(** Once a job is flagged, no later call of [deadlineMissed] answers
    [true]. *)
Lemma lifetime_flagged (cs : list (Call num)) :
  forall j, penalized j = true -> count_true (snd (lifetime j cs)) = 0%nat.
Proof.
  induction cs as [|c cs IH]; intros j Hp; simpl; [reflexivity|].
  destruct (call_penalized j c Hp) as [Hp' Hc].
  destruct (call j c) as [j' bs]; simpl in *.
  specialize (IH j' Hp'). destruct (lifetime j' cs) as [j'' bs']; simpl in *.
  rewrite count_true_app, Hc, IH. reflexivity.
Qed.

Lemma call_count (j : Job num) c :
  (count_true (snd (call j c)) <= 1)%nat
  /\ (count_true (snd (call j c)) = 1%nat -> penalized (fst (call j c)) = true).
Proof.
  destruct c as [h | dt h | h | h]; simpl;
    try (unfold count_true; simpl; split; [lia | intros; discriminate]).
  pose proof (deadlineMissed_penalized j h) as Hq.
  destruct (deadlineMissed j h) as [j' b]; simpl in *.
  destruct b; unfold count_true; simpl; (split; [lia|]).
  - intros _. rewrite Hq. apply orb_true_r.
  - intros; discriminate.
Qed.

Lemma lifetime_at_most_once (cs : list (Call num)) :
  forall j, (count_true (snd (lifetime j cs)) <= 1)%nat.
Proof.
  induction cs as [|c cs IH]; intros j; simpl; [unfold count_true; simpl; lia|].
  destruct (call_count j c) as [Hle Hone].
  pose proof (lifetime_flagged cs (fst (call j c))) as Hfl.
  destruct (call j c) as [j' bs]; simpl in *.
  specialize (IH j').
  destruct (lifetime j' cs) as [j'' bs']; simpl in *.
  rewrite count_true_app.
  destruct (count_true bs) as [|[|n]] eqn:E; try lia.
  rewrite (Hfl (Hone eq_refl)). lia.
Qed.

(** C3. Over any sequence of method calls on a job, [deadlineMissed]
    answers [true] at most once.  A call answers [true] exactly when the
    hour exceeds the deadline, the status is not [DONE] and the job is not
    yet flagged; that call sets [penalized], after which every call in any
    later sequence answers [false]; a job without deadline always gets
    [false]. *)
Theorem deadlineMissed_at_most_once (j : Job num) (h : num)
    (cs : list (Call num)) :
  (count_true (snd (lifetime j cs)) <= 1)%nat
  /\ (snd (deadlineMissed j h) = true <->
      exists d, deadline j = Some d /\ (h >? d) = true
                /\ status j <> DONE /\ penalized j = false)
  /\ (snd (deadlineMissed j h) = true ->
      penalized (fst (deadlineMissed j h)) = true
      /\ count_true (snd (lifetime (fst (deadlineMissed j h)) cs)) = 0%nat)
  /\ (deadline j = None -> snd (deadlineMissed j h) = false).
Proof.
  split; [apply lifetime_at_most_once|].
  split; [apply deadlineMissed_true_iff|].
  split.
  - intros Ht.
    assert (Hp : penalized (fst (deadlineMissed j h)) = true).
    { rewrite deadlineMissed_penalized, Ht. apply orb_true_r. }
    split; [exact Hp | apply lifetime_flagged; exact Hp].
  - intros Hd. unfold deadlineMissed. rewrite Hd. reflexivity.
Qed.

Lemma urgencyScore_three_cases (j : Job num) (h : num) :
  (deadline j = None -> urgencyScore j h = lit 0)
  /\ (forall d, deadline j = Some d -> (d - h <=? lit 0) = true ->
        urgencyScore j h = lit 999)
  /\ (forall d, deadline j = Some d -> (d - h <=? lit 0) = false ->
        urgencyScore j h = (remaining j / lit 60.0) / (d - h)).
Proof.
  unfold urgencyScore. repeat split.
  - intros ->. reflexivity.
  - intros d -> ->. reflexivity.
  - intros d -> ->. reflexivity.
Qed.

(** A job that is [DONE] has no minutes left, whatever the arithmetic. *)
Lemma runStep_done_remaining (j : Job num) (dt h : num) :
  (status j = DONE -> remaining j = lit 0) ->
  status (runStep j dt h) = DONE -> remaining (runStep j dt h) = lit 0.
Proof.
  intros Hj. unfold runStep. destruct (status j) eqn:Es.
  - pose proof (start_status j h) as Hs. rewrite Es in Hs.
    destruct (remaining (set_remaining (start j h) (remaining (start j h) - dt))
              <=? lit 0); simpl; [reflexivity|].
    rewrite Hs. discriminate.
  - destruct (remaining (set_remaining j (remaining j - dt)) <=? lit 0);
      simpl; [reflexivity|]. rewrite Es. discriminate.
  - rewrite Es. exact Hj.
Qed.

Lemma advance_done_remaining (steps : list (num * num)) :
  forall j : Job num,
    (status j = DONE -> remaining j = lit 0) ->
    status (advance j steps) = DONE -> remaining (advance j steps) = lit 0.
Proof.
  unfold advance.
  induction steps as [|[dt h] steps IH]; intros j Hj; simpl; [exact Hj|].
  apply IH. apply runStep_done_remaining. exact Hj.
Qed.

Lemma runStep_done_noop (j : Job num) (dt h : num) :
  status j = DONE -> runStep j dt h = j.
Proof. intros E. unfold runStep. rewrite E. reflexivity. Qed.

End JobFacts.

(* ================================================================== *)
(** * Binary64: rounding and subtraction *)
(* ================================================================== *)

(** The numbers of JavaScript are the binary64 floating-point numbers, whose
    operations the kernel specifies through [SpecFloat]: a finite number
    is [m * 2 ^ e] with a mantissa of at most 53 bits and an exponent between
    -1074 and 971, and an operation rounds its exact result to the nearest
    such number.  Two facts about subtraction are proved from that
    specification: the difference of a number and a greater one is negative
    (never rounded to zero), and subtracting a number that is not negative
    gives no more than what it was subtracted from. *)

Section Binary64.
Local Open Scope Z_scope.

Lemma pow2_pos (a : Z) : 0 <= a -> 0 < 2 ^ a.
Proof. intros Ha. apply Z.pow_pos_nonneg; lia. Qed.

Lemma pow2_add (a b : Z) : 0 <= a -> 0 <= b -> 2 ^ (a + b) = 2 ^ a * 2 ^ b.
Proof. intros. apply Z.pow_add_r; assumption. Qed.

Lemma pow2_lt_inv (a b : Z) : 0 <= b -> 2 ^ a < 2 ^ b -> a < b.
Proof. intros Hb H. apply (Z.pow_lt_mono_r_iff 2); [lia | exact Hb | exact H]. Qed.

Lemma pow2_le (a b : Z) : 0 <= a <= b -> 2 ^ a <= 2 ^ b.
Proof. intros H. apply Z.pow_le_mono_r; lia. Qed.

(** A positive number of [d] binary digits lies between [2 ^ (d - 1)] and
    [2 ^ d]. *)
Lemma digits2_pos_bounds (m : positive) :
  2 ^ (Zpos (digits2_pos m) - 1) <= Zpos m < 2 ^ Zpos (digits2_pos m).
Proof.
  induction m as [m IH|m IH|]; cbn [digits2_pos].
  - rewrite Pos2Z.inj_succ, Pos2Z.inj_xI.
    replace (Z.succ (Zpos (digits2_pos m)) - 1)
      with (Z.succ (Zpos (digits2_pos m) - 1)) by lia.
    pose proof (Pos2Z.is_pos (digits2_pos m)).
    rewrite !Z.pow_succ_r by lia.
    revert IH. generalize (2 ^ (Zpos (digits2_pos m) - 1)).
    generalize (2 ^ Zpos (digits2_pos m)). lia.
  - rewrite Pos2Z.inj_succ. change (Zpos m~0) with (2 * Zpos m).
    replace (Z.succ (Zpos (digits2_pos m)) - 1)
      with (Z.succ (Zpos (digits2_pos m) - 1)) by lia.
    pose proof (Pos2Z.is_pos (digits2_pos m)).
    rewrite !Z.pow_succ_r by lia.
    revert IH. generalize (2 ^ (Zpos (digits2_pos m) - 1)).
    generalize (2 ^ Zpos (digits2_pos m)). lia.
  - cbv. split; [discriminate | reflexivity].
Qed.

Lemma iter_xO (m d : positive) :
  Zpos (Pos.iter xO m d) = Zpos m * 2 ^ Zpos d.
Proof.
  induction d as [|d IH] using Pos.peano_ind.
  - simpl. lia.
  - rewrite Pos.iter_succ.
    change (Zpos (Pos.iter xO m d)~0) with (2 * Zpos (Pos.iter xO m d)).
    rewrite IH, Pos2Z.inj_succ, Z.pow_succ_r by lia.
    lia.
Qed.

(** [shl_align] keeps the value and never raises the exponent. *)
Lemma shl_align_spec (mx : positive) (ex ez : Z) :
  snd (shl_align mx ex ez) = Z.min ex ez
  /\ Zpos (fst (shl_align mx ex ez))
     = Zpos mx * 2 ^ (ex - snd (shl_align mx ex ez)).
Proof.
  unfold shl_align. destruct (ez - ex) as [|d|d] eqn:E; cbn [fst snd].
  - split; [lia|]. rewrite Z.sub_diag. simpl. lia.
  - split; [lia|]. rewrite Z.sub_diag. simpl. lia.
  - split; [lia|]. replace (ex - ez) with (Zpos d) by lia. apply iter_xO.
Qed.

Lemma shr_1_m (mrs : shr_record) :
  0 <= shr_m mrs -> shr_m (shr_1 mrs) = shr_m mrs / 2.
Proof.
  destruct mrs as [m r s]. cbn [shr_m]. intros Hm.
  destruct m as [|q|q]; [reflexivity | | lia].
  destruct q as [p|p|]; cbn [shr_1 shr_m].
  - change (Zpos p~1) with (2 * Zpos p + 1).
    apply Z.div_unique with 1; lia.
  - change (Zpos p~0) with (2 * Zpos p).
    apply Z.div_unique with 0; lia.
  - reflexivity.
Qed.

Lemma iter_shr_1 (p : positive) :
  forall mrs : shr_record,
    0 <= shr_m mrs ->
    shr_m (SpecFloat.iter_pos shr_1 p mrs) = shr_m mrs / 2 ^ Zpos p.
Proof.
  induction p as [p IH|p IH|]; intros mrs Hm; cbn [SpecFloat.iter_pos].
  - assert (H1 : 0 <= shr_m (shr_1 mrs))
      by (rewrite shr_1_m by exact Hm; apply Z.div_pos; lia).
    assert (H2 : 0 <= shr_m (SpecFloat.iter_pos shr_1 p (shr_1 mrs)))
      by (rewrite IH by exact H1; apply Z.div_pos;
          [exact H1 | apply pow2_pos; lia]).
    pose proof (pow2_pos (Zpos p) ltac:(lia)) as Hp.
    rewrite (IH _ H2), (IH _ H1), (shr_1_m _ Hm).
    rewrite !Z.div_div by lia. f_equal.
    change (Zpos p~1) with (2 * Zpos p + 1).
    replace (2 * Zpos p + 1) with (1 + Zpos p + Zpos p) by lia.
    rewrite !pow2_add by lia. change (2 ^ 1) with 2. ring.
  - assert (H2 : 0 <= shr_m (SpecFloat.iter_pos shr_1 p mrs))
      by (rewrite IH by exact Hm; apply Z.div_pos;
          [exact Hm | apply pow2_pos; lia]).
    pose proof (pow2_pos (Zpos p) ltac:(lia)) as Hp.
    rewrite (IH _ H2), (IH _ Hm).
    rewrite !Z.div_div by lia. f_equal.
    change (Zpos p~0) with (2 * Zpos p).
    replace (2 * Zpos p) with (Zpos p + Zpos p) by lia.
    rewrite !pow2_add by lia. ring.
  - rewrite shr_1_m by exact Hm. reflexivity.
Qed.

Lemma shr_spec (mrs : shr_record) (e n : Z) :
  0 <= shr_m mrs ->
  shr_m (fst (shr mrs e n)) = shr_m mrs / 2 ^ Z.max n 0
  /\ snd (shr mrs e n) = e + Z.max n 0.
Proof.
  intros Hm. unfold shr. destruct n as [|p|p]; cbn [fst snd].
  - simpl. rewrite Z.div_1_r. lia.
  - rewrite iter_shr_1 by exact Hm. replace (Z.max (Zpos p) 0) with (Zpos p) by lia.
    split; reflexivity.
  - replace (Z.max (Zneg p) 0) with 0 by lia. simpl. rewrite Z.div_1_r. lia.
Qed.

Lemma fexp_64 (z : Z) : fexp prec emax z = Z.max (z - 53) (-1074).
Proof. reflexivity. Qed.

Lemma bounded_spec (m : positive) (e : Z) :
  bounded prec emax m e = true ->
  Z.max (Zpos (digits2_pos m) + e - 53) (-1074) = e /\ e <= 971.
Proof.
  unfold bounded, canonical_mantissa. rewrite fexp_64.
  intros H. apply andb_true_iff in H as [H1 H2].
  apply Z.eqb_eq in H1. apply Z.leb_le in H2.
  change (emax - prec) with 971 in H2. split; assumption.
Qed.

Lemma shr_record_of_loc_m (m : Z) (l : location) :
  shr_m (shr_record_of_loc m l) = m.
Proof. destruct l as [|[| |]]; reflexivity. Qed.

Lemma round_nearest_even_bounds (m : Z) (l : location) :
  m <= round_nearest_even m l <= m + 1.
Proof.
  unfold round_nearest_even.
  destruct l as [|[| |]]; try destruct (Z.even m); lia.
Qed.

Lemma shr_fexp_spec (m e : Z) (l : location) :
  0 <= m ->
  shr_m (fst (shr_fexp prec emax m e l))
  = m / 2 ^ Z.max (fexp prec emax (Zdigits2 m + e) - e) 0
  /\ snd (shr_fexp prec emax m e l)
     = e + Z.max (fexp prec emax (Zdigits2 m + e) - e) 0.
Proof.
  intros Hm. unfold shr_fexp.
  pose proof (shr_spec (shr_record_of_loc m l) e
                (fexp prec emax (Zdigits2 m + e) - e)) as H.
  rewrite shr_record_of_loc_m in H. apply H. exact Hm.
Qed.

(** What [binary_round_aux] returns: the mantissa is shifted to the
    exponent of the format, rounded, and shifted once more. *)
Lemma binary_round_aux_spec (sx : bool) (mx ex : Z) (lx : location) :
  0 <= mx ->
  exists m2 : Z,
    mx / 2 ^ Z.max (fexp prec emax (Zdigits2 mx + ex) - ex) 0 <= m2
    /\ m2 <= mx / 2 ^ Z.max (fexp prec emax (Zdigits2 mx + ex) - ex) 0 + 1
    /\ binary_round_aux prec emax sx mx ex lx
       = let e1 := ex + Z.max (fexp prec emax (Zdigits2 mx + ex) - ex) 0 in
         let k2 := Z.max (fexp prec emax (Zdigits2 m2 + e1) - e1) 0 in
         match m2 / 2 ^ k2 with
         | Z0 => S754_zero sx
         | Zpos m =>
             if e1 + k2 <=? emax - prec then S754_finite sx m (e1 + k2)
             else S754_infinity sx
         | Zneg _ => S754_nan
         end.
Proof.
  intros Hm. unfold binary_round_aux.
  destruct (shr_fexp_spec mx ex lx Hm) as [A1 B1].
  destruct (shr_fexp prec emax mx ex lx) as [mrs' e'] eqn:E1.
  cbn [fst snd] in A1, B1.
  pose proof (round_nearest_even_bounds (shr_m mrs') (loc_of_shr_record mrs'))
    as Hr.
  set (m2 := round_nearest_even (shr_m mrs') (loc_of_shr_record mrs')) in *.
  assert (Hm1 : 0 <= shr_m mrs').
  { rewrite A1. apply Z.div_pos; [exact Hm|]. apply pow2_pos. lia. }
  assert (Hm2 : 0 <= m2) by lia.
  destruct (shr_fexp_spec m2 e' loc_Exact Hm2) as [A2 B2].
  destruct (shr_fexp prec emax m2 e' loc_Exact) as [mrs'' e''] eqn:E2.
  cbn [fst snd] in A2, B2.
  exists m2. rewrite <- A1. split; [lia|]. split; [lia|].
  cbv zeta. rewrite <- B1, <- B2, <- A2. reflexivity.
Qed.

(** A positive mantissa at an exponent of the format is not shifted away. *)
Lemma div_pow2_pos (p : positive) (e : Z) :
  -1074 <= e ->
  1 <= Zpos p / 2 ^ Z.max (fexp prec emax (Zdigits2 (Zpos p) + e) - e) 0.
Proof.
  intros He. rewrite fexp_64. cbn [Zdigits2].
  pose proof (digits2_pos_bounds p) as [Hlo _].
  pose proof (Pos2Z.is_pos (digits2_pos p)) as Hd.
  set (d := Zpos (digits2_pos p)) in *.
  set (k := Z.max (Z.max (d + e - 53) (-1074) - e) 0).
  assert (Hk : 0 <= k <= d - 1) by lia.
  apply Z.div_le_lower_bound; [apply pow2_pos; lia|].
  rewrite Z.mul_1_r. etransitivity; [apply pow2_le; exact Hk | exact Hlo].
Qed.

(** Rounding a positive mantissa gives no zero: the result is finite or
    infinite, of the sign asked for. *)
Lemma binary_round_aux_sign (sx : bool) (m : positive) (e : Z) (lx : location) :
  -1074 <= e ->
  (exists m' e', binary_round_aux prec emax sx (Zpos m) e lx
                 = S754_finite sx m' e')
  \/ binary_round_aux prec emax sx (Zpos m) e lx = S754_infinity sx.
Proof.
  intros He.
  destruct (binary_round_aux_spec sx (Zpos m) e lx ltac:(lia))
    as (m2 & Hlo & _ & ->).
  pose proof (div_pow2_pos m e He) as H1.
  cbv zeta.
  set (e1 := e + Z.max (fexp prec emax (Zdigits2 (Zpos m) + e) - e) 0) in *.
  assert (He1 : -1074 <= e1) by (unfold e1; lia).
  destruct m2 as [|p2|p2]; try lia.
  pose proof (div_pow2_pos p2 e1 He1) as H2.
  destruct (Zpos p2 / 2 ^ _) as [|p3|p3]; try lia.
  destruct (_ <=? _); [left; eauto | right; reflexivity].
Qed.

Lemma binary_round_sign (sx : bool) (m : positive) (e : Z) :
  -1074 <= e ->
  (exists m' e', binary_round prec emax sx m e = S754_finite sx m' e')
  \/ binary_round prec emax sx m e = S754_infinity sx.
Proof.
  intros He. unfold binary_round.
  pose proof (shl_align_spec m e (fexp prec emax (Zpos (digits2_pos m) + e)))
    as [Hs _].
  destruct (shl_align m e _) as [mz ez]. cbn [snd] in Hs.
  apply binary_round_aux_sign. rewrite fexp_64 in Hs. lia.
Qed.

(** Rounding to nearest does not pass a number of the format: a value below
    [mx * 2 ^ ex] is rounded to that number at most. *)
Lemma binary_round_aux_below (m mx : positive) (e ex : Z) (lx : location) :
  bounded prec emax mx ex = true -> -1074 <= e <= ex ->
  Zpos m < Zpos mx * 2 ^ (ex - e) ->
  SFltb (S754_finite false mx ex)
    (binary_round_aux prec emax false (Zpos m) e lx) = false.
Proof.
  intros Hb He Hlt.
  apply bounded_spec in Hb as [Hcan Hex].
  destruct (binary_round_aux_spec false (Zpos m) e lx ltac:(lia))
    as (m2 & Hlo & Hhi & ->).
  cbv zeta. rewrite !fexp_64. rewrite fexp_64 in Hlo, Hhi.
  cbn [Zdigits2] in *.
  pose proof (digits2_pos_bounds m) as [Hmlo Hmhi].
  pose proof (digits2_pos_bounds mx) as [Hxlo Hxhi].
  pose proof (Pos2Z.is_pos (digits2_pos m)) as Hd.
  pose proof (Pos2Z.is_pos (digits2_pos mx)) as Hdx.
  set (d := Zpos (digits2_pos m)) in *.
  set (dx := Zpos (digits2_pos mx)) in *.
  (* the magnitude of the value is at most that of the bound *)
  assert (Hmag : d + e <= dx + ex).
  { assert (2 ^ (d - 1) < 2 ^ (dx + (ex - e))); [|apply pow2_lt_inv in H; lia].
    rewrite pow2_add by lia.
    pose proof (pow2_pos (ex - e) ltac:(lia)). nia. }
  set (k1 := Z.max (Z.max (d + e - 53) (-1074) - e) 0) in *.
  set (e1 := e + k1).
  assert (Hk1 : 0 <= k1) by (unfold k1; lia).
  assert (He1 : -1074 <= e1 <= ex) by (unfold e1, k1; lia).
  (* the shifted mantissa is below the bound at the new exponent *)
  assert (Hm1 : Zpos m / 2 ^ k1 < Zpos mx * 2 ^ (ex - e1)).
  { apply Z.div_lt_upper_bound; [apply pow2_pos; lia|].
    replace (ex - e) with (k1 + (ex - e1)) in Hlt by (unfold e1; lia).
    rewrite pow2_add in Hlt by lia.
    eapply Z.lt_le_trans; [exact Hlt|]. apply Z.eq_le_incl. ring. }
  assert (Hm2 : m2 <= Zpos mx * 2 ^ (ex - e1)) by lia.
  assert (Hm2' : 0 <= m2).
  { assert (0 <= Zpos m / 2 ^ k1); [|lia].
    apply Z.div_pos; [lia | apply pow2_pos; lia]. }
  destruct m2 as [|p2|p2]; [reflexivity | | lia].
  cbn [Zdigits2].
  pose proof (digits2_pos_bounds p2) as [H2lo H2hi].
  pose proof (Pos2Z.is_pos (digits2_pos p2)) as Hd2.
  set (d2 := Zpos (digits2_pos p2)) in *.
  assert (Hmag2 : d2 + e1 <= dx + ex).
  { assert (2 ^ (d2 - 1) < 2 ^ (dx + (ex - e1)));
      [|apply pow2_lt_inv in H; lia].
    rewrite pow2_add by lia.
    pose proof (pow2_pos (ex - e1) ltac:(lia)). nia. }
  set (k2 := Z.max (Z.max (d2 + e1 - 53) (-1074) - e1) 0) in *.
  assert (Hk2 : 0 <= k2) by (unfold k2; lia).
  assert (He3 : e1 + k2 <= ex) by (unfold k2; lia).
  destruct (Zpos p2 / 2 ^ k2) as [|p3|p3] eqn:E3; [reflexivity| |reflexivity].
  change (emax - prec) with 971.
  destruct (Z.leb_spec (e1 + k2) 971) as [_|Hbad]; [|lia].
  unfold SFltb, SFcompare.
  destruct (Z.compare_spec ex (e1 + k2)) as [Heq|Hl|Hg]; [|lia|reflexivity].
  (* the same exponent: the mantissas decide *)
  assert (Hp3 : Zpos p3 <= Zpos mx).
  { rewrite <- E3. apply Z.div_le_upper_bound; [apply pow2_pos; lia|].
    replace (ex - e1) with k2 in Hm2 by lia. lia. }
  rewrite Pos.compare_cont_spec. cbn [Pos.switch_Eq].
  destruct (Pos.compare_spec mx p3); try reflexivity. lia.
Qed.

Lemma binary_round_below (m mx : positive) (e ex : Z) :
  bounded prec emax mx ex = true -> -1074 <= e <= ex ->
  Zpos m < Zpos mx * 2 ^ (ex - e) ->
  SFltb (S754_finite false mx ex) (binary_round prec emax false m e) = false.
Proof.
  intros Hb He Hlt. unfold binary_round.
  pose proof (shl_align_spec m e (fexp prec emax (Zpos (digits2_pos m) + e)))
    as [Hs Hv].
  destruct (shl_align m e _) as [mz ez]. cbn [fst snd] in Hs, Hv.
  rewrite fexp_64 in Hs.
  apply binary_round_aux_below; [exact Hb | lia |].
  rewrite Hv. replace (ex - ez) with ((ex - e) + (e - ez)) by lia.
  rewrite pow2_add by lia.
  pose proof (pow2_pos (e - ez) ltac:(lia)). nia.
Qed.

Lemma SFltb_irrefl (x : spec_float) : SFltb x x = false.
Proof.
  unfold SFltb, SFcompare.
  destruct x as [s|s| |s m e]; try destruct s; try reflexivity;
    rewrite Z.compare_refl, Pos.compare_cont_refl; reflexivity.
Qed.

(** Of two numbers of the format the one with the smaller exponent is the
    smaller. *)
Lemma aligned_lt (m1 m2 : positive) (e1 e2 : Z) :
  bounded prec emax m1 e1 = true -> bounded prec emax m2 e2 = true ->
  e1 < e2 ->
  Zpos (fst (shl_align m1 e1 (Z.min e1 e2)))
  < Zpos (fst (shl_align m2 e2 (Z.min e1 e2))).
Proof.
  intros H1 H2 He.
  apply bounded_spec in H1 as [C1 _]. apply bounded_spec in H2 as [C2 _].
  destruct (shl_align_spec m1 e1 (Z.min e1 e2)) as [S1 V1].
  destruct (shl_align_spec m2 e2 (Z.min e1 e2)) as [S2 V2].
  rewrite V1, V2, S1, S2.
  replace (Z.min e1 (Z.min e1 e2)) with e1 by lia.
  replace (Z.min e2 (Z.min e1 e2)) with e1 by lia.
  rewrite Z.sub_diag. change (2 ^ 0) with 1. rewrite Z.mul_1_r.
  pose proof (digits2_pos_bounds m1) as [_ Hhi].
  pose proof (digits2_pos_bounds m2) as [Hlo _].
  assert (Hd2 : Zpos (digits2_pos m2) = 53) by lia.
  rewrite Hd2 in Hlo.
  assert (Hd1 : 2 ^ Zpos (digits2_pos m1) <= 2 ^ 53) by (apply pow2_le; lia).
  assert (Hp : 2 ^ 1 <= 2 ^ (e2 - e1)) by (apply pow2_le; lia).
  change (2 ^ 1) with 2 in Hp. change (2 ^ (53 - 1)) with 4503599627370496 in Hlo.
  change (2 ^ 53) with 9007199254740992 in Hd1. nia.
Qed.

Lemma aligned_eq (m1 : positive) (e : Z) :
  fst (shl_align m1 e (Z.min e e)) = m1.
Proof.
  unfold shl_align. rewrite Z.min_id, Z.sub_diag. reflexivity.
Qed.

(** The difference of a number of the format and a positive one is not
    rounded above the number. *)
Lemma SFsub_below (mx my : positive) (ex ey : Z) :
  bounded prec emax mx ex = true -> bounded prec emax my ey = true ->
  SFltb (S754_finite false mx ex)
    (SFsub prec emax (S754_finite false mx ex) (S754_finite false my ey))
  = false.
Proof.
  intros Hx Hy.
  change (SFsub prec emax (S754_finite false mx ex) (S754_finite false my ey))
    with (binary_normalize prec emax
            (Zpos (fst (shl_align mx ex (Z.min ex ey)))
             - Zpos (fst (shl_align my ey (Z.min ex ey))))
            (Z.min ex ey) false).
  destruct (shl_align_spec mx ex (Z.min ex ey)) as [S1 V1].
  pose proof (bounded_spec _ _ Hx) as [Cx _].
  pose proof (bounded_spec _ _ Hy) as [Cy _].
  destruct (Zpos (fst (shl_align mx ex (Z.min ex ey)))
            - Zpos (fst (shl_align my ey (Z.min ex ey)))) as [|p|p] eqn:E;
    cbn [binary_normalize].
  - reflexivity.
  - apply binary_round_below; [exact Hx | lia |].
    rewrite S1 in V1. replace (Z.min ex (Z.min ex ey)) with (Z.min ex ey) in V1 by lia.
    rewrite <- V1. lia.
  - destruct (binary_round_sign true p (Z.min ex ey) ltac:(lia))
      as [(m' & e' & ->)| ->]; reflexivity.
Qed.

(** The difference of a number of the format and a greater one is rounded
    to a negative number, never to zero. *)
Lemma SFsub_negative (sx sy : bool) (mx my : positive) (ex ey : Z) :
  bounded prec emax mx ex = true -> bounded prec emax my ey = true ->
  SFltb (S754_finite sx mx ex) (S754_finite sy my ey) = true ->
  SFltb (SFsub prec emax (S754_finite sx mx ex) (S754_finite sy my ey))
    (S754_zero false) = true.
Proof.
  intros Hx Hy Hlt.
  change (SFsub prec emax (S754_finite sx mx ex) (S754_finite sy my ey))
    with (binary_normalize prec emax
            (cond_Zopp sx (Zpos (fst (shl_align mx ex (Z.min ex ey))))
             - cond_Zopp sy (Zpos (fst (shl_align my ey (Z.min ex ey)))))
            (Z.min ex ey) false).
  pose proof (bounded_spec _ _ Hx) as [Cx _].
  pose proof (bounded_spec _ _ Hy) as [Cy _].
  assert (Hneg : cond_Zopp sx (Zpos (fst (shl_align mx ex (Z.min ex ey))))
                 - cond_Zopp sy (Zpos (fst (shl_align my ey (Z.min ex ey))))
                 < 0).
  { unfold SFltb, SFcompare in Hlt.
    destruct sx, sy; cbn [cond_Zopp]; try discriminate; try lia.
    - destruct (Z.compare_spec ex ey) as [Heq|Hl|Hg]; try discriminate.
      + subst ey. rewrite !aligned_eq.
        rewrite Pos.compare_cont_spec in Hlt. cbn [Pos.switch_Eq] in Hlt.
        destruct (Pos.compare_spec mx my); cbn in Hlt; try discriminate. lia.
      + pose proof (aligned_lt my mx ey ex Hy Hx Hg) as H.
        rewrite (Z.min_comm ey ex) in H. lia.
    - destruct (Z.compare_spec ex ey) as [Heq|Hl|Hg]; try discriminate.
      + subst ey. rewrite !aligned_eq.
        rewrite Pos.compare_cont_spec in Hlt. cbn [Pos.switch_Eq] in Hlt.
        destruct (Pos.compare_spec mx my); cbn in Hlt; try discriminate. lia.
      + pose proof (aligned_lt mx my ex ey Hx Hy Hl) as H. lia. }
  destruct (cond_Zopp sx _ - cond_Zopp sy _) as [|p|p]; try lia.
  cbn [binary_normalize].
  destruct (binary_round_sign true p (Z.min ex ey) ltac:(lia))
    as [(m' & e' & ->)| ->]; reflexivity.
Qed.

End Binary64.

Section PrimFloat64.
Local Open Scope float_scope.

(** In binary64 a subtraction of a number that is not negative never gives
    more than the number it is subtracted from. *)
Lemma float_sub_not_above (x y : float) :
  (x <? 0) = false -> (y <? 0) = false -> (x <? x - y) = false.
Proof.
  rewrite !FloatAxioms.ltb_spec, FloatAxioms.sub_spec.
  change (Prim2SF 0) with (S754_zero false). unfold SF64sub.
  pose proof (FloatAxioms.Prim2SF_valid x) as Vx.
  pose proof (FloatAxioms.Prim2SF_valid y) as Vy.
  destruct (Prim2SF x) as [sx|sx| |sx mx ex];
    destruct (Prim2SF y) as [sy|sy| |sy my ey]; intros Hx Hy;
    try destruct sx; try destruct sy; try discriminate; try reflexivity;
    try apply SFltb_irrefl.
  apply SFsub_below; assumption.
Qed.

(** In binary64 the difference of a number and a greater one is negative:
    with gradual underflow no difference of distinct numbers is rounded to
    zero. *)
Lemma float_sub_negative (x y : float) :
  (x <? y) = true -> (x - y <? 0) = true.
Proof.
  rewrite !FloatAxioms.ltb_spec, FloatAxioms.sub_spec.
  change (Prim2SF 0) with (S754_zero false). unfold SF64sub.
  pose proof (FloatAxioms.Prim2SF_valid x) as Vx.
  pose proof (FloatAxioms.Prim2SF_valid y) as Vy.
  destruct (Prim2SF x) as [sx|sx| |sx mx ex];
    destruct (Prim2SF y) as [sy|sy| |sy my ey]; intros Hlt;
    try (apply SFsub_negative; assumption);
    try destruct sx; try destruct sy; try discriminate; try reflexivity.
Qed.

Lemma float_ltb_irrefl (x : float) : (x <? x) = false.
Proof. rewrite FloatAxioms.ltb_spec. apply SFltb_irrefl. Qed.

End PrimFloat64.

(* ================================================================== *)
(** * Exact arithmetic: the instance [R] *)
(* ================================================================== *)

Lemma Rleb_true (a b : R) : Rleb a b = true <-> (a <= b)%R.
Proof. unfold Rleb. destruct (Rle_dec a b); split; intros; try lra; congruence. Qed.

Lemma Rleb_false (a b : R) : Rleb a b = false <-> (b < a)%R.
Proof. unfold Rleb. destruct (Rle_dec a b); split; intros; try lra; congruence. Qed.

Lemma Rltb_true (a b : R) : Rltb a b = true <-> (a < b)%R.
Proof. unfold Rltb. destruct (Rlt_dec a b); split; intros; try lra; congruence. Qed.

Lemma Rltb_false (a b : R) : Rltb a b = false <-> (b <= a)%R.
Proof. unfold Rltb. destruct (Rlt_dec a b); split; intros; try lra; congruence. Qed.

Lemma Reqb_true (a b : R) : Reqb a b = true <-> a = b.
Proof. unfold Reqb. destruct (Req_dec_T a b); split; intros; try lra; congruence. Qed.

Lemma Reqb_false (a b : R) : Reqb a b = false <-> a <> b.
Proof. unfold Reqb. destruct (Req_dec_T a b); split; intros; try lra; congruence. Qed.

(** Reading the operations of [Number] at [R]. *)
Ltac num_R :=
  cbv [lit Qnum Qden] in *;
  cbn [nZ nadd nsub nmul ndiv nrem nopp nltb nleb neqb
       Math_abs Math_max Math_min Math_floor Number_R
       Math_PI Math_sin Math_cos Math_exp MathLib_R] in *.

Ltac R_cases :=
  repeat match goal with
  | H : Rleb _ _ = true |- _ => apply Rleb_true in H
  | H : Rleb _ _ = false |- _ => apply Rleb_false in H
  | H : Rltb _ _ = true |- _ => apply Rltb_true in H
  | H : Rltb _ _ = false |- _ => apply Rltb_false in H
  | H : Reqb _ _ = true |- _ => apply Reqb_true in H
  | H : Reqb _ _ = false |- _ => apply Reqb_false in H
  end.

Section JobReal.
Local Open Scope R_scope.

Lemma runStep_inv (d t dt h : R) (j : Job R) :
  0 <= dt -> advanced_inv d t j -> advanced_inv d (t + dt) (runStep j dt h).
Proof.
  intros Hdt. unfold advanced_inv, runStep.
  destruct (status j) eqn:Es; intros [Hr Ht].
  - (* WAITING *)
    rewrite <- (start_remaining j h) in Hr.
    pose proof (start_status j h) as Hs. rewrite Es in Hs.
    destruct (start j h) as [n p du re pr de st pe sh fl]; simpl in *. subst st.
    num_R. destruct (Rleb (re - dt) (0 / 1)) eqn:E; simpl; R_cases; lra.
  - (* RUNNING *)
    destruct j as [n p du re pr de st pe sh fl]; simpl in *. subst st.
    num_R. destruct (Rleb (re - dt) (0 / 1)) eqn:E; simpl; R_cases; lra.
  - rewrite Es. lra.
Qed.

Lemma advance_inv (steps : list (R * R)) :
  forall d t (j : Job R),
    Forall (fun s => 0 <= fst s) steps -> advanced_inv d t j ->
    advanced_inv d (fold_left (fun t s => t + fst s) steps t) (advance j steps).
Proof.
  induction steps as [|[dt h] steps IH]; intros d t j Hs Hj; simpl; [exact Hj|].
  inversion Hs; subst. apply IH; [assumption|].
  apply runStep_inv; assumption.
Qed.

Lemma new_Job_inv (n : string) (p d : R) (pr : string) (dl : option R)
    (fl : bool) :
  0 < d -> advanced_inv d (lit 0) (new_Job n p d pr dl fl).
Proof. intros Hd. unfold advanced_inv. simpl. num_R. lra. Qed.

(** The first [runStep] finishes a job whose duration is not positive. *)
Lemma first_step_inv (n : string) (p d : R) (pr : string) (dl : option R)
    (fl : bool) (dt h : R) :
  d <= 0 -> 0 <= dt ->
  advanced_inv d (lit 0 + dt) (runStep (new_Job n p d pr dl fl) dt h).
Proof.
  intros Hd Hdt. unfold advanced_inv, runStep, new_Job, start. simpl. num_R.
  destruct (Rleb (d - dt) (0 / 1)) eqn:E; simpl; R_cases; lra.
Qed.

Lemma advance_new_Job_inv (n : string) (p d : R) (pr : string)
    (dl : option R) (fl : bool) (steps : list (R * R)) :
  0 < d \/ steps <> [] -> Forall (fun s => 0 <= fst s) steps ->
  advanced_inv d (advanced steps) (advance (new_Job n p d pr dl fl) steps).
Proof.
  intros Hd Hs. unfold advanced.
  destruct (Rlt_dec 0 d) as [Hpos|Hneg].
  - apply advance_inv; [exact Hs | apply new_Job_inv; exact Hpos].
  - destruct steps as [|[dt0 h0] rest]; [destruct Hd; [lra | congruence]|].
    inversion Hs; subst. cbn [fold_left advance fst snd].
    apply advance_inv; [assumption|].
    apply first_step_inv; simpl in *; lra.
Qed.

(** What remains is never negative once a call was made, whatever the
    [dtMin] of the calls. *)
Lemma runStep_remaining_nonneg_R (j : Job R) (dt h : R) :
  status j <> DONE \/ 0 <= remaining j -> 0 <= remaining (runStep j dt h).
Proof.
  intros Hj. unfold runStep.
  destruct (status j) eqn:Es; [| |destruct Hj; [congruence | assumption]];
    match goal with
    | |- context [if ?c then _ else _] => destruct c eqn:E
    end; simpl; num_R; try lra; R_cases; simpl in E; num_R; lra.
Qed.

Lemma advance_remaining_nonneg_R (steps : list (R * R)) :
  forall j : Job R, 0 <= remaining j -> 0 <= remaining (advance j steps).
Proof.
  unfold advance.
  induction steps as [|[dt h] steps IH]; intros j Hj; simpl; [exact Hj|].
  apply IH. apply runStep_remaining_nonneg_R. right. exact Hj.
Qed.

Lemma advance_new_Job_nonneg_R (n : string) (p d : R) (pr : string)
    (dl : option R) (fl : bool) (steps : list (R * R)) :
  0 <= d \/ steps <> [] ->
  0 <= remaining (advance (new_Job n p d pr dl fl) steps).
Proof.
  intros Hd. destruct steps as [|[dt h] steps].
  - destruct Hd as [Hd|Hd]; [exact Hd | congruence].
  - unfold advance. cbn [fold_left fst snd].
    apply advance_remaining_nonneg_R, runStep_remaining_nonneg_R.
    left. discriminate.
Qed.

Lemma runStep_remaining_le_R (j : Job R) (dt h : R) :
  0 <= remaining j -> 0 <= dt -> remaining (runStep j dt h) <= remaining j.
Proof.
  intros Hj Hdt. unfold runStep.
  destruct (status j) eqn:Es; [| |lra];
    match goal with
    | |- context [if ?c then _ else _] => destruct c eqn:E
    end; simpl; rewrite ?start_remaining; num_R; lra.
Qed.

(** The status is [DONE] exactly when the minutes advanced reach the
    duration. *)
Lemma advance_done_iff_R (n : string) (p d : R) (pr : string)
    (dl : option R) (fl : bool) (steps : list (R * R)) :
  0 < d \/ steps <> [] -> Forall (fun s => 0 <= fst s) steps ->
  status (advance (new_Job n p d pr dl fl) steps) = DONE
  <-> d <= advanced steps.
Proof.
  intros Hd Hs.
  pose proof (advance_new_Job_inv n p d pr dl fl steps Hd Hs) as Hj.
  unfold advanced_inv in Hj.
  destruct (status (advance (new_Job n p d pr dl fl) steps));
    destruct Hj as [Hr Ht]; split; intros; try discriminate;
    try reflexivity; lra.
Qed.

Lemma urgencyScore_nonneg_R (j : Job R) (h : R) :
  0 <= remaining j -> 0 <= urgencyScore j h.
Proof.
  intros Hr. unfold urgencyScore. destruct (deadline j) as [d|]; num_R; [|lra].
  destruct (Rleb (d - h) (0 / 1)) eqn:E; R_cases; [lra|].
  apply Rmult_le_pos; [lra|]. apply Rlt_le, Rinv_0_lt_compat. lra.
Qed.

End JobReal.

Section JobFloat.
Local Open Scope float_scope.

Lemma float_leb_false_ltb (x y : float) : (x <=? y) = false -> (x <? y) = false.
Proof.
  rewrite FloatAxioms.leb_spec, FloatAxioms.ltb_spec. unfold SFleb, SFltb.
  destruct (SFcompare (Prim2SF x) (Prim2SF y)) as [[| |]|]; congruence.
Qed.

(** In binary64 [runStep] leaves no negative number of minutes. *)
Lemma runStep_not_negative_float (j : Job float) (dt h : float) :
  (remaining j <? 0) = false -> (remaining (runStep j dt h) <? 0) = false.
Proof.
  intros Hj. unfold runStep.
  destruct (status j) eqn:Es; [| |exact Hj];
    match goal with
    | |- context [if ?c then _ else _] => destruct c eqn:E
    end; simpl; try reflexivity;
    apply float_leb_false_ltb; exact E.
Qed.

Lemma advance_not_negative_float (steps : list (float * float)) :
  forall j : Job float,
    (remaining j <? 0) = false -> (remaining (advance j steps) <? 0) = false.
Proof.
  unfold advance.
  induction steps as [|[dt h] steps IH]; intros j Hj; simpl; [exact Hj|].
  apply IH. apply runStep_not_negative_float. exact Hj.
Qed.

Lemma runStep_remaining_not_negative_float (j : Job float) (dt h : float) :
  status j <> DONE \/ (remaining j <? 0) = false ->
  (remaining (runStep j dt h) <? 0) = false.
Proof.
  intros Hj. unfold runStep.
  destruct (status j) eqn:Es; [| |destruct Hj; [congruence | assumption]];
    match goal with
    | |- context [if ?c then _ else _] => destruct c eqn:E
    end; simpl; try reflexivity;
    apply float_leb_false_ltb; exact E.
Qed.

Lemma advance_new_Job_not_negative_float (n : string) (p d : float)
    (pr : string) (dl : option float) (fl : bool)
    (steps : list (float * float)) :
  (d <? 0) = false \/ steps <> [] ->
  (remaining (advance (new_Job n p d pr dl fl) steps) <? 0) = false.
Proof.
  intros Hd. destruct steps as [|[dt h] steps].
  - destruct Hd as [Hd|Hd]; [exact Hd | congruence].
  - unfold advance. cbn [fold_left fst snd].
    apply (advance_not_negative_float steps).
    apply runStep_remaining_not_negative_float. left. discriminate.
Qed.

(** In binary64 a call with a [dtMin] that is not negative leaves no more
    minutes than there were: the subtraction is rounded, but never above the
    number subtracted from. *)
Lemma runStep_not_above_float (j : Job float) (dt h : float) :
  (remaining j <? 0) = false -> (dt <? 0) = false ->
  (remaining j <? remaining (runStep j dt h)) = false.
Proof.
  intros Hj Hdt. unfold runStep.
  destruct (status j) eqn:Es; [| |apply float_ltb_irrefl];
    match goal with
    | |- context [if ?c then _ else _] => destruct c eqn:E
    end; simpl; rewrite ?start_remaining;
    try exact Hj; apply float_sub_not_above; assumption.
Qed.

End JobFloat.

(** C4, as the code has it.  A job is advanced by any sequence of
    [runStep] calls and then once more.  In any arithmetic, the call does
    nothing once the status is [DONE], and [DONE] implies that no minutes
    remain.  For a job whose duration is not negative, or of any duration
    once a call was made, in binary64 as in exact arithmetic: the remaining
    minutes are never negative, and a call whose [dtMin] is not negative
    does not increase them.  In exact arithmetic, for calls with
    non-negative [dtMin] on a job of positive duration [d], or of any
    duration once a call was made, the status is [DONE] exactly when the
    minutes advanced so far reach [d]. *)
Theorem runStep_remaining :
  (forall (num : Type) (N : Number num) (n : string) (p d : num) (pr : string)
          (dl : option num) (fl : bool) (steps : list (num * num))
          (dt h : num),
      let j := advance (new_Job n p d pr dl fl) steps in
      status j = DONE -> runStep j dt h = j /\ remaining j = lit 0)
  /\ (forall (n : string) (p d : float) (pr : string) (dl : option float)
             (fl : bool) (steps : list (float * float)) (dt h : float),
        (d <? lit 0)%num = false \/ steps <> [] ->
        let j := advance (new_Job n p d pr dl fl) steps in
        (remaining j <? lit 0)%num = false
        /\ ((dt <? lit 0)%num = false ->
            (remaining j <? remaining (runStep j dt h))%num = false))
  /\ (forall (n : string) (p d : R) (pr : string) (dl : option R) (fl : bool)
             (steps : list (R * R)) (dt h : R),
        (0 <= d)%R \/ steps <> [] ->
        let j := advance (new_Job n p d pr dl fl) steps in
        (0 <= remaining j)%R
        /\ ((0 <= dt)%R -> (remaining (runStep j dt h) <= remaining j)%R))
  /\ (forall (n : string) (p d : R) (pr : string) (dl : option R) (fl : bool)
             (steps : list (R * R)),
        (0 < d)%R \/ steps <> [] ->
        Forall (fun s => (0 <= fst s)%R) steps ->
        status (advance (new_Job n p d pr dl fl) steps) = DONE
        <-> (d <= advanced steps)%R).
Proof.
  split; [|split; [|split]].
  - intros num N n p d pr dl fl steps dt h j Hd. split.
    + apply runStep_done_noop. exact Hd.
    + apply advance_done_remaining; [discriminate | exact Hd].
  - intros n p d pr dl fl steps dt h Hd j.
    assert (Hj : (remaining j <? lit 0)%num = false)
      by (apply advance_new_Job_not_negative_float; exact Hd).
    split; [exact Hj|]. intros Hdt.
    apply runStep_not_above_float; assumption.
  - intros n p d pr dl fl steps dt h Hd j.
    assert (Hj : (0 <= remaining j)%R)
      by (apply advance_new_Job_nonneg_R; exact Hd).
    split; [exact Hj|]. intros Hdt.
    apply runStep_remaining_le_R; assumption.
  - intros n p d pr dl fl steps. apply advance_done_iff_R.
Qed.

(** C4 fails as stated.  In binary64 a job of half a minute is [RUNNING]
    after five calls of a tenth of a minute, with 2 ^ -55 minutes left,
    although the minutes advanced, summed in binary64, are the half minute
    of its duration: each subtraction is rounded.  In any arithmetic a job
    of duration 0 is [WAITING] until the first call, although the minutes
    advanced, none, reach its duration; and a job built with a negative
    duration has a negative number of minutes left, which its first call
    raises to 0. *)
Lemma rounded_minutes_not_done :
  status (advance Examples.half_minute Examples.tenths) = RUNNING
  /\ (lit 0 <? remaining (advance Examples.half_minute Examples.tenths))%num
     = true
  /\ advanced Examples.tenths = duration Examples.half_minute
  /\ (duration Examples.half_minute <=? advanced Examples.tenths)%num = true
  /\ status (advance Examples.no_minutes []) = WAITING
  /\ (duration Examples.no_minutes <=? advanced [])%num = true
  /\ (remaining (advance Examples.negative_minutes []) <? lit 0)%num = true
  /\ (remaining Examples.negative_minutes
      <? remaining (runStep Examples.negative_minutes 0.5%float 0%float))%num
     = true.
Proof. vm_compute. repeat split; reflexivity. Qed.

(** C5. [urgencyScore] is 0 for a job without deadline; when the deadline
    is now or past ([deadline - hour <= 0]) it is the sentinel 999 and no
    division takes place; otherwise it is [(remaining / 60) / (deadline -
    hour)].  In exact arithmetic the divisor of that quotient is positive and
    the score of a job with no negative remaining time is never negative. *)
Theorem urgencyScore_cases :
  (forall (num : Type) (N : Number num) (j : Job num) (h : num),
      (deadline j = None -> urgencyScore j h = lit 0)
      /\ (forall d, deadline j = Some d -> (d - h <=? lit 0)%num = true ->
            urgencyScore j h = lit 999)
      /\ (forall d, deadline j = Some d -> (d - h <=? lit 0)%num = false ->
            urgencyScore j h = ((remaining j / lit 60.0) / (d - h))%num))
  /\ (forall (j : Job R) (h d : R),
        deadline j = Some d ->
        ((d - h <= 0)%R -> urgencyScore j h = 999%R)
        /\ ((0 < d - h)%R -> urgencyScore j h = (remaining j / 60 / (d - h))%R)
        /\ ((0 <= remaining j)%R -> (0 <= urgencyScore j h)%R)).
Proof.
  split.
  - intros num N j h. apply urgencyScore_three_cases.
  - intros j h d Hd.
    destruct (urgencyScore_three_cases j h) as (_ & Hpast & Hfut).
    split; [|split].
    + intros Hle. rewrite (Hpast d Hd); [num_R; lra|].
      num_R. apply Rleb_true. lra.
    + intros Hlt. rewrite (Hfut d Hd); [num_R; lra|].
      num_R. apply Rleb_false. lra.
    + apply urgencyScore_nonneg_R.
Qed.

(* ================================================================== *)
(** * Properties of the schedulers *)
(* ================================================================== *)

Section SchedulerFacts.
Context {num : Type} `{Number num}.
Local Open Scope num_scope.

(** Starting the job at [r] changes no field that [start] preserves, at any
    reference. *)
Lemma insert_start_field {B : Type} (f : Job num -> B)
    (jobs : list (Job num)) (r r' : ref) (h : num) :
  (forall j, f (start j h) = f j) ->
  f (<[r := start (jobs !!! r) h]> jobs !!! r') = f (jobs !!! r').
Proof.
  intros Hf. destruct (decide (r = r')) as [->|Hne].
  - destruct (decide (r' < length jobs)%nat) as [Hlt|Hge].
    + rewrite list_lookup_total_insert_eq by exact Hlt. apply Hf.
    + rewrite list_insert_ge by lia. reflexivity.
  - rewrite list_lookup_total_insert_ne by exact Hne. reflexivity.
Qed.

(** The two outcomes of one iteration of the loop of
    [SmartScheduler.schedule]. *)
Lemma consider_cases (s t h : num) (run : list ref) (tot : num)
    (jobs : list (Job num)) (r : ref) :
  SmartScheduler.consider s t h (run, tot, jobs) r = (run, tot, jobs)
  \/ (SmartScheduler.consider s t h (run, tot, jobs) r
      = (run ++ [r], tot + powerKw (jobs !!! r),
         <[r := start (jobs !!! r) h]> jobs)
      /\ (tot + powerKw (jobs !!! r) <=? MAX_DATA_HUB_POWER) = true
      /\ (t >? THERMAL_THRESHOLD) && Priority_eqb (priority (jobs !!! r)) low
         = false
      /\ Priority_eqb (priority (jobs !!! r)) medium && (s <? lit 1.0)
         && flexible (jobs !!! r) = false).
Proof.
  unfold SmartScheduler.consider.
  destruct ((t >? THERMAL_THRESHOLD)
            && Priority_eqb (priority (jobs !!! r)) low); [left; reflexivity|].
  destruct (Priority_eqb (priority (jobs !!! r)) medium && (s <? lit 1.0)
            && flexible (jobs !!! r)); [left; reflexivity|].
  destruct (tot + powerKw (jobs !!! r) <=? MAX_DATA_HUB_POWER) eqn:E;
    [right; auto | left; reflexivity].
Qed.

(** The loop of [SmartScheduler.schedule]: the accumulator is the sum over
    the jobs admitted, and it passed the capacity check whenever a job was
    admitted. *)
Lemma consider_fold_total (s t h : num) (jobs0 : list (Job num))
    (cands : list ref) :
  forall run tot jobs,
    (forall r, powerKw (jobs !!! r) = powerKw (jobs0 !!! r)) ->
    exists newly,
      let res := fold_left (SmartScheduler.consider s t h) cands (run, tot, jobs) in
      fst (fst res) = run ++ newly
      /\ snd (fst res) = sum_powerKw_from tot jobs0 newly
      /\ (newly = [] \/ (snd (fst res) <=? MAX_DATA_HUB_POWER) = true)
      /\ (forall r, powerKw (snd res !!! r) = powerKw (jobs0 !!! r)).
Proof.
  induction cands as [|c cands IH]; intros run tot jobs Hp; cbn [fold_left].
  - exists []. rewrite app_nil_r. auto.
  - destruct (consider_cases s t h run tot jobs c) as [-> | (-> & Hle & _)].
    + apply IH. exact Hp.
    + destruct (IH (run ++ [c]) (tot + powerKw (jobs !!! c))
                  (<[c := start (jobs !!! c) h]> jobs)) as (newly & E1 & E2 & E3 & E4).
      { intros r. rewrite <- Hp. apply insert_start_field.
        intros j. apply start_powerKw. }
      exists (c :: newly). simpl in *.
      rewrite E1, <- app_assoc. split; [reflexivity|].
      split; [rewrite E2; unfold sum_powerKw_from; simpl; rewrite Hp; reflexivity|].
      split; [|exact E4].
      right. destruct E3 as [-> | E3]; [|exact E3].
      rewrite E2. unfold sum_powerKw_from. simpl. exact Hle.
Qed.

(** What one call of [SmartScheduler.schedule] admits stays within the
    capacity, in any arithmetic in which 0 does. *)
Lemma schedule_within_capacity (jobs : list (Job num)) (s t h : num) :
  (lit 0 <=? MAX_DATA_HUB_POWER) = true ->
  (sum_powerKw jobs (fst (SmartScheduler.schedule jobs s t h))
   <=? MAX_DATA_HUB_POWER) = true.
Proof.
  intros H0. unfold SmartScheduler.schedule, SmartScheduler.schedule_loop.
  destruct (consider_fold_total s t h jobs
              (SmartScheduler.prioritizeJobs jobs (waitingJobs jobs) h s)
              [] (lit 0) jobs (fun _ => eq_refl))
    as (newly & E1 & E2 & E3 & _).
  destruct (fold_left _ _ _) as [[run tot] jobs']; simpl in *. subst run.
  unfold sum_powerKw. rewrite <- E2.
  destruct E3 as [-> | E3]; [|exact E3].
  simpl in E2. subst tot. exact H0.
Qed.

(** With less than 1 kW of solar power the loop passes over a flexible
    medium job: it is not pushed on [runningJobs] and the store keeps it as
    it is. *)
Lemma consider_fold_medium (s t h : num) (r0 : ref) (cands : list ref) :
  (s <? lit 1.0) = true ->
  forall run tot jobs,
    priority (jobs !!! r0) = medium -> flexible (jobs !!! r0) = true ->
    let res := fold_left (SmartScheduler.consider s t h) cands (run, tot, jobs) in
    (~ In r0 run -> ~ In r0 (fst (fst res)))
    /\ snd res !!! r0 = jobs !!! r0.
Proof.
  intros Hs. induction cands as [|c cands IH]; intros run tot jobs Hm Hf;
    cbn [fold_left].
  - auto.
  - destruct (consider_cases s t h run tot jobs c) as [-> | (-> & _ & _ & Hskip)].
    + apply IH; assumption.
    + assert (Hne : c <> r0).
      { intros ->. rewrite Hm, Hs, Hf in Hskip. discriminate. }
      assert (Hkeep : <[c := start (jobs !!! c) h]> jobs !!! r0 = jobs !!! r0).
      { apply list_lookup_total_insert_ne. exact Hne. }
      destruct (IH (run ++ [c]) (tot + powerKw (jobs !!! c))
                  (<[c := start (jobs !!! c) h]> jobs)) as [I1 I2].
      { rewrite Hkeep. exact Hm. }
      { rewrite Hkeep. exact Hf. }
      split.
      * intros Hnin. apply I1. rewrite in_app_iff. simpl. tauto.
      * cbv zeta in I2. rewrite I2. exact Hkeep.
Qed.

Lemma schedule_skips_medium (jobs : list (Job num)) (s t h : num) (r0 : ref) :
  (s <? lit 1.0) = true ->
  priority (jobs !!! r0) = medium -> flexible (jobs !!! r0) = true ->
  ~ In r0 (fst (SmartScheduler.schedule jobs s t h))
  /\ snd (SmartScheduler.schedule jobs s t h) !!! r0 = jobs !!! r0.
Proof.
  intros Hs Hm Hf.
  unfold SmartScheduler.schedule, SmartScheduler.schedule_loop.
  pose proof (consider_fold_medium s t h r0
                (SmartScheduler.prioritizeJobs jobs (waitingJobs jobs) h s)
                Hs [] (lit 0) jobs Hm Hf) as [I1 I2].
  destruct (fold_left _ _ _) as [[run tot] jobs']; simpl in *.
  split; [apply I1; intros [] | exact I2].
Qed.

End SchedulerFacts.

Section BaselineFacts.
Context {num : Type} `{Number num}.
Local Open Scope num_scope.

Lemma start_idempotent (j : Job num) (h : num) : start (start j h) h = start j h.
Proof.
  unfold start. destruct (status j) eqn:Es; simpl; rewrite ?Es; try reflexivity.
  destruct (startHour j); simpl; reflexivity.
Qed.

(** The references of the waiting jobs are valid, in the order of the
    array, and the jobs they point to are waiting. *)
Lemma waitingJobs_spec (jobs : list (Job num)) (r : ref) :
  In r (waitingJobs jobs)
  <-> (r < length jobs)%nat /\ status (jobs !!! r) = WAITING.
Proof.
  unfold waitingJobs. rewrite List.filter_In, in_seq. cbv beta.
  destruct (status (jobs !!! r)); simpl; split; intros [H1 H2];
    try discriminate; (split; [lia | reflexivity]).
Qed.

Lemma filter_seq_increasing (f : nat -> bool) (len : nat) :
  forall start,
    StronglySorted lt (List.filter f (seq start len))
    /\ Forall (fun x => (start <= x)%nat) (List.filter f (seq start len)).
Proof.
  induction len as [|len IH]; intros start; simpl.
  - split; constructor.
  - destruct (IH (S start)) as [Hs Hf].
    assert (Hf' : Forall (fun x => (start < x)%nat)
                    (List.filter f (seq (S start) len))).
    { eapply Forall_impl; [exact Hf|]. simpl. intros x Hx. lia. }
    assert (Hf'' : Forall (fun x => (start <= x)%nat)
                     (List.filter f (seq (S start) len))).
    { eapply Forall_impl; [exact Hf|]. simpl. intros x Hx. lia. }
    destruct (f start).
    + split; constructor; auto.
    + split; [exact Hs | exact Hf''].
Qed.

(** The waiting jobs are listed in the order of the array, which is the
    order of submission. *)
Lemma waitingJobs_increasing (jobs : list (Job num)) :
  StronglySorted lt (waitingJobs jobs).
Proof. unfold waitingJobs. apply filter_seq_increasing. Qed.

(** The loop of [BaselineScheduler.schedule] admits a prefix of the waiting
    jobs: every job of the prefix passed the capacity check against the
    accumulator, the job after it failed the check, and exactly the admitted
    jobs were started. *)
Lemma fifo_loop_prefix (h : num) (jobs0 : list (Job num)) (w : list ref) :
  forall run tot jobs,
    (forall x, (In x run -> (x < length jobs0)%nat ->
                jobs !!! x = start (jobs0 !!! x) h)
               /\ (~ In x run -> jobs !!! x = jobs0 !!! x)) ->
    length jobs = length jobs0 ->
    exists k,
      let res := BaselineScheduler.fifo_loop h w run tot jobs in
      fst (fst res) = run ++ take k w
      /\ (forall i r, (i < k)%nat -> w !! i = Some r ->
            (sum_powerKw_from tot jobs0 (take i w) + powerKw (jobs0 !!! r)
             <=? MAX_DATA_HUB_POWER) = true)
      /\ (forall r, w !! k = Some r ->
            (sum_powerKw_from tot jobs0 (take k w) + powerKw (jobs0 !!! r)
             <=? MAX_DATA_HUB_POWER) = false)
      /\ (forall x, (In x (fst (fst res)) -> (x < length jobs0)%nat ->
                     snd res !!! x = start (jobs0 !!! x) h)
                    /\ (~ In x (fst (fst res)) -> snd res !!! x = jobs0 !!! x)).
Proof.
  induction w as [|c w IH]; intros run tot jobs Hst Hlen; cbn [BaselineScheduler.fifo_loop].
  - exists 0%nat. simpl. rewrite app_nil_r.
    repeat split; try (intros; discriminate || lia); apply Hst.
  - assert (Hp : powerKw (jobs !!! c) = powerKw (jobs0 !!! c)).
    { destruct (Hst c) as [Hin Hnin].
      destruct (in_dec Nat.eq_dec c run) as [Hc|Hc].
      - destruct (decide (c < length jobs0)%nat) as [Hlt|Hge].
        + rewrite (Hin Hc Hlt). apply start_powerKw.
        + rewrite !list_lookup_total_alt, !lookup_ge_None_2 by lia. reflexivity.
      - rewrite (Hnin Hc). reflexivity. }
    rewrite Hp.
    destruct (tot + powerKw (jobs0 !!! c) <=? MAX_DATA_HUB_POWER) eqn:E.
    + destruct (IH (run ++ [c]) (tot + powerKw (jobs0 !!! c))
                  (<[c := start (jobs !!! c) h]> jobs)) as (k & E1 & E2 & E3 & E4).
      { intros x. destruct (Hst x) as [Hin Hnin]. split.
        - intros Hx Hlt. destruct (decide (c = x)) as [->|Hne].
          + rewrite list_lookup_total_insert_eq by lia.
            destruct (in_dec Nat.eq_dec x run) as [Hr|Hr].
            * rewrite (Hin Hr Hlt). apply start_idempotent.
            * rewrite (Hnin Hr). reflexivity.
          + rewrite list_lookup_total_insert_ne by exact Hne.
            apply Hin; [|exact Hlt].
            apply in_app_iff in Hx. simpl in Hx. intuition congruence.
        - intros Hx. rewrite in_app_iff in Hx. simpl in Hx.
          rewrite list_lookup_total_insert_ne by intuition.
          apply Hnin. tauto. }
      { rewrite length_insert. exact Hlen. }
      exists (S k). cbv zeta in *.
      destruct (BaselineScheduler.fifo_loop _ _ _ _ _) as [[run' tot'] jobs'].
      simpl in *. subst run'. rewrite <- app_assoc in *. simpl in *.
      split; [reflexivity|]. split; [|split].
      * intros [|i] r Hi Hr; simpl in *.
        -- inversion Hr; subst. exact E.
        -- apply E2; [lia | exact Hr].
      * intros r Hr. apply E3. exact Hr.
      * exact E4.
    + exists 0%nat. simpl. rewrite app_nil_r.
      split; [reflexivity|]. split; [intros; lia|]. split.
      * intros r Hr. inversion Hr; subst. exact E.
      * exact Hst.
Qed.

(** C6. [BaselineScheduler.schedule] ignores the environment.  The jobs it
    considers are exactly the jobs of the scheduler in [WAITING] status, in
    the order of submission (the order of the array, which [addJob] appends
    to).  Its accumulator starts at [BASELINE_BACKGROUND_LOAD]: it admits the
    first [k] waiting jobs, each of which fitted within the capacity on top
    of the accumulator, and the job after them, if there is one, did not
    fit; no later job is admitted, whatever its priority or power.  The
    admitted jobs are started and every other job is left as it was. *)
Theorem baseline_schedule_fifo (jobs : list (Job num)) (s t h : num) :
  let waiting := waitingJobs jobs in
  let admitted := fst (BaselineScheduler.schedule jobs s t h) in
  let jobs' := snd (BaselineScheduler.schedule jobs s t h) in
  (forall s' t', BaselineScheduler.schedule jobs s' t' h
                 = BaselineScheduler.schedule jobs s t h)
  /\ (forall r, In r waiting
                <-> (r < length jobs)%nat /\ status (jobs !!! r) = WAITING)
  /\ StronglySorted lt waiting
  /\ exists k,
      admitted = take k waiting
      /\ (forall i r, (i < k)%nat -> waiting !! i = Some r ->
            (sum_powerKw_from BASELINE_BACKGROUND_LOAD jobs (take i waiting)
             + powerKw (jobs !!! r) <=? MAX_DATA_HUB_POWER) = true)
      /\ (forall r, waiting !! k = Some r ->
            (sum_powerKw_from BASELINE_BACKGROUND_LOAD jobs (take k waiting)
             + powerKw (jobs !!! r) <=? MAX_DATA_HUB_POWER) = false)
      /\ (forall r, In r admitted -> jobs' !!! r = start (jobs !!! r) h
                                     /\ status (jobs' !!! r) = RUNNING)
      /\ (forall r, ~ In r admitted -> jobs' !!! r = jobs !!! r).
Proof.
  intros waiting admitted jobs'. split; [reflexivity|].
  split; [intros r; apply waitingJobs_spec|].
  split; [apply waitingJobs_increasing|].
  subst admitted jobs'.
  unfold BaselineScheduler.schedule, BaselineScheduler.schedule_loop.
  fold waiting.
  destruct (fifo_loop_prefix h jobs waiting [] BASELINE_BACKGROUND_LOAD jobs)
    as (k & E1 & E2 & E3 & E4).
  { intros x. split; [intros [] | reflexivity]. }
  { reflexivity. }
  cbv zeta in *.
  destruct (BaselineScheduler.fifo_loop _ _ _ _ _) as [[run tot] jobs'];
    simpl in *. subst run.
  assert (Hw : forall r, In r (take k waiting) ->
                         (r < length jobs)%nat /\ status (jobs !!! r) = WAITING).
  { intros r Hr. apply waitingJobs_spec. fold waiting.
    apply list_elem_of_In. apply (subseteq_take k waiting).
    apply list_elem_of_In. exact Hr. }
  exists k. split; [reflexivity|]. split; [exact E2|]. split; [exact E3|].
  split.
  - intros r Hr. destruct (Hw r Hr) as [Hlt Hs].
    destruct (E4 r) as [Hin _]. rewrite (Hin Hr Hlt).
    split; [reflexivity|]. rewrite start_status, Hs. reflexivity.
  - intros r Hr. apply E4. exact Hr.
Qed.

End BaselineFacts.

(* ================================================================== *)
(** * Properties of the simulation loop *)
(* ================================================================== *)

Section SimulationFacts.
Context {num : Type} `{Number num} `{MathLib num}.
Local Open Scope num_scope.

(** The jobs of the loop's state whose reference is not in the set of
    running jobs are not touched by part B. *)
Lemma runExisting_frame (h : num) (r0 : ref) (l : list ref) :
  ~ In r0 l ->
  forall jobs running,
    ~ In r0 running ->
    let res :=
      fold_left
        (fun (st : list (Job num) * list ref) r =>
           let '(jobs, running) := st in
           let job := runStep (jobs !!! r) TIME_STEP_MINUTES h in
           let jobs := <[r := job]> jobs in
           if Status_eqb (status job) DONE
           then (jobs, List.filter (fun r' => negb (Nat.eqb r' r)) running)
           else (jobs, running))
        l (jobs, running) in
    fst res !!! r0 = jobs !!! r0
    /\ length (fst res) = length jobs
    /\ ~ In r0 (snd res).
Proof.
  induction l as [|r l IH]; intros Hl jobs running Hr; cbn [fold_left].
  - auto.
  - assert (Hne : r <> r0) by (intros ->; apply Hl; left; reflexivity).
    assert (Hl' : ~ In r0 l) by (intros Hx; apply Hl; right; exact Hx).
    set (job := runStep (jobs !!! r) TIME_STEP_MINUTES h).
    destruct (Status_eqb (status job) DONE).
    + destruct (IH Hl' (<[r := job]> jobs)
                  (List.filter (fun r' => negb (Nat.eqb r' r)) running))
        as (I1 & I2 & I3).
      { rewrite List.filter_In. tauto. }
      cbv zeta in *. rewrite I1, I2, length_insert.
      rewrite list_lookup_total_insert_ne by exact Hne. auto.
    + destruct (IH Hl' (<[r := job]> jobs) running Hr) as (I1 & I2 & I3).
      cbv zeta in *. rewrite I1, I2, length_insert.
      rewrite list_lookup_total_insert_ne by exact Hne. auto.
Qed.

Lemma runExisting_keeps (h : num) (r0 : ref) (jobs : list (Job num))
    (running : list ref) :
  ~ In r0 running ->
  fst (runExisting h jobs running) !!! r0 = jobs !!! r0
  /\ length (fst (runExisting h jobs running)) = length jobs
  /\ ~ In r0 (snd (runExisting h jobs running)).
Proof.
  intros Hr. unfold runExisting.
  exact (runExisting_frame h r0 running Hr jobs running Hr).
Qed.

Lemma addNew_frame (jobs : list (Job num)) (r0 : ref) (newJobs : list ref) :
  ~ In r0 newJobs ->
  forall running, ~ In r0 running -> ~ In r0 (addNew jobs newJobs running).
Proof.
  unfold addNew.
  induction newJobs as [|j l IH]; intros Hn running Hr; cbn [fold_left].
  - exact Hr.
  - apply IH; [intros Hx; apply Hn; right; exact Hx|].
    destruct (negb (existsb (Nat.eqb j) running)
              && negb (Status_eqb (status (jobs !!! j)) DONE)); [|exact Hr].
    rewrite in_app_iff. simpl. intros [Hx | [-> | []]]; [exact (Hr Hx)|].
    apply Hn. left. reflexivity.
Qed.

(** Part F asks every job in turn and keeps the array in place. *)
Lemma checkDeadlines_map (h : num) (jobs : list (Job num)) (sla : num) :
  fst (checkDeadlines h jobs sla)
  = map (fun j => fst (deadlineMissed j h)) jobs.
Proof.
  unfold checkDeadlines.
  assert (G : forall l done sla0,
             fst (fold_left
                    (fun (st : list (Job num) * num) j =>
                       let '(done, sla) := st in
                       let '(j', missed) := deadlineMissed j h in
                       (done ++ [j'], if missed then sla + lit 1 else sla))
                    l (done, sla0))
             = done ++ map (fun j => fst (deadlineMissed j h)) l).
  { induction l as [|j l IH]; intros done sla0; cbn [fold_left map].
    - rewrite app_nil_r. reflexivity.
    - destruct (deadlineMissed j h) as [j' b] eqn:E. rewrite IH.
      rewrite <- app_assoc. simpl. reflexivity. }
  apply (G jobs [] sla).
Qed.

Lemma deadlineMissed_fields (j : Job num) (h : num) :
  status (fst (deadlineMissed j h)) = status j
  /\ priority (fst (deadlineMissed j h)) = priority j
  /\ flexible (fst (deadlineMissed j h)) = flexible j
  /\ startHour (fst (deadlineMissed j h)) = startHour j.
Proof.
  unfold deadlineMissed. destruct (deadline j) as [d|]; simpl; auto.
  destruct ((h >? d) && negb (Status_eqb (status j) DONE)
            && negb (penalized j)); simpl; auto.
Qed.

Lemma smart_schedule_length (jobs : list (Job num)) (sv t h : num) :
  length (snd (SmartScheduler.schedule jobs sv t h)) = length jobs.
Proof.
  unfold SmartScheduler.schedule, SmartScheduler.schedule_loop.
  assert (G : forall l run tot js,
             length (snd (fold_left (SmartScheduler.consider sv t h) l
                            (run, tot, js))) = length js).
  { induction l as [|c l IH]; intros run tot js; cbn [fold_left]; [reflexivity|].
    destruct (consider_cases sv t h run tot js c) as [-> | (-> & _)].
    - apply IH.
    - rewrite IH. apply length_insert. }
  specialize (G (SmartScheduler.prioritizeJobs jobs (waitingJobs jobs) h sv)
                [] (lit 0) jobs).
  destruct (fold_left _ _ _) as [[run tot] jobs']. exact G.
Qed.

(** One iteration of the loop with the Smart Scheduler and less than 1 kW
    of solar power keeps such a job waiting. *)
Lemma simStep_waits (files : Files num) (config : SimulationConfig num)
    (r : ref) (s : SimState num) :
  (solarAvailableAt files config (currentHour s) <? lit 1.0) = true ->
  waits r s -> waits r (simStep files config true s).
Proof.
  intros Hs (Hlt & Hm & Hf & Hw & Hh & Hr). unfold simStep.
  pose proof (runExisting_keeps (currentHour s) r (jobs s) (currentlyRunning s)
                Hr) as (B1 & B2 & B3).
  destruct (runExisting (currentHour s) (jobs s) (currentlyRunning s))
    as [jobs1 running1]. simpl in B1, B2, B3.
  unfold scheduler_schedule.
  set (sv := solarAvailableAt files config (currentHour s)) in *.
  pose proof (schedule_skips_medium jobs1 sv (currentTemp s) (currentHour s) r Hs)
    as C0.
  rewrite B1 in C0. specialize (C0 Hm Hf). destruct C0 as [C1 C2].
  pose proof (smart_schedule_length jobs1 sv (currentTemp s) (currentHour s)) as C3.
  destruct (SmartScheduler.schedule jobs1 sv (currentTemp s) (currentHour s))
    as [newJobs jobs2]. simpl in C1, C2, C3.
  pose proof (checkDeadlines_map (currentHour s) jobs2 (slaViolations s)) as F1.
  destruct (checkDeadlines (currentHour s) jobs2 (slaViolations s))
    as [jobs3 sla]. simpl in F1. subst jobs3.
  unfold waits. cbn [jobs currentlyRunning].
  assert (Hlt2 : (r < length jobs2)%nat) by lia.
  rewrite length_map.
  rewrite (list_lookup_total_fmap _ jobs2 r Hlt2).
  destruct (deadlineMissed_fields (jobs2 !!! r) (currentHour s))
    as (D1 & D2 & D3 & D4).
  rewrite D1, D2, D3, D4, C2.
  repeat split; auto.
  apply addNew_frame; assumption.
Qed.

Lemma setupJobs_map (useSmart : bool) (apps : list (Appliance num)) :
  setupJobs useSmart apps = map jobOfAppliance apps.
Proof.
  unfold setupJobs.
  assert (G : forall l acc,
             fold_left (fun jobs app =>
                          scheduler_addJob useSmart jobs (jobOfAppliance app))
               l acc = acc ++ map jobOfAppliance l).
  { induction l as [|a l IH]; intros acc; cbn [fold_left map].
    - rewrite app_nil_r. reflexivity.
    - rewrite IH. destruct useSmart; simpl;
        unfold SmartScheduler.addJob, BaselineScheduler.addJob;
        rewrite <- app_assoc; reflexivity. }
  apply (G apps []).
Qed.

Lemma initialState_waits (apps : list (Appliance num)) (r : ref)
    (app : Appliance num) :
  apps !! r = Some app ->
  normalizePriority (app_priority app) = medium ->
  app_flexible app <> Some false ->
  waits r (initialState true apps).
Proof.
  intros Ha Hp Hf. unfold waits, initialState. cbn [jobs currentlyRunning].
  rewrite setupJobs_map.
  assert (Hlt : (r < length apps)%nat) by (eapply lookup_lt_Some; exact Ha).
  rewrite length_map.
  rewrite (list_lookup_total_correct (map jobOfAppliance apps) r
             (jobOfAppliance app))
    by (change (map jobOfAppliance apps) with (jobOfAppliance <$> apps);
        rewrite list_lookup_fmap, Ha; reflexivity).
  unfold jobOfAppliance, new_Job; simpl.
  repeat split; auto.
  destruct (app_flexible app) as [[|]|]; congruence.
Qed.

Lemma simLoop_more_fuel (files : Files num) (config : SimulationConfig num)
    (useSmart : bool) (fuel extra : nat) :
  forall s s',
    simLoop fuel files config useSmart s = Some s' ->
    simLoop (fuel + extra) files config useSmart s = Some s'.
Proof.
  induction fuel as [|fuel IH]; intros s s'.
  - destruct extra; simpl; destruct (currentHour s <? SIMULATION_END_HOUR);
      congruence.
  - simpl. destruct (currentHour s <? SIMULATION_END_HOUR); [apply IH | auto].
Qed.

Lemma iter_waits (files : Files num) (config : SimulationConfig num)
    (r : ref) (s : SimState num) (n : nat) :
  (forall k, (k < n)%nat ->
     (solarAvailableAt files config
        (currentHour (Nat.iter k (simStep files config true) s))
      <? lit 1.0) = true) ->
  waits r s -> waits r (Nat.iter n (simStep files config true) s).
Proof.
  induction n as [|n IH]; intros Hs Hw; simpl; [exact Hw|].
  apply simStep_waits.
  - apply Hs. lia.
  - apply IH; [|exact Hw]. intros k Hk. apply Hs. lia.
Qed.

Lemma wrapUp_timeline_waits (r : ref) (s : SimState num) :
  waits r s ->
  exists ev, timeline (wrapUp s) !! r = Some ev
             /\ ev_status ev = WAITING /\ ev_start ev = None.
Proof.
  intros (Hlt & _ & _ & Hw & Hh & _).
  exists (mkEvent (name (jobs s !!! r)) (startHour (jobs s !!! r))
            (duration (jobs s !!! r) / lit 60) (priority (jobs s !!! r))
            (status (jobs s !!! r))).
  simpl. split; [|auto].
  change (map ?f (jobs s)) with (f <$> jobs s).
  rewrite list_lookup_fmap.
  rewrite (list_lookup_lookup_total_lt (jobs s) r Hlt). reflexivity.
Qed.

(** C2, as the code has it.  Every job the entry point builds from an
    appliance has the deadline 18, whatever the specification says; its
    duration in minutes is 60 times the duration of the specification when
    that is given and truthy (not 0, not NaN), and 120 otherwise; and all of
    it remains to be run. *)
Theorem built_job_deadline_duration (useSmart : bool)
    (apps : list (Appliance num)) (r : ref) (app : Appliance num) :
  apps !! r = Some app ->
  exists j,
    jobs (initialState useSmart apps) !! r = Some j
    /\ deadline j = Some (lit 18)
    /\ (forall d, app_duration app = Some d -> truthy d = true ->
          duration j = d * lit 60)
    /\ (forall d, app_duration app = Some d -> truthy d = false ->
          duration j = lit 120)
    /\ (app_duration app = None -> duration j = lit 120)
    /\ remaining j = duration j.
Proof.
  intros Ha. exists (jobOfAppliance app). split.
  - unfold initialState. cbn [jobs]. rewrite setupJobs_map.
    change (map jobOfAppliance apps) with (jobOfAppliance <$> apps).
    rewrite list_lookup_fmap, Ha. reflexivity.
  - unfold jobOfAppliance, new_Job. simpl.
    repeat split.
    + intros d -> ->. reflexivity.
    + intros d -> ->. reflexivity.
    + intros ->. reflexivity.
Qed.

End SimulationFacts.

(* ================================================================== *)
(** * Termination of the simulation loop *)
(* ================================================================== *)

Section LoopFacts.
Context {num : Type} `{Number num} `{MathLib num}.
Local Open Scope num_scope.

(** The clock of the loop advances by [dtHours], whatever else happens. *)
Lemma simStep_currentHour (files : Files num) (config : SimulationConfig num)
    (useSmart : bool) (s : SimState num) :
  currentHour (simStep files config useSmart s) = currentHour s + dtHours.
Proof.
  unfold simStep.
  destruct (runExisting (currentHour s) (jobs s) (currentlyRunning s))
    as [jobs1 running1].
  destruct (scheduler_schedule useSmart jobs1 _ _ _) as [newJobs jobs2].
  destruct (checkDeadlines (currentHour s) jobs2 (slaViolations s))
    as [jobs3 sla].
  reflexivity.
Qed.

(** Every iteration logs its hour. *)
Lemma simStep_log_time (files : Files num) (config : SimulationConfig num)
    (useSmart : bool) (s : SimState num) :
  log_time (logs (simStep files config useSmart s))
  = log_time (logs s) ++ [currentHour s].
Proof.
  unfold simStep.
  destruct (runExisting (currentHour s) (jobs s) (currentlyRunning s))
    as [jobs1 running1].
  destruct (scheduler_schedule useSmart jobs1 _ _ _) as [newJobs jobs2].
  destruct (checkDeadlines (currentHour s) jobs2 (slaViolations s))
    as [jobs3 sla].
  reflexivity.
Qed.

Lemma iter_log_time (files : Files num) (config : SimulationConfig num)
    (useSmart : bool) (s : SimState num) (k : nat) :
  length (log_time (logs (Nat.iter k (simStep files config useSmart) s)))
  = (length (log_time (logs s)) + k)%nat.
Proof.
  induction k as [|k IH]; [cbn [Nat.iter nat_rect]; lia|].
  rewrite Nat.iter_succ, simStep_log_time, length_app, IH. cbn [length]. lia.
Qed.

Lemma iter_currentHour (files : Files num) (config : SimulationConfig num)
    (useSmart : bool) (s : SimState num) (k : nat) :
  currentHour (Nat.iter k (simStep files config useSmart) s)
  = Nat.iter k (fun h => h + dtHours) (currentHour s).
Proof.
  induction k as [|k IH]; simpl; [reflexivity|].
  rewrite simStep_currentHour, IH. reflexivity.
Qed.

(** The loop runs as long as the clock is before the end hour. *)
Lemma simLoop_exact (files : Files num) (config : SimulationConfig num)
    (useSmart : bool) (fuel : nat) :
  forall s,
    (forall k, (k < fuel)%nat ->
       (currentHour (Nat.iter k (simStep files config useSmart) s)
        <? SIMULATION_END_HOUR) = true) ->
    (currentHour (Nat.iter fuel (simStep files config useSmart) s)
     <? SIMULATION_END_HOUR) = false ->
    simLoop fuel files config useSmart s
    = Some (Nat.iter fuel (simStep files config useSmart) s).
Proof.
  induction fuel as [|fuel IH]; intros s Hlt Hend.
  - cbn [simLoop Nat.iter nat_rect] in *. rewrite Hend. reflexivity.
  - cbn [simLoop].
    pose proof (Hlt 0%nat (Nat.lt_0_succ fuel)) as Hfirst.
    cbn [Nat.iter nat_rect] in Hfirst. rewrite Hfirst.
    replace (Nat.iter (S fuel) (simStep files config useSmart) s)
      with (Nat.iter fuel (simStep files config useSmart)
              (simStep files config useSmart s))
      by (rewrite Nat.iter_swap; reflexivity).
    apply IH.
    + intros k Hk. rewrite Nat.iter_swap. apply (Hlt (S k)). lia.
    + rewrite Nat.iter_swap. exact Hend.
Qed.

End LoopFacts.

Lemma below_forallb (f : nat -> bool) (n : nat) :
  forallb f (seq 0 n) = true -> forall k, (k < n)%nat -> f k = true.
Proof.
  intros Hall k Hk. rewrite forallb_forall in Hall. apply Hall.
  apply in_seq. lia.
Qed.

Section LoopFloat.

(** In binary64 the clock reaches hour 24 after 144 steps of a sixth of an
    hour, and not before. *)
Lemma clock_144 :
  forallb
    (fun k =>
       nltb (Nat.iter k (fun h : float => nadd h dtHours) SIMULATION_START_HOUR)
         SIMULATION_END_HOUR)
    (seq 0 144) = true
  /\ nltb (Nat.iter 144 (fun h : float => nadd h dtHours) SIMULATION_START_HOUR)
       SIMULATION_END_HOUR = false.
Proof. vm_compute. split; reflexivity. Qed.

Lemma simLoop_144 (M : MathLib float) (files : Files float)
    (config : SimulationConfig float) (useSmart : bool)
    (apps : list (Appliance float)) (extra : nat) :
  simLoop (144 + extra) files config useSmart (initialState useSmart apps)
  = Some (Nat.iter 144 (simStep files config useSmart)
            (initialState useSmart apps)).
Proof.
  apply simLoop_more_fuel. apply simLoop_exact.
  - intros k Hk. rewrite iter_currentHour.
    apply (below_forallb _ 144 (proj1 clock_144) k Hk).
  - rewrite iter_currentHour. exact (proj2 clock_144).
Qed.

(** In binary64 the loop of [runSmartSimulation] ends after exactly 144
    iterations, whatever the appliances, the data, the configuration, the
    scheduler and the [Math] functions are, and the function returns the
    metrics of the state reached then. *)
Theorem simulation_terminates (M : MathLib float) (files : Files float)
    (config : SimulationConfig float) (useSmart : bool)
    (apps : list (Appliance float)) (extra : nat) :
  runSmartSimulation (144 + extra) apps files config useSmart
  = Some (wrapUp (Nat.iter 144 (simStep files config useSmart)
                    (initialState useSmart apps)))
  /\ length (log_time (metrics_logs
               (wrapUp (Nat.iter 144 (simStep files config useSmart)
                          (initialState useSmart apps))))) = 144%nat.
Proof.
  split.
  - unfold runSmartSimulation. rewrite simLoop_144. reflexivity.
  - unfold wrapUp. cbn [metrics_logs]. rewrite iter_log_time. reflexivity.
Qed.

End LoopFloat.

(* ================================================================== *)
(** * Flexible medium jobs without solar power *)
(* ================================================================== *)

(** C7. A call of [SmartScheduler.schedule] with less than 1 kW of solar
    power neither returns nor starts a flexible medium job.  Hence, in a run
    of the simulation with the Smart Scheduler, a flexible medium job is
    still waiting, never started and outside the set of running jobs after
    any number of steps at each of which less than 1 kW of solar power was
    available.  In binary64 the run of 144 steps returns, and such a job is
    in its timeline as waiting and without start. *)
Theorem medium_flexible_never_admitted :
  (forall (num : Type) (N : Number num) (jobs : list (Job num))
          (sv t h : num) (r : ref),
      (sv <? lit 1.0)%num = true ->
      priority (jobs !!! r) = medium -> flexible (jobs !!! r) = true ->
      ~ In r (fst (SmartScheduler.schedule jobs sv t h))
      /\ snd (SmartScheduler.schedule jobs sv t h) !!! r = jobs !!! r)
  /\ (forall (num : Type) (N : Number num) (M : MathLib num)
             (apps : list (Appliance num)) (files : Files num)
             (config : SimulationConfig num) (r : ref) (app : Appliance num)
             (n : nat),
        apps !! r = Some app ->
        normalizePriority (app_priority app) = medium ->
        app_flexible app <> Some false ->
        (forall k, (k < n)%nat ->
           (solarAvailableAt files config
              (currentHour (Nat.iter k (simStep files config true)
                              (initialState true apps)))
            <? lit 1.0)%num = true) ->
        let s := Nat.iter n (simStep files config true)
                   (initialState true apps) in
        status (jobs s !!! r) = WAITING
        /\ startHour (jobs s !!! r) = None
        /\ ~ In r (currentlyRunning s))
  /\ (forall (M : MathLib float) (apps : list (Appliance float))
             (files : Files float) (config : SimulationConfig float)
             (r : ref) (app : Appliance float) (extra : nat),
        apps !! r = Some app ->
        normalizePriority (app_priority app) = medium ->
        app_flexible app <> Some false ->
        (forall k, (k < 144)%nat ->
           (solarAvailableAt files config
              (currentHour (Nat.iter k (simStep files config true)
                              (initialState true apps)))
            <? lit 1.0)%num = true) ->
        exists m ev,
          runSmartSimulation (144 + extra) apps files config true = Some m
          /\ timeline m !! r = Some ev
          /\ ev_status ev = WAITING /\ ev_start ev = None).
Proof.
  split; [|split].
  - intros num N jobs sv t h r. apply schedule_skips_medium.
  - intros num N M apps files config r app n Ha Hp Hf Hs s.
    pose proof (iter_waits files config r (initialState true apps) n Hs
                  (initialState_waits apps r app Ha Hp Hf)) as Hw.
    destruct Hw as (_ & _ & _ & Hw & Hh & Hr). auto.
  - intros M apps files config r app extra Ha Hp Hf Hs.
    pose proof (iter_waits files config r (initialState true apps) 144 Hs
                  (initialState_waits apps r app Ha Hp Hf)) as Hw.
    destruct (wrapUp_timeline_waits r _ Hw) as (ev & E1 & E2 & E3).
    exists (wrapUp (Nat.iter 144 (simStep files config true)
                      (initialState true apps))), ev.
    split; [|auto].
    unfold runSmartSimulation. rewrite simLoop_144. reflexivity.
Qed.

(* ================================================================== *)
(** * Properties of the sort *)
(* ================================================================== *)

Section SortFacts.
Context {num : Type} `{Number num} {A : Type}.
Variable cmp : A -> A -> num.

Lemma sort_insert_perm (x : A) (l : list A) :
  Permutation (sort_insert cmp x l) (x :: l).
Proof.
  induction l as [|y l IH]; simpl; [reflexivity|].
  destruct (nltb (lit 0) (cmp x y)); [|reflexivity].
  rewrite IH. apply perm_swap.
Qed.

Lemma Array_sort_perm (l : list A) : Permutation (Array_sort cmp l) l.
Proof.
  induction l as [|x l IH]; simpl; [reflexivity|].
  rewrite sort_insert_perm, IH. reflexivity.
Qed.

End SortFacts.

(** ** Consistent comparators *)

Section ConsistentComparator.
Context {num : Type} `{Number num} {A : Type}.
Variable cmp : A -> A -> num.
Local Open Scope num_scope.

Lemma consistent_comparator_at (l : list A) (a b c : A) :
  consistent_comparator cmp l = true -> In a l -> In b l -> In c l ->
  consistent_at cmp a b c = true.
Proof.
  unfold consistent_comparator. rewrite forallb_forall. intros Hl Ha Hb Hc.
  specialize (Hl a Ha). rewrite forallb_forall in Hl.
  specialize (Hl b Hb). rewrite forallb_forall in Hl.
  exact (Hl c Hc).
Qed.

Lemma consistent_comparator_cons (x : A) (l : list A) :
  consistent_comparator cmp (x :: l) = true -> consistent_comparator cmp l = true.
Proof.
  intros Hc. unfold consistent_comparator.
  rewrite forallb_forall. intros a Ha. rewrite forallb_forall. intros b Hb.
  rewrite forallb_forall. intros c Hc'.
  apply (consistent_comparator_at (x :: l)); simpl; auto.
Qed.

(** The consequences of consistency used below, for the values of a set
    [V]. *)
Section Consequences.
Variable V : A -> Prop.
Hypothesis consistent : forall a b c, V a -> V b -> V c ->
  consistent_at cmp a b c = true.

Lemma cmp_gt_lt (a b : A) :
  V a -> V b -> cmp_gt cmp a b = true -> cmp_lt cmp b a = true.
Proof using consistent.
  intros Ha Hb Hgt.
  pose proof (consistent a b a Ha Hb Ha) as H1.
  pose proof (consistent b a b Hb Ha Hb) as H2.
  unfold consistent_at, cmp_eq in H1, H2. rewrite Hgt in *.
  destruct (cmp a b === cmp a b), (cmp b a === cmp b a); try discriminate.
  destruct (cmp_lt cmp a b), (cmp_lt cmp b a), (cmp_gt cmp b a),
    (cmp_lt cmp a a), (cmp_gt cmp a a), (cmp_lt cmp b b), (cmp_gt cmp b b);
    simpl in *; try discriminate; reflexivity.
Qed.

Lemma cmp_lt_gt (a b : A) :
  V a -> V b -> cmp_lt cmp a b = true -> cmp_gt cmp b a = true.
Proof using consistent.
  intros Ha Hb Hlt.
  pose proof (consistent a b a Ha Hb Ha) as H1.
  pose proof (consistent b a b Hb Ha Hb) as H2.
  unfold consistent_at, cmp_eq in H1, H2. rewrite Hlt in *.
  destruct (cmp a b === cmp a b), (cmp b a === cmp b a); try discriminate.
  destruct (cmp_gt cmp a b), (cmp_lt cmp b a), (cmp_gt cmp b a),
    (cmp_lt cmp a a), (cmp_gt cmp a a), (cmp_lt cmp b b), (cmp_gt cmp b b);
    simpl in *; try discriminate; reflexivity.
Qed.

Lemma cmp_lt_irrefl (a : A) : V a -> cmp_lt cmp a a = false.
Proof using consistent.
  intros Ha. pose proof (consistent a a a Ha Ha Ha) as H1.
  unfold consistent_at, cmp_eq in H1.
  destruct (cmp_lt cmp a a); [|reflexivity].
  destruct (cmp a a === cmp a a), (cmp_gt cmp a a); simpl in *; discriminate.
Qed.

(** "Not after" is transitive. *)
Lemma cmp_not_gt_trans (a b c : A) :
  V a -> V b -> V c ->
  cmp_gt cmp a b = false -> cmp_gt cmp b c = false -> cmp_gt cmp a c = false.
Proof using consistent.
  intros Ha Hb Hc Hab Hbc.
  destruct (cmp_gt cmp a c) eqn:Hac; [exfalso|reflexivity].
  pose proof (cmp_gt_lt a c Ha Hc Hac) as Hca.
  pose proof (consistent a b c Ha Hb Hc) as H1.
  pose proof (consistent b c a Hb Hc Ha) as H2.
  pose proof (consistent c a b Hc Ha Hb) as H3.
  pose proof (consistent a c a Ha Hc Ha) as H4.
  assert (Hba : cmp_lt cmp a b = true -> cmp_gt cmp b a = true)
    by (apply cmp_lt_gt; assumption).
  assert (Hcb : cmp_lt cmp b c = true -> cmp_gt cmp c b = true)
    by (apply cmp_lt_gt; assumption).
  assert (Hba' : cmp_gt cmp b a = true -> cmp_lt cmp a b = true)
    by (apply cmp_gt_lt; assumption).
  assert (Hcb' : cmp_gt cmp c b = true -> cmp_lt cmp b c = true)
    by (apply cmp_gt_lt; assumption).
  assert (Hab' : cmp_lt cmp b a = true -> cmp_gt cmp a b = true)
    by (apply cmp_lt_gt; assumption).
  assert (Hbc' : cmp_lt cmp c b = true -> cmp_gt cmp b c = true)
    by (apply cmp_lt_gt; assumption).
  unfold consistent_at, cmp_eq in H1, H2, H3, H4.
  rewrite ?Hab, ?Hbc, ?Hac, ?Hca in *.
  repeat match goal with
  | H : context [?x === ?y] |- _ => destruct (x === y); try discriminate
  end.
  destruct (cmp_lt cmp a b), (cmp_lt cmp b c), (cmp_lt cmp b a),
    (cmp_gt cmp b a), (cmp_lt cmp c b), (cmp_gt cmp c b), (cmp_gt cmp c a),
    (cmp_lt cmp a c);
    simpl in *; try discriminate;
    try (specialize (Hba eq_refl)); try (specialize (Hcb eq_refl));
    try (specialize (Hba' eq_refl)); try (specialize (Hcb' eq_refl));
    try (specialize (Hab' eq_refl)); try (specialize (Hbc' eq_refl));
    try discriminate;
    destruct (cmp_lt cmp a a), (cmp_gt cmp a a), (cmp_lt cmp b b),
      (cmp_gt cmp b b), (cmp_lt cmp c c), (cmp_gt cmp c c);
    simpl in *; discriminate.
Qed.

End Consequences.
End ConsistentComparator.

(** ** The sort by a consistent comparator *)

Section ConsistentSort.
Context {num : Type} `{Number num} {A : Type}.
Variable cmp : A -> A -> num.
Local Open Scope num_scope.

Lemma occurs_before_cons (x : A) (l : list A) (a b : A) :
  occurs_before l a b -> occurs_before (x :: l) a b.
Proof.
  intros (i & j & Hij & Hi & Hj). exists (S i), (S j).
  split; [lia|]. split; assumption.
Qed.

Lemma occurs_before_head (x : A) (l : list A) (b : A) :
  In b l -> occurs_before (x :: l) x b.
Proof.
  intros Hb. apply list_elem_of_In, list_elem_of_lookup in Hb as [j Hj].
  exists 0%nat, (S j). split; [lia|]. split; [reflexivity | exact Hj].
Qed.

Lemma occurs_before_asym (l : list A) (a b : A) :
  NoDup l -> occurs_before l a b -> occurs_before l b a -> False.
Proof.
  intros Hl (i & j & Hij & Hi & Hj) (i' & j' & Hij' & Hi' & Hj').
  pose proof (NoDup_lookup l i j' a Hl Hi Hj').
  pose proof (NoDup_lookup l j i' b Hl Hj Hi'). lia.
Qed.

Lemma sort_order_cons (x : A) (l : list A) (a b : A) :
  sort_order cmp l a b -> sort_order cmp (x :: l) a b.
Proof.
  intros [H1 H2]. split; [exact H1|].
  intros Hab. apply occurs_before_cons, H2, Hab.
Qed.

Lemma sort_order_asym (l : list A) (a b : A) :
  NoDup l -> sort_order cmp l a b -> sort_order cmp l b a -> False.
Proof.
  intros Hl [H1 H2] [H3 H4].
  apply (occurs_before_asym l a b Hl); auto.
Qed.

Lemma StronglySorted_weaken (rel1 rel2 : A -> A -> Prop) (l : list A) :
  (forall a b, rel1 a b -> rel2 a b) ->
  StronglySorted rel1 l -> StronglySorted rel2 l.
Proof.
  intros HR. induction 1 as [|a l Hs IH Ha]; constructor; [exact IH|].
  eapply List.Forall_impl; [|exact Ha]. intros b. apply HR.
Qed.

(** Two arrays in the same strict order that hold the same elements are
    the same array. *)
Lemma StronglySorted_unique_asym (rel : A -> A -> Prop) :
  (forall a b, rel a b -> rel b a -> False) ->
  forall l1 l2 : list A,
    StronglySorted rel l1 -> StronglySorted rel l2 -> Permutation l1 l2 ->
    l1 = l2.
Proof.
  intros Hasym. induction l1 as [|a t1 IH]; intros l2 H1 H2 Hp.
  - apply Permutation_nil in Hp. congruence.
  - destruct l2 as [|b t2];
      [apply Permutation_sym, Permutation_nil in Hp; discriminate|].
    inversion H1 as [|? ? Hs1 Ha]; subst.
    inversion H2 as [|? ? Hs2 Hb]; subst.
    assert (Hab : a = b).
    { assert (Hin : In a (b :: t2))
        by (eapply Permutation_in; [exact Hp | left; reflexivity]).
      destruct Hin as [Hin|Hin]; [congruence|].
      assert (Hin' : In b (a :: t1))
        by (eapply Permutation_in;
            [apply Permutation_sym; exact Hp | left; reflexivity]).
      destruct Hin' as [Hin'|Hin']; [congruence|].
      rewrite List.Forall_forall in Ha, Hb.
      destruct (Hasym a b (Ha b Hin') (Hb a Hin)). }
    subst b. f_equal. apply IH; [assumption | assumption |].
    eapply Permutation_cons_inv. exact Hp.
Qed.

Lemma sort_insert_sorted (x : A) (l : list A) :
  consistent_comparator cmp (x :: l) = true ->
  forall s : list A,
    (forall y, In y s -> In y l) ->
    StronglySorted (sort_order cmp l) s ->
    StronglySorted (sort_order cmp (x :: l)) (sort_insert cmp x s).
Proof.
  intros Hc.
  pose proof (fun a b c => consistent_comparator_at cmp (x :: l) a b c Hc)
    as Hcons.
  induction s as [|y s IH]; intros Hin Hs; cbn [sort_insert].
  - constructor; constructor.
  - inversion Hs as [|? ? Hs' Hy]; subst.
    assert (Hyl : In y (x :: l)) by (right; apply Hin; left; reflexivity).
    assert (Hxl : In x (x :: l)) by (left; reflexivity).
    change (nltb (lit 0) (cmp x y)) with (cmp_gt cmp x y).
    destruct (cmp_gt cmp x y) eqn:E.
    + constructor.
      * apply IH; [|exact Hs']. intros z Hz. apply Hin. right. exact Hz.
      * apply (Permutation_Forall (Permutation_sym (sort_insert_perm cmp x s))).
        constructor.
        -- pose proof (cmp_gt_lt cmp _ Hcons x y Hxl Hyl E) as Hyx.
           split.
           ++ destruct (cmp_lt cmp x y) eqn:Exy; [|reflexivity].
              pose proof (Hcons x y x Hxl Hyl Hxl) as H1.
              unfold consistent_at in H1. rewrite Exy, E in H1.
              destruct (cmp x y === cmp x y); discriminate.
           ++ intros Hn. rewrite Hyx in Hn. discriminate.
        -- eapply List.Forall_impl; [|exact Hy].
           intros z. apply sort_order_cons.
    + constructor.
      * eapply StronglySorted_weaken; [|exact Hs].
        intros a b. apply sort_order_cons.
      * rewrite List.Forall_forall. intros z Hz.
        assert (Hzl : In z (x :: l)) by (right; apply Hin; exact Hz).
        assert (Hxz : cmp_gt cmp x z = false).
        { destruct Hz as [<-|Hz]; [exact E|].
          apply (cmp_not_gt_trans cmp _ Hcons x y z Hxl Hyl Hzl E).
          rewrite List.Forall_forall in Hy. destruct (Hy z Hz) as [Hzy _].
          destruct (cmp_gt cmp y z) eqn:Eyz; [|reflexivity].
          rewrite (cmp_gt_lt cmp _ Hcons y z Hyl Hzl Eyz) in Hzy.
          discriminate. }
        split.
        -- destruct (cmp_lt cmp z x) eqn:Ezx; [|reflexivity].
           rewrite (cmp_lt_gt cmp _ Hcons z x Hzl Hxl Ezx) in Hxz.
           discriminate.
        -- intros _. apply occurs_before_head. apply Hin. exact Hz.
Qed.

(** With a consistent comparator the sorted array is in the order
    ECMAScript asks for. *)
Lemma Array_sort_sorted_by (l : list A) :
  consistent_comparator cmp l = true -> sorted_by cmp l (Array_sort cmp l).
Proof.
  intros Hc. split; [apply Array_sort_perm|].
  induction l as [|x l IH]; [constructor|].
  change (Array_sort cmp (x :: l)) with (sort_insert cmp x (Array_sort cmp l)).
  apply sort_insert_sorted; [exact Hc | |].
  - intros y Hy. eapply Permutation_in; [apply Array_sort_perm | exact Hy].
  - apply IH. eapply consistent_comparator_cons. exact Hc.
Qed.

(** The order asked for leaves no choice: every array that meets it is the
    same. *)
Lemma sorted_by_unique (l out1 out2 : list A) :
  NoDup l -> sorted_by cmp l out1 -> sorted_by cmp l out2 -> out1 = out2.
Proof.
  intros Hl [P1 S1] [P2 S2].
  apply (StronglySorted_unique_asym (sort_order cmp l)); [|exact S1|exact S2|].
  - intros a b. apply sort_order_asym. exact Hl.
  - rewrite P1, P2. reflexivity.
Qed.

End ConsistentSort.

(* ================================================================== *)
(** * The comparator of [prioritizeJobs] and the order asked for *)
(* ================================================================== *)

Section PrecedenceFloat.

Lemma must_precede_lt_float (h : float) (a b : Job float) :
  must_precede h a b = true ->
  cmp_lt (SmartScheduler.compareJobs h) a b = true.
Proof.
  unfold must_precede, cmp_lt, SmartScheduler.compareJobs.
  generalize (urgencyScore a h) (urgencyScore b h). intros ua ub.
  generalize (powerKw a) (powerKw b). intros pa pb.
  destruct (priority a), (priority b); cbn [class_rank Nat.ltb Nat.leb];
    try discriminate; try (intros _; vm_compute; reflexivity).
  all: change (negb (neqb (SmartScheduler.pMap _) (SmartScheduler.pMap _)))
         with false;
    cbv iota zeta; cbn [nltb nsub Number_float];
    change (@lit float Number_float 0) with 0%float;
    destruct (PrimFloat.ltb _ (Math_abs _)); apply float_sub_negative.
Qed.

End PrecedenceFloat.

Section PrecedenceReal.
Local Open Scope R_scope.

Lemma must_precede_lt_R (h : R) (a b : Job R) :
  must_precede h a b = true ->
  cmp_lt (SmartScheduler.compareJobs h) a b = true.
Proof.
  unfold must_precede, cmp_lt, SmartScheduler.compareJobs.
  generalize (urgencyScore a h) (urgencyScore b h). intros ua ub.
  generalize (powerKw a) (powerKw b). intros pa pb.
  destruct (priority a), (priority b); cbn [class_rank Nat.ltb Nat.leb];
    try discriminate; unfold SmartScheduler.pMap; num_R; intros Hc;
    unfold Reqb, Rltb, Rleb in *;
    repeat match goal with
    | |- context [Req_dec_T ?a ?b] => destruct (Req_dec_T a b)
    | |- context [Rlt_dec ?a ?b] => destruct (Rlt_dec a b)
    | H : context [Rlt_dec ?a ?b] |- _ => destruct (Rlt_dec a b)
    end; simpl in *; try discriminate; try reflexivity; try lra.
Qed.

End PrecedenceReal.

Section OrderOfCandidates.
Context {num : Type} `{Number num}.
Hypothesis must_precede_lt : forall (h : num) (a b : Job num),
  must_precede h a b = true ->
  cmp_lt (SmartScheduler.compareJobs h) a b = true.

Lemma StronglySorted_lookup_lt {A : Type} (rel : A -> A -> Prop) (l : list A) :
  StronglySorted rel l ->
  forall i j a b, (i < j)%nat -> l !! i = Some a -> l !! j = Some b -> rel a b.
Proof using Type.
  induction 1 as [|x l Hs IH Hx]; intros i j a b Hij Hi Hj;
    [rewrite lookup_nil in Hi; discriminate|].
  destruct j as [|j]; [lia|]. cbn in Hj.
  destruct i as [|i]; cbn in Hi.
  - injection Hi as <-. rewrite List.Forall_forall in Hx. apply Hx.
    apply list_elem_of_In, list_elem_of_lookup. exists j. exact Hj.
  - apply (IH i j); [lia | exact Hi | exact Hj].
Qed.

Lemma sorted_by_precedence (heap : list (Job num)) (refs out : list ref)
    (h : num) :
  consistent_comparator (compareRefs heap h) refs = true ->
  sorted_by (compareRefs heap h) refs out ->
  forall i j a b,
    out !! i = Some a -> out !! j = Some b ->
    must_precede h (heap !!! a) (heap !!! b) = true -> (i < j)%nat.
Proof using must_precede_lt.
  intros Hc [Hp Hs] i j a b Hi Hj Hm.
  apply must_precede_lt in Hm.
  change (cmp_lt (compareRefs heap h) a b = true) in Hm.
  destruct (Nat.lt_trichotomy i j) as [Hlt|[Heq|Hgt]]; [exact Hlt| |]; exfalso.
  - subst j. rewrite Hi in Hj. injection Hj as <-.
    assert (Ha : In a refs).
    { eapply Permutation_in; [exact Hp|].
      apply list_elem_of_In, list_elem_of_lookup. exists i. exact Hi. }
    rewrite (cmp_lt_irrefl (compareRefs heap h) (fun r => In r refs)) in Hm;
      [discriminate | | exact Ha].
    intros x y z. apply consistent_comparator_at. exact Hc.
  - destruct (StronglySorted_lookup_lt _ _ Hs j i b a Hgt Hj Hi) as [Hn _].
    rewrite Hm in Hn. discriminate.
Qed.

Lemma sorted_by_precedence_kept (heap : list (Job num)) (refs out : list ref)
    (h : num) :
  sorted_by (compareRefs heap h) refs out ->
  precedence_kept h (map (fun r => heap !!! r) out) = true.
Proof using must_precede_lt.
  intros [_ Hs]. induction Hs as [|a l Hs IH Ha]; simpl; [reflexivity|].
  rewrite IH, andb_true_r. rewrite forallb_forall. intros j Hj.
  apply in_map_iff in Hj as (r & <- & Hr).
  rewrite List.Forall_forall in Ha. destruct (Ha r Hr) as [Hn _].
  destruct (must_precede h (heap !!! r) (heap !!! a)) eqn:E; [|reflexivity].
  apply must_precede_lt in E.
  change (cmp_lt (compareRefs heap h) r a = true) in E.
  rewrite E in Hn. discriminate.
Qed.

Lemma prioritizeJobs_order_gen (heap : list (Job num)) (refs : list ref)
    (h sv : num) :
  NoDup refs ->
  consistent_comparator (compareRefs heap h) refs = true ->
  sorted_by (compareRefs heap h) refs
    (SmartScheduler.prioritizeJobs heap refs h sv)
  /\ (forall i j a b,
        SmartScheduler.prioritizeJobs heap refs h sv !! i = Some a ->
        SmartScheduler.prioritizeJobs heap refs h sv !! j = Some b ->
        must_precede h (heap !!! a) (heap !!! b) = true -> (i < j)%nat)
  /\ precedence_kept h (prioritized heap refs h sv) = true
  /\ (forall out, sorted_by (compareRefs heap h) refs out ->
        out = SmartScheduler.prioritizeJobs heap refs h sv).
Proof using must_precede_lt.
  intros Hnd Hc.
  assert (Hs : sorted_by (compareRefs heap h) refs
                 (SmartScheduler.prioritizeJobs heap refs h sv)).
  { apply (Array_sort_sorted_by (compareRefs heap h)). exact Hc. }
  split; [exact Hs|]. split; [|split].
  - apply (sorted_by_precedence heap refs); assumption.
  - apply (sorted_by_precedence_kept heap refs). exact Hs.
  - intros out Hout.
    apply (sorted_by_unique (compareRefs heap h) refs); assumption.
Qed.

End OrderOfCandidates.

(* ================================================================== *)
(** * Further properties of the jobs and of the Smart Scheduler *)
(* ================================================================== *)

Section LifeCycle.
Context {num : Type} `{Number num}.
Local Open Scope num_scope.

Lemma start_startHour (j : Job num) (h h0 : num) :
  startHour j = Some h0 -> startHour (start j h) = Some h0.
Proof.
  intros Hs. unfold start. destruct (status j); simpl; rewrite ?Hs; auto.
Qed.

Lemma runStep_status (j : Job num) (dt h : num) :
  (status_rank (status j) <= status_rank (status (runStep j dt h)))%nat.
Proof.
  unfold runStep. destruct (status j) eqn:Es; try (rewrite Es; lia).
  - pose proof (start_status j h) as Hs. rewrite Es in Hs.
    match goal with |- context [if ?c then _ else _] => destruct c end;
      simpl; rewrite ?Hs; simpl; lia.
  - match goal with |- context [if ?c then _ else _] => destruct c end;
      simpl; rewrite ?Es; simpl; lia.
Qed.

Lemma runStep_startHour (j : Job num) (dt h h0 : num) :
  startHour j = Some h0 -> startHour (runStep j dt h) = Some h0.
Proof.
  intros Hs. unfold runStep. destruct (status j) eqn:Es; try exact Hs;
    match goal with |- context [if ?c then _ else _] => destruct c end;
    simpl; auto using start_startHour.
Qed.

Lemma call_forward (j : Job num) (c : Call num) :
  (status_rank (status j) <= status_rank (status (fst (call j c))))%nat
  /\ (forall h0, startHour j = Some h0 ->
        startHour (fst (call j c)) = Some h0).
Proof.
  destruct c as [h | dt h | h | h]; simpl.
  - rewrite start_status. split.
    + destruct (status j); simpl; lia.
    + intros h0. apply start_startHour.
  - split; [apply runStep_status | intros h0; apply runStep_startHour].
  - destruct (deadlineMissed_fields j h) as (D1 & _ & _ & D4).
    destruct (deadlineMissed j h) as [j' b]; simpl in *.
    rewrite D1, D4. split; [lia | auto].
  - split; [lia | auto].
Qed.

(** Over any sequence of method calls the status of a job only moves
    forward, from [WAITING] through [RUNNING] to [DONE], and the hour of its
    start, once set, stays. *)
Theorem status_moves_forward (j : Job num) (cs : list (Call num)) :
  (status_rank (status j)
   <= status_rank (status (fst (lifetime j cs))))%nat
  /\ (forall h0, startHour j = Some h0 ->
        startHour (fst (lifetime j cs)) = Some h0).
Proof.
  revert j. induction cs as [|c cs IH]; intros j; simpl; [split; [lia | auto]|].
  destruct (call_forward j c) as [C1 C2].
  destruct (call j c) as [j' bs]; simpl in *.
  destruct (IH j') as [I1 I2].
  destruct (lifetime j' cs) as [j'' bs']; simpl in *.
  split; [lia | intros h0 Hh; apply I2, C2, Hh].
Qed.

End LifeCycle.

Section SmartFrame.
Context {num : Type} `{Number num}.
Local Open Scope num_scope.

(** Above the thermal threshold the loop passes over a job of low
    priority. *)
Lemma consider_fold_low (s t h : num) (r0 : ref) (cands : list ref) :
  (t >? THERMAL_THRESHOLD) = true ->
  forall run tot jobs,
    priority (jobs !!! r0) = low ->
    let res := fold_left (SmartScheduler.consider s t h) cands (run, tot, jobs) in
    (~ In r0 run -> ~ In r0 (fst (fst res)))
    /\ snd res !!! r0 = jobs !!! r0.
Proof.
  intros Ht. induction cands as [|c cands IH]; intros run tot jobs Hl;
    cbn [fold_left].
  - auto.
  - destruct (consider_cases s t h run tot jobs c) as [-> | (-> & _ & Hskip & _)].
    + apply IH; assumption.
    + assert (Hne : c <> r0).
      { intros ->. rewrite Hl, Ht in Hskip. discriminate. }
      assert (Hkeep : <[c := start (jobs !!! c) h]> jobs !!! r0 = jobs !!! r0).
      { apply list_lookup_total_insert_ne. exact Hne. }
      destruct (IH (run ++ [c]) (tot + powerKw (jobs !!! c))
                  (<[c := start (jobs !!! c) h]> jobs)) as [I1 I2].
      { rewrite Hkeep. exact Hl. }
      split.
      * intros Hnin. apply I1. rewrite in_app_iff. simpl. tauto.
      * cbv zeta in I2. rewrite I2. exact Hkeep.
Qed.

(** A call of [SmartScheduler.schedule] with the temperature above
    [THERMAL_THRESHOLD] neither returns nor starts a job of low priority. *)
Theorem low_priority_waits_when_hot (jobs : list (Job num)) (s t h : num)
    (r : ref) :
  (t >? THERMAL_THRESHOLD) = true ->
  priority (jobs !!! r) = low ->
  ~ In r (fst (SmartScheduler.schedule jobs s t h))
  /\ snd (SmartScheduler.schedule jobs s t h) !!! r = jobs !!! r.
Proof.
  intros Ht Hl.
  unfold SmartScheduler.schedule, SmartScheduler.schedule_loop.
  pose proof (consider_fold_low s t h r
                (SmartScheduler.prioritizeJobs jobs (waitingJobs jobs) h s)
                Ht [] (lit 0) jobs Hl) as [I1 I2].
  destruct (fold_left _ _ _) as [[run tot] jobs']; simpl in *.
  split; [apply I1; intros [] | exact I2].
Qed.

(** The loop of [SmartScheduler.schedule] returns candidates in the order
    it met them, starts the jobs it returns and no other. *)
Lemma consider_fold_frame (s t h : num) (jobs0 : list (Job num))
    (cands : list ref) :
  forall run tot jobs,
    (forall x, (In x run -> (x < length jobs0)%nat ->
                jobs !!! x = start (jobs0 !!! x) h)
               /\ (~ In x run -> jobs !!! x = jobs0 !!! x)) ->
    length jobs = length jobs0 ->
    let res := fold_left (SmartScheduler.consider s t h) cands (run, tot, jobs) in
    exists sub,
      fst (fst res) = run ++ sub
      /\ sub `sublist_of` cands
      /\ (forall x, (In x (fst (fst res)) -> (x < length jobs0)%nat ->
                     snd res !!! x = start (jobs0 !!! x) h)
                    /\ (~ In x (fst (fst res)) -> snd res !!! x = jobs0 !!! x))
      /\ length (snd res) = length jobs0.
Proof.
  induction cands as [|c cands IH]; intros run tot jobs Hst Hlen;
    cbn [fold_left].
  - exists []. rewrite app_nil_r. simpl.
    split; [reflexivity|]. split; [constructor|]. split; [exact Hst | exact Hlen].
  - destruct (consider_cases s t h run tot jobs c) as [-> | (-> & _)].
    + destruct (IH run tot jobs Hst Hlen) as (sub & E1 & E2 & E3 & E4).
      exists sub. cbv zeta in *.
      split; [exact E1|]. split; [apply sublist_cons; exact E2|].
      split; [exact E3 | exact E4].
    + destruct (IH (run ++ [c]) (tot + powerKw (jobs !!! c))
                  (<[c := start (jobs !!! c) h]> jobs))
        as (sub & E1 & E2 & E3 & E4).
      { intros x. destruct (Hst x) as [Hin Hnin]. split.
        - intros Hx Hlt. destruct (decide (c = x)) as [->|Hne].
          + rewrite list_lookup_total_insert_eq by lia.
            destruct (in_dec Nat.eq_dec x run) as [Hr|Hr].
            * rewrite (Hin Hr Hlt). apply start_idempotent.
            * rewrite (Hnin Hr). reflexivity.
          + rewrite list_lookup_total_insert_ne by exact Hne.
            apply Hin; [|exact Hlt].
            apply in_app_iff in Hx. simpl in Hx. intuition congruence.
        - intros Hx. rewrite in_app_iff in Hx. simpl in Hx.
          rewrite list_lookup_total_insert_ne by intuition.
          apply Hnin. tauto. }
      { rewrite length_insert. exact Hlen. }
      exists (c :: sub). cbv zeta in *. rewrite E1, <- app_assoc.
      split; [reflexivity|]. split; [apply sublist_skip; exact E2|].
      split; [|exact E4]. rewrite <- app_assoc in E1. simpl in E1.
      rewrite E1 in E3. exact E3.
Qed.

Lemma waitingJobs_NoDup (jobs : list (Job num)) : NoDup (waitingJobs jobs).
Proof.
  unfold waitingJobs. apply NoDup_ListNoDup, List.NoDup_filter, List.seq_NoDup.
Qed.

(** What a call of [SmartScheduler.schedule] returns: jobs that were
    waiting, each once; these jobs are started, so that they are [RUNNING]
    and no later call returns them; every other job is left as it was. *)
Theorem smart_schedule_starts_admitted (jobs : list (Job num)) (s t h : num) :
  let admitted := fst (SmartScheduler.schedule jobs s t h) in
  let jobs' := snd (SmartScheduler.schedule jobs s t h) in
  NoDup admitted
  /\ length jobs' = length jobs
  /\ (forall r, In r admitted ->
        In r (waitingJobs jobs)
        /\ jobs' !!! r = start (jobs !!! r) h
        /\ status (jobs' !!! r) = RUNNING
        /\ ~ In r (waitingJobs jobs'))
  /\ (forall r, ~ In r admitted -> jobs' !!! r = jobs !!! r).
Proof.
  intros admitted jobs'. subst admitted jobs'.
  unfold SmartScheduler.schedule, SmartScheduler.schedule_loop.
  set (sorted := SmartScheduler.prioritizeJobs jobs (waitingJobs jobs) h s).
  assert (Hperm : Permutation sorted (waitingJobs jobs))
    by apply Array_sort_perm.
  destruct (consider_fold_frame s t h jobs sorted [] (lit 0) jobs)
    as (sub & E1 & E2 & E3 & E4).
  { intros x. split; [intros [] | reflexivity]. }
  { reflexivity. }
  cbv zeta in *.
  destruct (fold_left _ _ _) as [[run tot] jobs']; simpl in *. subst run.
  assert (Hsub : forall r, In r sub -> In r (waitingJobs jobs)).
  { intros r Hr. apply (Permutation_in r Hperm).
    apply list_elem_of_In. eapply elem_of_sublist; [|exact E2].
    apply list_elem_of_In. exact Hr. }
  split; [|split; [exact E4|split]].
  - assert (Hnd : NoDup sorted) by (rewrite Hperm; apply waitingJobs_NoDup).
    exact (sublist_NoDup sub sorted Hnd E2).
  - intros r Hr. pose proof (Hsub r Hr) as Hw.
    pose proof Hw as Hw'. apply waitingJobs_spec in Hw'.
    destruct Hw' as [Hlt Hs]. destruct (E3 r) as [Hin _].
    assert (Hrun : status (jobs' !!! r) = RUNNING).
    { rewrite (Hin Hr Hlt), start_status, Hs. reflexivity. }
    repeat split; auto.
    intros Hw2. apply waitingJobs_spec in Hw2. destruct Hw2 as [_ Hs2].
    congruence.
  - intros r Hr. apply E3. exact Hr.
Qed.

End SmartFrame.

(* ================================================================== *)
(** * Properties of the solar model, in exact arithmetic *)
(* ================================================================== *)

Section IrradianceReal.
Local Open Scope R_scope.

Lemma calculateIrradiance_night (d h lat : R) (tilt : option R) :
  sinAlpha d h lat <= 0 -> calculateIrradiance d h lat tilt = 0.
Proof.
  intros Hs. unfold calculateIrradiance.
  apply Rleb_true in Hs.
  replace (sinAlpha d h lat <=? lit 0)%num
    with (Rleb (sinAlpha d h lat) 0).
  - rewrite Hs. num_R. lra.
  - num_R. f_equal. lra.
Qed.

Lemma calculateIrradiance_nonneg (d h lat : R) (tilt : option R) :
  0 <= calculateIrradiance d h lat tilt.
Proof.
  unfold calculateIrradiance.
  destruct (sinAlpha d h lat <=? lit 0)%num.
  - num_R. lra.
  - num_R. eapply Rle_trans; [|apply Rmax_l]. lra.
Qed.

Lemma calculateIrradiance_day (d h lat : R) (tilt : option R) :
  0 < sinAlpha d h lat -> 0 < calculateIrradiance d h lat tilt.
Proof.
  intros Hs. unfold calculateIrradiance.
  replace (sinAlpha d h lat <=? lit 0)%num with false.
  2:{ symmetry. num_R. apply Rleb_false. lra. }
  num_R.
  set (sa := sinAlpha d h lat) in *.
  set (c := cos (orElse tilt lat * D2R)).
  set (E := exp (- (168 / 1000) / sa)).
  match goal with |- context [Rmax (0 / 1) (?x * ?y + ?z * ?w)] =>
    set (m := Rmax (0 / 1) (x * y + z * w)) end.
  assert (HE : 0 < E) by apply exp_pos.
  assert (Hc : -1 <= c <= 1) by apply COS_bound.
  assert (Hm : 0 <= m).
  { unfold m. eapply Rle_trans; [|apply Rmax_l]. lra. }
  eapply Rlt_le_trans; [|apply Rmax_r].
  assert (H1 : 0 <= 1160 / 1 * E * m).
  { apply Rmult_le_pos; [|exact Hm]. lra. }
  assert (H2 : 0 <= 95 / 1000 * (1160 / 1 * E) * ((1 / 1 + c) / (2 / 1))).
  { apply Rmult_le_pos; lra. }
  assert (H3 : 0 <= 1160 / 1 * E * (sa + 95 / 1000) * (2 / 10)
                    * ((1 / 1 - c) / (2 / 1))).
  { apply Rmult_le_pos; [|lra].
    apply Rmult_le_pos; [|lra]. apply Rmult_le_pos; lra. }
  destruct (Rlt_dec (-1) c) as [Hgt|Hle].
  - assert (0 < 95 / 1000 * (1160 / 1 * E) * ((1 / 1 + c) / (2 / 1))).
    { apply Rmult_lt_0_compat; lra. }
    lra.
  - assert (Hc1 : c = -1) by lra.
    assert (0 < 1160 / 1 * E * (sa + 95 / 1000) * (2 / 10)
                * ((1 / 1 - c) / (2 / 1))).
    { rewrite Hc1. apply Rmult_lt_0_compat; [|lra].
      apply Rmult_lt_0_compat; [|lra]. apply Rmult_lt_0_compat; lra. }
    lra.
Qed.

End IrradianceReal.

Section IrradianceFloat.
Local Open Scope float_scope.

Lemma SFeqb_irrefl_nan (p : spec_float) : SFeqb p p = false -> p = S754_nan.
Proof.
  destruct p as [s | s | | s m e]; unfold SFeqb; simpl; try reflexivity.
  - discriminate.
  - destruct s; discriminate.
  - destruct s; rewrite Z.compare_refl, Pos.compare_cont_refl; simpl;
      discriminate.
Qed.

(** [Math.max(0, x)] is never below 0: it is [NaN] or at least 0. *)
Lemma float_max_0_not_negative (x : float) : (float_max 0 x <? 0) = false.
Proof.
  unfold float_max. change (is_nan 0) with false. cbv iota.
  destruct (is_nan x) eqn:En.
  - unfold is_nan in En. rewrite FloatAxioms.eqb_spec in En.
    apply negb_true_iff, SFeqb_irrefl_nan in En.
    rewrite FloatAxioms.ltb_spec, En. reflexivity.
  - destruct (0 <? x) eqn:E1.
    + rewrite !FloatAxioms.ltb_spec in *.
      change (Prim2SF 0) with (S754_zero false) in *.
      destruct (Prim2SF x) as [s | s | | s m e]; simpl in *;
        try reflexivity; try discriminate;
        destruct s; simpl in *; try discriminate; reflexivity.
    + destruct (x <? 0) eqn:E2; [reflexivity|].
      change (classify 0) with PZero. cbv iota. reflexivity.
Qed.

Lemma calculateIrradiance_not_negative (M : MathLib float)
    (d h lat : float) (tilt : option float) :
  (calculateIrradiance d h lat tilt <? lit 0)%num = false.
Proof.
  unfold calculateIrradiance.
  destruct (sinAlpha d h lat <=? lit 0)%num; [reflexivity|].
  change (@lit float Number_float 0) with 0%float.
  apply float_max_0_not_negative.
Qed.

End IrradianceFloat.

(** C9, as the code has it.  [calculateIrradiance] is exactly 0 whenever
    the sine of the solar altitude is not positive, in any arithmetic.  It
    never returns a negative value: in binary64, whatever the [Math]
    functions are, and in exact arithmetic.  In exact arithmetic it is
    positive at solar noon (hour 12) wherever the sine of the solar altitude
    is positive then, as it is at every hour at which that sine is
    positive. *)
Theorem calculateIrradiance_sign :
  (forall (num : Type) (N : Number num) (M : MathLib num) (d h lat : num)
          (tilt : option num),
      (sinAlpha d h lat <=? lit 0)%num = true ->
      calculateIrradiance d h lat tilt = lit 0.0)
  /\ (forall (M : MathLib float) (d h lat : float) (tilt : option float),
        (calculateIrradiance d h lat tilt <? lit 0)%num = false)
  /\ (forall (d h lat : R) (tilt : option R),
        ((sinAlpha d h lat <= 0)%R -> calculateIrradiance d h lat tilt = 0%R)
        /\ (0 <= calculateIrradiance d h lat tilt)%R
        /\ ((0 < sinAlpha d 12 lat)%R ->
            (0 < calculateIrradiance d 12 lat tilt)%R)
        /\ ((0 < sinAlpha d h lat)%R ->
            (0 < calculateIrradiance d h lat tilt)%R)).
Proof.
  split; [|split].
  - intros num N M d h lat tilt Hs. unfold calculateIrradiance.
    rewrite Hs. reflexivity.
  - apply calculateIrradiance_not_negative.
  - intros d h lat tilt.
    split; [apply calculateIrradiance_night|].
    split; [apply calculateIrradiance_nonneg|].
    split; apply calculateIrradiance_day.
Qed.

(** C9 fails as stated.  In binary64, on day 355 at latitude 66.55 the sun
    is above the horizon at noon, the sine of its altitude being about
    3.8e-6, and [calculateIrradiance] returns 0: the argument of [Math.exp],
    [-0.168 / sinAlpha], is below -44000, where the exponential is too small
    for a binary64 number and is rounded to 0. *)
Lemma noon_irradiance_underflows :
  let sine : float := sinAlpha (lit 355) (lit 12) (lit 66.55) in
  (lit 0 <? sine)%num = true
  /\ (- lit 0.168 / sine <? lit (-44000))%num = true
  /\ Math_exp (- lit 0.168 / sine)%num = 0%float
  /\ calculateIrradiance (lit 355) (lit 12) (lit 66.55) None = 0%float.
Proof. vm_compute. repeat split; reflexivity. Qed.

(* ================================================================== *)
(** * The claims about the schedulers, at both instances *)
(* ================================================================== *)

(** What the capacity check of [SmartScheduler.schedule] bounds: the sum of
    [powerKw] over the jobs one call admits, accumulated from 0 in the order
    of admission, in binary64 as the code computes it and in exact
    arithmetic. *)
Lemma schedule_admitted_sum_within_capacity :
  (forall (jobs : list (Job float)) (s t h : float),
      (sum_powerKw jobs (fst (SmartScheduler.schedule jobs s t h))
       <=? MAX_DATA_HUB_POWER)%num = true)
  /\ (forall (jobs : list (Job R)) (s t h : R),
      (sum_powerKw jobs (fst (SmartScheduler.schedule jobs s t h))
       <= MAX_DATA_HUB_POWER)%R).
Proof.
  split.
  - intros jobs s t h. apply schedule_within_capacity. reflexivity.
  - intros jobs s t h. apply Rleb_true.
    change ((sum_powerKw jobs (fst (SmartScheduler.schedule jobs s t h))
             <=? MAX_DATA_HUB_POWER)%num = true).
    apply schedule_within_capacity.
    unfold MAX_DATA_HUB_POWER. num_R. apply Rleb_true. lra.
Qed.

(** C1.  The check of [SmartScheduler.schedule] against the capacity of the
    hub does not count the jobs already running: its accumulator starts at 0
    in every call.  Of two waiting jobs of 8 kW the first call admits one;
    the next call admits the other while the first is running, 16 kW
    against a capacity of 10 kW.  In the run of [runSmartSimulation] on the
    appliances the dashboard starts with, with five kilowatts of solar power
    and 20 degrees at every hour, the first iteration starts the lighting,
    the air conditioner and the pump, 4 kW, and leaves out the charger of
    7 kW, which would exceed the capacity; the second iteration starts the
    charger beside them, and the load is 11 kW for five iterations. *)
Theorem running_jobs_not_counted :
  (let jobs1 :=
     snd (SmartScheduler.schedule Examples.two_heaters 5 25 0)%float in
   fst (SmartScheduler.schedule Examples.two_heaters 5 25 0)%float = [0%nat]
   /\ runningJobs jobs1 = [0%nat]
   /\ fst (SmartScheduler.schedule jobs1 5 25 0.5)%float = [1%nat]
   /\ (sum_powerKw jobs1 (fst (SmartScheduler.schedule jobs1 5 25 0.5))
       + sum_powerKw jobs1 (runningJobs jobs1))%float = 16%float
   /\ within_capacity_with_running jobs1 5%float 25%float 0.5%float = false)
  /\ (let run :=
        stateAfter Examples.mild_day Examples.no_config true
          Examples.dashboard in
      map (fun n => currentlyRunning (run n)) [1; 2]%nat
      = [[3; 0; 1]; [3; 0; 1; 2]]%nat
      /\ map (fun n => computeLoad (run n)) (seq 1 8)
         = [4; 11; 11; 11; 11; 11; 9; 9]%float
      /\ (MAX_DATA_HUB_POWER <? computeLoad (run 2%nat))%num = true).
Proof. vm_compute. repeat split; reflexivity. Qed.

(** C8, as the code has it.  For candidates without repetition on which
    the comparator of [prioritizeJobs] is consistent, in binary64 as in exact
    arithmetic: the array [prioritizeJobs] returns is a result ECMAScript
    admits for the sort, and the only one, whatever algorithm an engine
    sorts with; and in it every job that has to come before another does.
    A job of a strictly earlier class in the order critical < high < medium
    < low comes before any job of a later class; among jobs of one class the
    job of the higher urgency score comes first when the scores differ by
    more than 0.1, and the job of the smaller power otherwise. *)
Theorem prioritizeJobs_order :
  (forall (heap : list (Job float)) (refs : list ref) (h sv : float),
      NoDup refs ->
      consistent_comparator (compareRefs heap h) refs = true ->
      sorted_by (compareRefs heap h) refs
        (SmartScheduler.prioritizeJobs heap refs h sv)
      /\ (forall i j a b,
            SmartScheduler.prioritizeJobs heap refs h sv !! i = Some a ->
            SmartScheduler.prioritizeJobs heap refs h sv !! j = Some b ->
            must_precede h (heap !!! a) (heap !!! b) = true -> (i < j)%nat)
      /\ precedence_kept h (prioritized heap refs h sv) = true
      /\ (forall out, sorted_by (compareRefs heap h) refs out ->
            out = SmartScheduler.prioritizeJobs heap refs h sv))
  /\ (forall (heap : list (Job R)) (refs : list ref) (h sv : R),
      NoDup refs ->
      consistent_comparator (compareRefs heap h) refs = true ->
      sorted_by (compareRefs heap h) refs
        (SmartScheduler.prioritizeJobs heap refs h sv)
      /\ (forall i j a b,
            SmartScheduler.prioritizeJobs heap refs h sv !! i = Some a ->
            SmartScheduler.prioritizeJobs heap refs h sv !! j = Some b ->
            must_precede h (heap !!! a) (heap !!! b) = true -> (i < j)%nat)
      /\ precedence_kept h (prioritized heap refs h sv) = true
      /\ (forall out, sorted_by (compareRefs heap h) refs out ->
            out = SmartScheduler.prioritizeJobs heap refs h sv)).
Proof.
  split.
  - intros heap refs h sv.
    apply (prioritizeJobs_order_gen must_precede_lt_float).
  - intros heap refs h sv.
    apply (prioritizeJobs_order_gen must_precede_lt_R).
Qed.

(** C8 fails as stated: of three jobs of one class with urgency scores 1,
    1.08 and 1.16 and powers 1, 2 and 3, the first has to come before the
    second and the second before the third, by power, and the third before
    the first, by urgency, their scores differing by more than 0.1.  No order
    of the three is the one the claim asks for, whatever the sort does; the
    comparator is not consistent on them. *)
Lemma tolerance_not_transitive :
  must_precede 8%float (Examples.cyclic_jobs !!! 0%nat)
    (Examples.cyclic_jobs !!! 1%nat) = true
  /\ must_precede 8%float (Examples.cyclic_jobs !!! 1%nat)
       (Examples.cyclic_jobs !!! 2%nat) = true
  /\ must_precede 8%float (Examples.cyclic_jobs !!! 2%nat)
       (Examples.cyclic_jobs !!! 0%nat) = true
  /\ forallb
       (fun refs =>
          negb (precedence_kept 8%float
                  (map (fun r => Examples.cyclic_jobs !!! r) refs)))
       [[0; 1; 2]; [0; 2; 1]; [1; 0; 2]; [1; 2; 0]; [2; 0; 1]; [2; 1; 0]]%nat
     = true
  /\ consistent_comparator (compareRefs Examples.cyclic_jobs 8%float)
       (waitingJobs Examples.cyclic_jobs) = false.
Proof. vm_compute. repeat split; reflexivity. Qed.

(* ================================================================== *)
(** * The claims about the entry point *)
(* ================================================================== *)

(** C2 fails as stated: the job built from a specification with
    [deadlineHour] 6 has the deadline 18, as has the job built from a
    specification without deadline; the duration of the first is the 60
    minutes specified, and a specification without duration gives a job of
    120 minutes. *)
Lemma deadline_not_read :
  jobs (initialState true [Examples.pump; Examples.lighting; Examples.timer])
  = [jobOfAppliance Examples.pump; jobOfAppliance Examples.lighting;
     jobOfAppliance Examples.timer]
  /\ deadline (jobOfAppliance Examples.pump) = Some 18%float
  /\ deadline_as_specified Examples.pump (jobOfAppliance Examples.pump) = false
  /\ duration_as_specified Examples.pump (jobOfAppliance Examples.pump) = true
  /\ deadline (jobOfAppliance Examples.lighting) = Some 18%float
  /\ deadline_as_specified Examples.lighting
       (jobOfAppliance Examples.lighting) = false
  /\ duration (jobOfAppliance Examples.timer) = 120%float
  /\ duration_as_specified Examples.timer (jobOfAppliance Examples.timer)
     = false.
Proof. vm_compute. repeat split; reflexivity. Qed.

(** C10. [solarPct] is the quotient of the solar energy by the sum of the
    solar and the grid energy, times 100, whatever that sum is.  There are
    valid inputs on which the run accumulates no solar and no grid energy
    and returns [NaN], the quotient 0 / 0, as [solarPct]: no
    appliance and historical data of 5 kW and 20 degrees at every hour,
    whatever the [Math] functions are; and no appliance and the
    temperatures alone, the solar power computed by the model.  The loop
    ends after 144 iterations, with any greater bound as well. *)
Theorem solarPct_undefined_on_idle_run :
  (forall s : SimState float,
      energy_solarPct (energy (wrapUp s))
      = (solarEnergy s / (solarEnergy s + gridEnergy s) * 100)%float)
  /\ (forall (M : MathLib float) (extra : nat),
      exists s m,
        simLoop (144 + extra) Examples.mild_day Examples.no_config true
          (initialState true []) = Some s
        /\ runSmartSimulation (144 + extra) [] Examples.mild_day
             Examples.no_config true = Some m
        /\ solarEnergy s = 0%float /\ gridEnergy s = 0%float
        /\ energy_solar (energy m) = 0%float
        /\ energy_grid (energy m) = 0%float
        /\ energy_solarPct (energy m) = (0 / 0 * 100)%float
        /\ PrimFloat.is_nan (energy_solarPct (energy m)) = true)
  /\ (forall extra : nat,
      exists m,
        runSmartSimulation (144 + extra) [] Examples.mild_weather
          Examples.no_config true = Some m
        /\ energy_solar (energy m) = 0%float
        /\ energy_grid (energy m) = 0%float
        /\ PrimFloat.is_nan (energy_solarPct (energy m)) = true).
Proof.
  split; [intros s; reflexivity|].
  split.
  - intros M extra.
    destruct (simLoop 144 Examples.mild_day Examples.no_config true
                (initialState true [])) as [s|] eqn:E;
      [|vm_compute in E; discriminate].
    pose proof (simLoop_more_fuel _ _ _ 144 extra _ _ E) as E'.
    exists s, (wrapUp s). split; [exact E'|].
    unfold runSmartSimulation. rewrite E'. split; [reflexivity|].
    vm_compute in E. injection E as <-.
    vm_compute. repeat split; reflexivity.
  - intros extra.
    destruct (simLoop 144 Examples.mild_weather Examples.no_config true
                (initialState true [])) as [s|] eqn:E;
      [|vm_compute in E; discriminate].
    pose proof (simLoop_more_fuel _ _ _ 144 extra _ _ E) as E'.
    exists (wrapUp s).
    unfold runSmartSimulation. rewrite E'. split; [reflexivity|].
    vm_compute in E. injection E as <-.
    vm_compute. repeat split; reflexivity.
Qed.
(* ================================================================== *)
(** * One iteration of the simulation loop, part by part *)
(* ================================================================== *)

Section StepFacts.
Context {num : Type} `{Number num} `{MathLib num}.
Local Open Scope num_scope.

Lemma Status_eqb_true (s t : Status) : Status_eqb s t = true <-> s = t.
Proof. destruct s, t; simpl; split; congruence. Qed.

Lemma runStep_running_status (j : Job num) (dt h : num) :
  status j = RUNNING ->
  status (runStep j dt h) = RUNNING \/ status (runStep j dt h) = DONE.
Proof.
  intros Es. unfold runStep. rewrite Es.
  match goal with |- context [if ?c then _ else _] => destruct c end;
    simpl; auto.
Qed.

(** Part B on a set without repetition: every job of the set is advanced by
    one time step, no other job is touched, and the set loses the jobs that
    are done. *)
Lemma runExisting_fold (h : num) (l : list ref) :
  List.NoDup l ->
  forall jobs running,
    (forall r, In r l -> (r < length jobs)%nat) ->
    let res :=
      fold_left
        (fun (st : list (Job num) * list ref) r =>
           let '(jobs, running) := st in
           let job := runStep (jobs !!! r) TIME_STEP_MINUTES h in
           let jobs := <[r := job]> jobs in
           if Status_eqb (status job) DONE
           then (jobs, List.filter (fun r' => negb (Nat.eqb r' r)) running)
           else (jobs, running))
        l (jobs, running) in
    length (fst res) = length jobs
    /\ (forall r, In r l ->
          fst res !!! r = runStep (jobs !!! r) TIME_STEP_MINUTES h)
    /\ (forall r, ~ In r l -> fst res !!! r = jobs !!! r)
    /\ (forall x, In x (snd res)
                  <-> In x running
                      /\ ~ (In x l /\ status (fst res !!! x) = DONE))
    /\ (List.NoDup running -> List.NoDup (snd res)).
Proof.
  induction 1 as [|r l Hr Hnd IH]; intros jobs running Hlt; cbn [fold_left].
  - cbn [fst snd]. split; [reflexivity|]. split; [intros r []|].
    split; [reflexivity|]. split; [|auto].
    intros x. split; [intros Hx; split; [exact Hx | intros [[] _]] | tauto].
  - set (job := runStep (jobs !!! r) TIME_STEP_MINUTES h).
    assert (Hrlt : (r < length jobs)%nat) by (apply Hlt; left; reflexivity).
    assert (Hlt' : forall x, In x l -> (x < length (<[r := job]> jobs))%nat).
    { intros x Hx. rewrite length_insert. apply Hlt. right. exact Hx. }
    assert (Hjob : forall res : list (Job num) * list ref,
               (forall x, ~ In x l -> fst res !!! x = <[r := job]> jobs !!! x) ->
               fst res !!! r = job).
    { intros res Hres. rewrite (Hres r Hr).
      apply list_lookup_total_insert_eq. exact Hrlt. }
    destruct (Status_eqb (status job) DONE) eqn:Ed.
    + destruct (IH (<[r := job]> jobs)
                  (List.filter (fun r' => negb (Nat.eqb r' r)) running) Hlt')
        as (I1 & I2 & I3 & I4 & I5).
      cbv zeta in *.
      match goal with |- context [fold_left ?f l ?a] =>
        set (res := fold_left f l a) in * end.
      pose proof (Hjob res I3) as Hres.
      split; [rewrite I1; apply length_insert|].
      split; [|split; [|split]].
      * intros x [<- | Hx]; [exact Hres|].
        rewrite (I2 x Hx).
        rewrite list_lookup_total_insert_ne; [reflexivity|].
        intros ->. exact (Hr Hx).
      * intros x Hx. rewrite I3 by (intros Hx'; apply Hx; right; exact Hx').
        apply list_lookup_total_insert_ne. intros ->. apply Hx. left. reflexivity.
      * intros x. rewrite I4, List.filter_In, negb_true_iff, Nat.eqb_neq.
        apply Status_eqb_true in Ed.
        split.
        -- intros ((Hx & Hne) & Hn). split; [exact Hx|].
           intros ([Heq | Hx'] & Hd); [congruence | tauto].
        -- intros (Hx & Hn). split; [split; [exact Hx|]|].
           ++ intros ->. apply Hn. split; [left; reflexivity|].
              rewrite Hres. exact Ed.
           ++ intros (Hx' & Hd). apply Hn. split; [right; exact Hx' | exact Hd].
      * intros Hndr. apply I5. apply List.NoDup_filter. exact Hndr.
    + destruct (IH (<[r := job]> jobs) running Hlt')
        as (I1 & I2 & I3 & I4 & I5).
      cbv zeta in *.
      match goal with |- context [fold_left ?f l ?a] =>
        set (res := fold_left f l a) in * end.
      pose proof (Hjob res I3) as Hres.
      split; [rewrite I1; apply length_insert|].
      split; [|split; [|split]].
      * intros x [<- | Hx]; [exact Hres|].
        rewrite (I2 x Hx).
        rewrite list_lookup_total_insert_ne; [reflexivity|].
        intros ->. exact (Hr Hx).
      * intros x Hx. rewrite I3 by (intros Hx'; apply Hx; right; exact Hx').
        apply list_lookup_total_insert_ne. intros ->. apply Hx. left. reflexivity.
      * intros x. rewrite I4.
        assert (Hnd' : status job <> DONE).
        { intros Hd. apply Status_eqb_true in Hd. congruence. }
        split.
        -- intros (Hx & Hn). split; [exact Hx|].
           intros ([Heq | Hx'] & Hd); [|tauto].
           subst x. rewrite Hres in Hd. exact (Hnd' Hd).
        -- intros (Hx & Hn). split; [exact Hx|].
           intros (Hx' & Hd). apply Hn. split; [right; exact Hx' | exact Hd].
      * exact I5.
Qed.

Lemma runExisting_spec (h : num) (jobs : list (Job num)) (running : list ref) :
  List.NoDup running ->
  (forall r, In r running -> (r < length jobs)%nat) ->
  let res := runExisting h jobs running in
  length (fst res) = length jobs
  /\ (forall r, In r running ->
        fst res !!! r = runStep (jobs !!! r) TIME_STEP_MINUTES h)
  /\ (forall r, ~ In r running -> fst res !!! r = jobs !!! r)
  /\ (forall x, In x (snd res)
                <-> In x running /\ status (fst res !!! x) <> DONE)
  /\ List.NoDup (snd res).
Proof.
  intros Hnd Hlt. unfold runExisting.
  destruct (runExisting_fold h running Hnd jobs running Hlt)
    as (I1 & I2 & I3 & I4 & I5).
  cbv zeta in *. split; [exact I1|]. split; [exact I2|]. split; [exact I3|].
  split; [|exact (I5 Hnd)].
  intros x. rewrite I4. tauto.
Qed.

(** Part C: the set gains the jobs the scheduler returned that are not
    done. *)
Lemma addNew_spec (jobs : list (Job num)) (newJobs : list ref) :
  forall running,
    (forall x, In x (addNew jobs newJobs running)
               <-> In x running
                   \/ (In x newJobs /\ status (jobs !!! x) <> DONE))
    /\ (List.NoDup running -> List.NoDup (addNew jobs newJobs running)).
Proof.
  unfold addNew.
  induction newJobs as [|j l IH]; intros running; cbn [fold_left].
  - split; [|auto]. intros x. simpl. tauto.
  - destruct (existsb (Nat.eqb j) running) eqn:Ex.
    + simpl. destruct (IH running) as [I1 I2]. split; [|exact I2].
      intros x. rewrite I1. apply existsb_exists in Ex.
      destruct Ex as (y & Hy & Hjy). apply Nat.eqb_eq in Hjy. subst y.
      split; [tauto|]. intros [Hx | ([<- | Hx] & Hd)]; tauto.
    + assert (Hnin : ~ In j running).
      { intros Hj. apply Bool.not_true_iff_false in Ex. apply Ex.
        apply existsb_exists. exists j. split; [exact Hj|].
        apply Nat.eqb_refl. }
      simpl. destruct (Status_eqb (status (jobs !!! j)) DONE) eqn:Ed; simpl.
      * apply Status_eqb_true in Ed.
        destruct (IH running) as [I1 I2]. split; [|exact I2].
        intros x. rewrite I1.
        split; [tauto|]. intros [Hx | ([<- | Hx] & Hd)]; tauto.
      * assert (Hnd : status (jobs !!! j) <> DONE).
        { intros Hd. apply Status_eqb_true in Hd. congruence. }
        destruct (IH (running ++ [j])) as [I1 I2]. split.
        -- intros x. rewrite I1, in_app_iff. simpl.
           split.
           ++ intros [[Hx | [<- | []]] | Hx]; tauto.
           ++ intros [Hx | ([<- | Hx] & Hd)]; tauto.
        -- intros Hr. apply I2. apply NoDup_ListNoDup.
           apply NoDup_app. repeat split.
           ++ apply NoDup_ListNoDup. exact Hr.
           ++ intros x Hx Hx'. apply list_elem_of_In in Hx, Hx'.
              simpl in Hx'. destruct Hx' as [<- | []]. exact (Hnin Hx).
           ++ apply NoDup_singleton.
Qed.

Lemma fifo_loop_length (h : num) (w : list ref) :
  forall run tot jobs,
    length (snd (BaselineScheduler.fifo_loop h w run tot jobs)) = length jobs.
Proof.
  induction w as [|c w IH]; intros run tot jobs;
    cbn [BaselineScheduler.fifo_loop]; [reflexivity|].
  destruct (tot + powerKw (jobs !!! c) <=? MAX_DATA_HUB_POWER);
    [|reflexivity].
  rewrite IH. apply length_insert.
Qed.

(** Part C, for either scheduler: the jobs returned were waiting; they are
    started and every other job is left as it was. *)
Lemma scheduler_schedule_frame (useSmart : bool) (jobs : list (Job num))
    (sv t h : num) :
  let res := scheduler_schedule useSmart jobs sv t h in
  length (snd res) = length jobs
  /\ (forall r, In r (fst res) ->
        (r < length jobs)%nat /\ status (jobs !!! r) = WAITING
        /\ snd res !!! r = start (jobs !!! r) h)
  /\ (forall r, ~ In r (fst res) -> snd res !!! r = jobs !!! r).
Proof.
  unfold scheduler_schedule. destruct useSmart.
  - unfold SmartScheduler.schedule, SmartScheduler.schedule_loop.
    set (sorted := SmartScheduler.prioritizeJobs jobs (waitingJobs jobs) h sv).
    assert (Hperm : Permutation sorted (waitingJobs jobs))
      by apply Array_sort_perm.
    destruct (consider_fold_frame sv t h jobs sorted [] (lit 0) jobs)
      as (sub & E1 & E2 & E3 & E4).
    { intros x. split; [intros [] | reflexivity]. }
    { reflexivity. }
    cbv zeta in *.
    destruct (fold_left _ _ _) as [[run tot] jobs']; simpl in *. subst run.
    split; [exact E4|]. split.
    + intros r Hr.
      assert (Hw : In r (waitingJobs jobs)).
      { apply (Permutation_in r Hperm).
        apply list_elem_of_In. eapply elem_of_sublist; [|exact E2].
        apply list_elem_of_In. exact Hr. }
      apply waitingJobs_spec in Hw. destruct Hw as [Hlt Hs].
      repeat split; auto. apply E3; assumption.
    + intros r Hr. apply E3. exact Hr.
  - unfold BaselineScheduler.schedule, BaselineScheduler.schedule_loop.
    pose proof (fifo_loop_length h (waitingJobs jobs) []
                  BASELINE_BACKGROUND_LOAD jobs) as Hlen.
    destruct (fifo_loop_prefix h jobs (waitingJobs jobs) []
                BASELINE_BACKGROUND_LOAD jobs) as (k & E1 & _ & _ & E4).
    { intros x. split; [intros [] | reflexivity]. }
    { reflexivity. }
    cbv zeta in *.
    destruct (BaselineScheduler.fifo_loop _ _ _ _ _) as [[run tot] jobs'];
      simpl in *. subst run.
    split; [exact Hlen|]. split.
    + intros r Hr.
      assert (Hw : In r (waitingJobs jobs)).
      { apply list_elem_of_In. apply (subseteq_take k (waitingJobs jobs)).
        apply list_elem_of_In. exact Hr. }
      apply waitingJobs_spec in Hw. destruct Hw as [Hlt Hs].
      repeat split; auto. apply E4; assumption.
    + intros r Hr. apply E4. exact Hr.
Qed.

End StepFacts.

Section LoopInvariants.
Context {num : Type} `{Number num} `{MathLib num}.
Local Open Scope num_scope.

(** The parts of one iteration, read off the state it produces. *)
Lemma simStep_parts (files : Files num) (config : SimulationConfig num)
    (useSmart : bool) (s : SimState num) :
  let h := currentHour s in
  let B := runExisting h (jobs s) (currentlyRunning s) in
  let C := scheduler_schedule useSmart (fst B)
             (solarAvailableAt files config h) (currentTemp s) h in
  jobs (simStep files config useSmart s)
  = map (fun j => fst (deadlineMissed j h)) (snd C)
  /\ currentlyRunning (simStep files config useSmart s)
     = addNew (snd C) (fst C) (snd B)
  /\ slaViolations (simStep files config useSmart s)
     = snd (checkDeadlines h (snd C) (slaViolations s)).
Proof.
  intros h B C. subst h B C. unfold simStep.
  destruct (runExisting (currentHour s) (jobs s) (currentlyRunning s))
    as [jobs1 running1].
  cbn [fst snd].
  destruct (scheduler_schedule useSmart jobs1 _ _ _) as [newJobs jobs2].
  cbn [fst snd].
  pose proof (checkDeadlines_map (currentHour s) jobs2 (slaViolations s)) as F.
  destruct (checkDeadlines (currentHour s) jobs2 (slaViolations s))
    as [jobs3 sla].
  cbn [fst snd jobs currentlyRunning slaViolations] in *.
  subst jobs3. auto.
Qed.

(** What one iteration does to the jobs and to the set, when the set agrees
    with the status of the jobs on entry. *)
Lemma simStep_anatomy (files : Files num) (config : SimulationConfig num)
    (useSmart : bool) (s : SimState num) :
  running_consistent s ->
  let h := currentHour s in
  let s' := simStep files config useSmart s in
  exists (newJobs : list ref) (jobs2 : list (Job num)),
    jobs s' = map (fun j => fst (deadlineMissed j h)) jobs2
    /\ slaViolations s' = snd (checkDeadlines h jobs2 (slaViolations s))
    /\ length jobs2 = length (jobs s)
    /\ (forall r, In r (currentlyRunning s) ->
          jobs2 !!! r = runStep (jobs s !!! r) TIME_STEP_MINUTES h)
    /\ (forall r, In r newJobs ->
          (r < length (jobs s))%nat /\ status (jobs s !!! r) = WAITING
          /\ jobs2 !!! r = start (jobs s !!! r) h)
    /\ (forall r, ~ In r (currentlyRunning s) -> ~ In r newJobs ->
          jobs2 !!! r = jobs s !!! r)
    /\ (forall x, In x (currentlyRunning s')
                  <-> (In x (currentlyRunning s) /\ status (jobs2 !!! x) <> DONE)
                      \/ In x newJobs)
    /\ List.NoDup (currentlyRunning s').
Proof.
  intros [Hnd Hrun] h s'.
  destruct (simStep_parts files config useSmart s) as (P1 & P2 & P3).
  fold h s' in P1, P2, P3.
  apply NoDup_ListNoDup in Hnd.
  destruct (runExisting_spec h (jobs s) (currentlyRunning s) Hnd)
    as (B1 & B2 & B3 & B4 & B5).
  { intros r Hr. apply Hrun in Hr. tauto. }
  cbv zeta in *.
  destruct (runExisting h (jobs s) (currentlyRunning s)) as [jobs1 running1].
  cbn [fst snd] in *.
  destruct (scheduler_schedule_frame useSmart jobs1
              (solarAvailableAt files config h) (currentTemp s) h)
    as (C1 & C2 & C3).
  cbv zeta in *.
  destruct (scheduler_schedule useSmart jobs1 _ _ _) as [newJobs jobs2].
  cbn [fst snd] in *.
  destruct (addNew_spec jobs2 newJobs running1) as [A1 A2].
  (* a job of the set is not returned by the scheduler *)
  assert (Hdisj : forall r, In r (currentlyRunning s) -> ~ In r newJobs).
  { intros r Hr Hn. destruct (C2 r Hn) as (_ & Hw & _).
    rewrite (B2 r Hr) in Hw.
    apply Hrun in Hr. destruct Hr as [_ Hs].
    destruct (runStep_running_status (jobs s !!! r) TIME_STEP_MINUTES h Hs);
      congruence. }
  assert (Hnew : forall r, In r newJobs ->
             (r < length (jobs s))%nat /\ status (jobs s !!! r) = WAITING
             /\ jobs2 !!! r = start (jobs s !!! r) h).
  { intros r Hn. destruct (C2 r Hn) as (Hlt & Hw & Hst).
    assert (Hnr : ~ In r (currentlyRunning s))
      by (intros Hr; exact (Hdisj r Hr Hn)).
    rewrite (B3 r Hnr) in Hw, Hst. rewrite B1 in Hlt. auto. }
  exists newJobs, jobs2.
  split; [exact P1|]. split; [exact P3|]. split; [congruence|].
  split; [|split; [exact Hnew|split; [|split]]].
  - intros r Hr. rewrite (C3 r (Hdisj r Hr)). apply B2. exact Hr.
  - intros r Hr Hn. rewrite (C3 r Hn). apply B3. exact Hr.
  - intros x. rewrite P2, A1, B4. split.
    + intros [[Hx Hd] | [Hx Hd]]; [left | right; exact Hx].
      split; [exact Hx|]. rewrite (C3 x (Hdisj x Hx)). exact Hd.
    + intros [[Hx Hd] | Hx].
      * left. split; [exact Hx|]. rewrite <- (C3 x (Hdisj x Hx)). exact Hd.
      * right. split; [exact Hx|].
        destruct (Hnew x Hx) as (_ & Hw & ->). rewrite start_status, Hw.
        discriminate.
  - rewrite P2. apply A2. exact B5.
Qed.

Lemma deadlineMissed_status (j : Job num) (h : num) :
  status (fst (deadlineMissed j h)) = status j.
Proof. apply deadlineMissed_fields. Qed.

(** The set of running jobs agrees with the status of the jobs after the
    iteration when it did before. *)
Lemma simStep_consistent (files : Files num) (config : SimulationConfig num)
    (useSmart : bool) (s : SimState num) :
  running_consistent s ->
  running_consistent (simStep files config useSmart s)
  /\ length (jobs (simStep files config useSmart s)) = length (jobs s).
Proof.
  intros Hc.
  destruct (simStep_anatomy files config useSmart s Hc)
    as (newJobs & jobs2 & P1 & _ & Hlen & Hrun & Hnew & Hrest & Hset & Hnd).
  cbv zeta in *. destruct Hc as [_ Hc].
  assert (Hlen' : length (jobs (simStep files config useSmart s))
                  = length (jobs s)).
  { rewrite P1, length_map. exact Hlen. }
  split; [|exact Hlen']. split; [apply NoDup_ListNoDup; exact Hnd|].
  intros x. rewrite Hset, Hlen'. split.
  - intros [[Hx Hd] | Hx].
    + pose proof (proj1 (Hc x) Hx) as [Hlt Hs]. split; [exact Hlt|].
      rewrite P1, (list_lookup_total_fmap _ jobs2 x) by lia.
      rewrite deadlineMissed_status.
      rewrite (Hrun x Hx) in *.
      destruct (runStep_running_status (jobs s !!! x) TIME_STEP_MINUTES
                  (currentHour s) Hs); congruence.
    + destruct (Hnew x Hx) as (Hlt & Hw & Hst). split; [exact Hlt|].
      rewrite P1, (list_lookup_total_fmap _ jobs2 x) by lia.
      rewrite deadlineMissed_status, Hst, start_status, Hw. reflexivity.
  - intros [Hlt Hs].
    rewrite P1, (list_lookup_total_fmap _ jobs2 x) in Hs by lia.
    rewrite deadlineMissed_status in Hs.
    destruct (in_dec Nat.eq_dec x newJobs) as [Hn | Hn]; [right; exact Hn|].
    left. destruct (in_dec Nat.eq_dec x (currentlyRunning s)) as [Hx | Hx].
    + split; [exact Hx | congruence].
    + exfalso. rewrite (Hrest x Hx Hn) in Hs. apply Hx, Hc. auto.
Qed.

Lemma setupJobs_status (useSmart : bool) (apps : list (Appliance num))
    (r : ref) :
  status (setupJobs useSmart apps !!! r) = WAITING.
Proof.
  rewrite setupJobs_map.
  change (map jobOfAppliance apps) with (jobOfAppliance <$> apps).
  rewrite list_lookup_total_alt, list_lookup_fmap.
  destruct (apps !! r); reflexivity.
Qed.

Lemma initialState_consistent (useSmart : bool) (apps : list (Appliance num)) :
  running_consistent (initialState useSmart apps).
Proof.
  split; [apply NoDup_nil_2|]. intros r. cbn [initialState currentlyRunning jobs].
  split; [intros []|]. intros [_ Hs].
  rewrite setupJobs_status in Hs. discriminate.
Qed.

Lemma stateAfter_consistent (files : Files num) (config : SimulationConfig num)
    (useSmart : bool) (apps : list (Appliance num)) (n : nat) :
  running_consistent (stateAfter files config useSmart apps n)
  /\ length (jobs (stateAfter files config useSmart apps n)) = length apps.
Proof.
  unfold stateAfter. induction n as [|n [IH1 IH2]].
  - split; [apply initialState_consistent|].
    cbn [Nat.iter nat_rect initialState jobs].
    rewrite setupJobs_map. apply length_map.
  - rewrite Nat.iter_succ.
    destruct (simStep_consistent files config useSmart _ IH1) as [S1 S2].
    split; [exact S1 | congruence].
Qed.

End LoopInvariants.

Section StepMetrics.
Context {num : Type} `{Number num} `{MathLib num}.
Local Open Scope num_scope.

(** Part F reads and writes the flag [penalized] only; this holds at every
    index, the array having no job there included. *)
Lemma deadlineMissed_lookup (h : num) (l : list (Job num)) (r : ref) :
  map (fun j => fst (deadlineMissed j h)) l !!! r
  = fst (deadlineMissed (l !!! r) h).
Proof.
  change (map ?f l) with (f <$> l).
  rewrite !list_lookup_total_alt, list_lookup_fmap.
  destruct (l !! r); reflexivity.
Qed.

Lemma deadlineMissed_powerKw (j : Job num) (h : num) :
  powerKw (fst (deadlineMissed j h)) = powerKw j.
Proof.
  unfold deadlineMissed. destruct (deadline j) as [d|]; [|reflexivity].
  match goal with |- context [if ?c then _ else _] => destruct c end;
    reflexivity.
Qed.

Lemma fold_left_ext_acc {A B : Type} (f g : A -> B -> A) (l : list B) :
  (forall a b, f a b = g a b) ->
  forall a, fold_left f l a = fold_left g l a.
Proof.
  intros Hfg. induction l as [|b l IH]; intros a; simpl; [reflexivity|].
  rewrite Hfg. apply IH.
Qed.

(** The quantities one iteration computes and records, in terms of the
    state it produces. *)
Lemma simStep_metrics (files : Files num) (config : SimulationConfig num)
    (useSmart : bool) (s : SimState num) :
  let s' := simStep files config useSmart s in
  let load := computeLoad s' in
  let solarAvailable := solarAvailableAt files config (currentHour s) in
  let ambientTemp := ambientTempAt files config (currentHour s) in
  let solarUsed := Math_min load solarAvailable in
  let gridUsed := Math_max (lit 0) (load - solarUsed) in
  let cooling := getCoolingPowerKw (currentTemp s) load in
  let gridUse := gridUsed + cooling in
  solarEnergy s' = solarEnergy s + solarUsed * dtHours
  /\ gridEnergy s' = gridEnergy s + gridUse * dtHours
  /\ coolingEnergy s' = coolingEnergy s + cooling * dtHours
  /\ carbon s' = carbon s + gridUse * dtHours * GRID_CARBON_INTENSITY
  /\ accumulatedCost s'
     = accumulatedCost s + gridUse * dtHours * getGridPrice (currentHour s)
  /\ currentTemp s'
     = currentTemp s
       + ((HEAT_ACCUMULATION * load) - (COOLING_EFFICIENCY * cooling)
          - (THERMAL_DISSIPATION * (currentTemp s - ambientTemp)))
  /\ logs s'
     = {| log_time := log_time (logs s) ++ [currentHour s];
          log_solar := log_solar (logs s) ++ [solarUsed];
          log_grid := log_grid (logs s) ++ [gridUse];
          log_temp := log_temp (logs s) ++ [currentTemp s'];
          log_cooling := log_cooling (logs s) ++ [cooling];
          log_cost := log_cost (logs s) ++ [accumulatedCost s'] |}.
Proof.
  intros s' load. subst s' load. unfold computeLoad, simStep.
  destruct (runExisting (currentHour s) (jobs s) (currentlyRunning s))
    as [jobs1 running1].
  destruct (scheduler_schedule useSmart jobs1 _ _ _) as [newJobs jobs2].
  pose proof (checkDeadlines_map (currentHour s) jobs2 (slaViolations s)) as F.
  destruct (checkDeadlines (currentHour s) jobs2 (slaViolations s))
    as [jobs3 sla].
  cbn [fst] in F. subst jobs3.
  cbn [jobs currentlyRunning solarEnergy gridEnergy coolingEnergy carbon
       accumulatedCost currentTemp logs].
  rewrite (fold_left_ext_acc
             (fun sum j =>
                sum + powerKw
                        (map (fun j0 => fst (deadlineMissed j0 (currentHour s)))
                           jobs2 !!! j))
             (fun sum j => sum + powerKw (jobs2 !!! j))).
  2:{ intros a b. rewrite deadlineMissed_lookup, deadlineMissed_powerKw.
      reflexivity. }
  cbv zeta. repeat split; reflexivity.
Qed.

(** Every iteration adds one entry to each of the six logs. *)
Lemma stateAfter_logs (files : Files num) (config : SimulationConfig num)
    (useSmart : bool) (apps : list (Appliance num)) (n : nat) :
  let l := logs (stateAfter files config useSmart apps n) in
  length (log_time l) = n /\ length (log_solar l) = n
  /\ length (log_grid l) = n /\ length (log_temp l) = n
  /\ length (log_cooling l) = n /\ length (log_cost l) = n.
Proof.
  unfold stateAfter. induction n as [|n IH].
  - cbn [Nat.iter nat_rect initialState logs]. repeat split; reflexivity.
  - rewrite Nat.iter_succ.
    destruct (simStep_metrics files config useSmart
                (Nat.iter n (simStep files config useSmart)
                   (initialState useSmart apps)))
      as (_ & _ & _ & _ & _ & _ & L).
    cbv zeta in *. rewrite L. cbn [log_time log_solar log_grid log_temp
                                   log_cooling log_cost].
    rewrite !length_app. cbn [length].
    destruct IH as (I1 & I2 & I3 & I4 & I5 & I6).
    rewrite I1, I2, I3, I4, I5, I6. repeat split; lia.
Qed.

End StepMetrics.

Section Violations.
Context {num : Type} `{Number num} `{MathLib num}.
Local Open Scope num_scope.

Lemma count_penalized_ext (l1 l2 : list (Job num)) :
  length l1 = length l2 ->
  (forall r, penalized (l1 !!! r) = penalized (l2 !!! r)) ->
  count_penalized l1 = count_penalized l2.
Proof.
  unfold count_penalized. revert l2.
  induction l1 as [|a l1 IH]; intros [|b l2] Hlen Hp; try discriminate;
    [reflexivity|].
  pose proof (Hp 0%nat) as Hhd. cbn in Hhd. cbn [List.filter]. rewrite Hhd.
  assert (IH' : length (List.filter penalized l1)
                = length (List.filter penalized l2)).
  { apply IH; [simpl in Hlen; lia|]. intros r. exact (Hp (S r)). }
  destruct (penalized b); cbn [length]; rewrite IH'; reflexivity.
Qed.

Lemma deadlineMissed_not_missed (j : Job num) (h : num) :
  snd (deadlineMissed j h) = false -> fst (deadlineMissed j h) = j.
Proof.
  unfold deadlineMissed. destruct (deadline j) as [d|]; [|reflexivity].
  match goal with |- context [if ?c then _ else _] => destruct c end;
    [discriminate | reflexivity].
Qed.

(** Part F increments the counter once for every job it flags. *)
Lemma checkDeadlines_count (h : num) (l : list (Job num)) :
  forall done k,
    snd (fold_left
           (fun (st : list (Job num) * num) j =>
              let '(done, sla) := st in
              let '(j', missed) := deadlineMissed j h in
              (done ++ [j'], if missed then sla + lit 1 else sla))
           l (done, incremented k))
    = incremented
        (k + (count_penalized (map (fun j => fst (deadlineMissed j h)) l)
              - count_penalized l))
    /\ (count_penalized l
        <= count_penalized (map (fun j => fst (deadlineMissed j h)) l))%nat.
Proof.
  unfold count_penalized.
  induction l as [|j l IH]; intros done k; cbn [fold_left map List.filter].
  - cbn [length snd]. rewrite Nat.add_0_r. split; [reflexivity | lia].
  - pose proof (deadlineMissed_penalized j h) as Hp.
    pose proof (deadlineMissed_flagged j h) as Hf.
    destruct (deadlineMissed j h) as [j' b] eqn:E. cbn [fst snd] in *.
    destruct b.
    + assert (Hj : penalized j = false).
      { destruct (penalized j); [discriminate (Hf eq_refl) | reflexivity]. }
      rewrite Hp, Hj. cbn [orb length].
      change (incremented k + lit 1) with (incremented (S k)).
      destruct (IH (done ++ [j']) (S k)) as [I1 I2]. rewrite I1.
      split; [f_equal; lia | lia].
    + rewrite Hp, orb_false_r.
      destruct (IH (done ++ [j']) k) as [I1 I2]. rewrite I1.
      destruct (penalized j); cbn [length]; split; try lia; f_equal; lia.
Qed.

Lemma count_penalized_le (l : list (Job num)) :
  (count_penalized l <= length l)%nat.
Proof. unfold count_penalized. apply List.filter_length_le. Qed.

(** The counter of violations is the number of flagged jobs, iteration
    after iteration. *)
Lemma simStep_violations (files : Files num) (config : SimulationConfig num)
    (useSmart : bool) (s : SimState num) :
  running_consistent s ->
  slaViolations s = incremented (count_penalized (jobs s)) ->
  slaViolations (simStep files config useSmart s)
  = incremented (count_penalized (jobs (simStep files config useSmart s))).
Proof.
  intros Hc Hs.
  destruct (simStep_anatomy files config useSmart s Hc)
    as (newJobs & jobs2 & P1 & P2 & Hlen & Hrun & Hnew & Hrest & _).
  cbv zeta in *. rewrite P1, P2, Hs.
  assert (Hcount : count_penalized jobs2 = count_penalized (jobs s)).
  { apply count_penalized_ext; [exact Hlen|]. intros r.
    destruct (in_dec Nat.eq_dec r (currentlyRunning s)) as [Hr | Hr].
    - rewrite (Hrun r Hr). apply runStep_penalized.
    - destruct (in_dec Nat.eq_dec r newJobs) as [Hn | Hn].
      + destruct (Hnew r Hn) as (_ & _ & ->). apply start_penalized.
      + rewrite (Hrest r Hr Hn). reflexivity. }
  rewrite <- Hcount. unfold checkDeadlines.
  destruct (checkDeadlines_count (currentHour s) jobs2 []
              (count_penalized jobs2)) as [C1 C2].
  rewrite C1. f_equal. lia.
Qed.

Lemma setupJobs_penalized (useSmart : bool) (apps : list (Appliance num)) :
  count_penalized (setupJobs useSmart apps) = 0%nat.
Proof.
  rewrite setupJobs_map. unfold count_penalized.
  induction apps as [|a apps IH]; [reflexivity | exact IH].
Qed.

Lemma stateAfter_violations (files : Files num) (config : SimulationConfig num)
    (useSmart : bool) (apps : list (Appliance num)) (n : nat) :
  slaViolations (stateAfter files config useSmart apps n)
  = incremented (count_penalized (jobs (stateAfter files config useSmart apps n))).
Proof.
  induction n as [|n IH].
  - unfold stateAfter. cbn [Nat.iter nat_rect initialState slaViolations jobs].
    rewrite setupJobs_penalized. reflexivity.
  - change (stateAfter files config useSmart apps (S n))
      with (simStep files config useSmart
              (stateAfter files config useSmart apps n)).
    apply simStep_violations; [|exact IH].
    apply stateAfter_consistent.
Qed.

End Violations.

Lemma incremented_R (k : nat) : @incremented R _ k = INR k.
Proof.
  unfold incremented. induction k as [|k IH].
  - cbn [Nat.iter nat_rect]. num_R. simpl. lra.
  - rewrite Nat.iter_succ, IH, S_INR. num_R. lra.
Qed.

(* ================================================================== *)
(** * Invariants of the simulation loop *)
(* ================================================================== *)

Section LoopTheorems.
Context {num : Type} `{Number num} `{MathLib num}.
Local Open Scope num_scope.

(** After any number of iterations, with either scheduler, the set
    [currentlyRunning] holds no job twice and holds exactly the jobs whose
    status is [RUNNING]; the scheduler has as many jobs as there are
    appliances. *)
Theorem running_set_is_running_jobs (files : Files num)
    (config : SimulationConfig num) (useSmart : bool)
    (apps : list (Appliance num)) (n : nat) :
  let s := stateAfter files config useSmart apps n in
  NoDup (currentlyRunning s)
  /\ length (jobs s) = length apps
  /\ forall r, In r (currentlyRunning s)
               <-> (r < length apps)%nat /\ status (jobs s !!! r) = RUNNING.
Proof.
  intros s.
  destruct (stateAfter_consistent files config useSmart apps n)
    as [[Hnd Hrun] Hlen].
  fold s in Hnd, Hrun, Hlen.
  split; [exact Hnd|]. split; [exact Hlen|].
  intros r. rewrite <- Hlen. apply Hrun.
Qed.

Lemma deadlineMissed_done (j : Job num) (h : num) :
  status j = DONE -> fst (deadlineMissed j h) = j.
Proof.
  intros Hd. apply deadlineMissed_not_missed.
  destruct (snd (deadlineMissed j h)) eqn:E; [|reflexivity].
  apply deadlineMissed_true_iff in E. destruct E as (d & _ & _ & Hs & _).
  congruence.
Qed.

(** What one iteration does to a job: a running job is advanced by exactly
    one time step and stays in the set unless that step finished it; a job
    that is done is never touched again; a waiting job is either started
    and joins the set, or left waiting.  In each case the deadline check
    follows. *)
Theorem iteration_on_each_job (files : Files num)
    (config : SimulationConfig num) (useSmart : bool)
    (apps : list (Appliance num)) (n : nat) (r : ref) (j : Job num) :
  let s := stateAfter files config useSmart apps n in
  let s' := stateAfter files config useSmart apps (S n) in
  let h := currentHour s in
  jobs s !! r = Some j ->
  match status j with
  | RUNNING =>
      jobs s' !! r
      = Some (fst (deadlineMissed (runStep j TIME_STEP_MINUTES h) h))
      /\ (In r (currentlyRunning s')
          <-> status (runStep j TIME_STEP_MINUTES h) <> DONE)
  | DONE => jobs s' !! r = Some j /\ ~ In r (currentlyRunning s')
  | WAITING =>
      (jobs s' !! r = Some (fst (deadlineMissed (start j h) h))
       /\ In r (currentlyRunning s'))
      \/ (jobs s' !! r = Some (fst (deadlineMissed j h))
          /\ ~ In r (currentlyRunning s'))
  end.
Proof.
  intros s s' h Hj.
  destruct (stateAfter_consistent files config useSmart apps n) as [Hc _].
  fold s in Hc.
  destruct (simStep_anatomy files config useSmart s Hc)
    as (newJobs & jobs2 & P1 & _ & Hlen & Hrun & Hnew & Hrest & Hset & _).
  cbv zeta in *.
  change (simStep files config useSmart s) with s' in *. fold h in P1, Hrun, Hnew.
  assert (Hlt : (r < length (jobs s))%nat) by (eapply lookup_lt_Some; exact Hj).
  assert (Hj' : jobs s !!! r = j) by (apply list_lookup_total_correct; exact Hj).
  assert (Hlook : jobs s' !! r = Some (fst (deadlineMissed (jobs2 !!! r) h))).
  { rewrite P1. change (map ?f jobs2) with (f <$> jobs2).
    rewrite list_lookup_fmap, (list_lookup_lookup_total_lt jobs2 r) by lia.
    reflexivity. }
  destruct Hc as [_ Hc]. specialize (Hc r). rewrite Hj' in Hc.
  destruct (status j) eqn:Es.
  - assert (Hnr : ~ In r (currentlyRunning s)).
    { intros Hr. apply Hc in Hr. destruct Hr; congruence. }
    destruct (in_dec Nat.eq_dec r newJobs) as [Hn | Hn].
    + left. destruct (Hnew r Hn) as (_ & _ & Hst). rewrite Hj' in Hst.
      rewrite Hlook, Hst. split; [reflexivity|]. apply Hset. right. exact Hn.
    + right. rewrite Hlook, (Hrest r Hnr Hn), Hj'. split; [reflexivity|].
      rewrite Hset. tauto.
  - assert (Hr : In r (currentlyRunning s)) by (apply Hc; auto).
    assert (Hn : ~ In r newJobs).
    { intros Hn. destruct (Hnew r Hn) as (_ & Hw & _). congruence. }
    specialize (Hrun r Hr). rewrite Hj' in Hrun.
    rewrite Hlook, Hrun. split; [reflexivity|].
    rewrite Hset, Hrun. tauto.
  - assert (Hnr : ~ In r (currentlyRunning s)).
    { intros Hr. apply Hc in Hr. destruct Hr; congruence. }
    assert (Hn : ~ In r newJobs).
    { intros Hn. destruct (Hnew r Hn) as (_ & Hw & _). congruence. }
    rewrite Hlook, (Hrest r Hnr Hn), Hj', (deadlineMissed_done j h Es).
    split; [reflexivity|]. rewrite Hset. tauto.
Qed.

(** Every iteration appends one entry to each of the six logs, so that
    they stay aligned index by index; the hours logged are the values the
    clock took, and the last cost logged is the accumulated cost. *)
Theorem logs_stay_aligned (files : Files num)
    (config : SimulationConfig num) (useSmart : bool)
    (apps : list (Appliance num)) (n : nat) :
  let s := stateAfter files config useSmart apps n in
  (length (log_time (logs s)) = n /\ length (log_solar (logs s)) = n
   /\ length (log_grid (logs s)) = n /\ length (log_temp (logs s)) = n
   /\ length (log_cooling (logs s)) = n /\ length (log_cost (logs s)) = n)
  /\ log_time (logs s)
     = map (fun k => Nat.iter k (fun h => h + dtHours) SIMULATION_START_HOUR)
         (seq 0 n)
  /\ last (log_cost (logs (stateAfter files config useSmart apps (S n))))
     = Some (accumulatedCost (stateAfter files config useSmart apps (S n)))
  /\ last (log_temp (logs (stateAfter files config useSmart apps (S n))))
     = Some (currentTemp (stateAfter files config useSmart apps (S n))).
Proof.
  intros s. split; [apply stateAfter_logs|]. split.
  - subst s. induction n as [|n IH]; [reflexivity|].
    change (stateAfter files config useSmart apps (S n))
      with (simStep files config useSmart
              (stateAfter files config useSmart apps n)).
    rewrite simStep_log_time, IH, seq_S, map_app. cbn [map Nat.add].
    unfold stateAfter. rewrite iter_currentHour. reflexivity.
  - change (stateAfter files config useSmart apps (S n))
      with (simStep files config useSmart s).
    destruct (simStep_metrics files config useSmart s)
      as (_ & _ & _ & _ & _ & _ & L).
    cbv zeta in L. rewrite L. cbn [log_cost log_temp].
    rewrite !last_snoc. auto.
Qed.

End LoopTheorems.

(** The number of violations is the number of flagged jobs: with either
    scheduler and after any number of iterations, the counter was
    incremented once for each job whose flag [penalized] is set, so that no
    job is counted twice and the count never exceeds the number of
    appliances.  In exact arithmetic the counter is that number. *)
Theorem violations_count_flagged_jobs :
  (forall (num : Type) (N : Number num) (M : MathLib num)
          (files : Files num) (config : SimulationConfig num)
          (useSmart : bool) (apps : list (Appliance num)) (n : nat),
      let s := stateAfter files config useSmart apps n in
      slaViolations s = incremented (count_penalized (jobs s))
      /\ (count_penalized (jobs s) <= length apps)%nat)
  /\ (forall (files : Files R) (config : SimulationConfig R)
             (useSmart : bool) (apps : list (Appliance R)) (n : nat),
        let s := stateAfter files config useSmart apps n in
        slaViolations s = INR (count_penalized (jobs s))
        /\ (0 <= slaViolations s <= INR (length apps))%R).
Proof.
  assert (G : forall (num : Type) (N : Number num) (M : MathLib num)
                     (files : Files num) (config : SimulationConfig num)
                     (useSmart : bool) (apps : list (Appliance num)) (n : nat),
             let s := stateAfter files config useSmart apps n in
             slaViolations s = incremented (count_penalized (jobs s))
             /\ (count_penalized (jobs s) <= length apps)%nat).
  { intros num N M files config useSmart apps n s. split.
    - apply stateAfter_violations.
    - destruct (stateAfter_consistent files config useSmart apps n)
        as [_ Hlen].
      fold s in Hlen. rewrite <- Hlen. apply count_penalized_le. }
  split; [exact G|].
  intros files config useSmart apps n s.
  destruct (G R _ _ files config useSmart apps n) as [G1 G2].
  fold s in G1, G2. rewrite G1, incremented_R.
  split; [reflexivity|]. split; [apply pos_INR | apply le_INR; exact G2].
Qed.

(* ================================================================== *)
(** * Energy, cost and carbon, in exact arithmetic *)
(* ================================================================== *)

Section EnergyReal.
Local Open Scope R_scope.

Lemma getCoolingPowerKw_nonneg (t l : R) : 0 <= getCoolingPowerKw t l.
Proof.
  unfold getCoolingPowerKw.
  destruct (t <=? TEMP_THRESHOLD)%num; num_R; [lra|].
  eapply Rle_trans; [|apply Rmax_l]. lra.
Qed.

Lemma getGridPrice_bounds (h : R) : 4 <= getGridPrice h <= 12.
Proof.
  unfold getGridPrice.
  destruct (h <? lit 6)%num; [num_R; lra|].
  destruct ((lit 18 <=? h)%num && (h <? lit 22)%num); num_R; lra.
Qed.

Lemma dtHours_R : @dtHours R _ = 1 / 6.
Proof. unfold dtHours, TIME_STEP_MINUTES. num_R. lra. Qed.

(** The energy mix of one iteration: the load is served by solar power up
    to what is available and by the grid for the rest. *)
Lemma energy_mix (load solar : R) :
  Rmin load solar + Rmax 0 (load - Rmin load solar) = load
  /\ 0 <= Rmax 0 (load - Rmin load solar).
Proof.
  unfold Rmin, Rmax.
  destruct (Rle_dec load solar);
    match goal with |- context [Rle_dec ?a ?b] => destruct (Rle_dec a b) end;
    lra.
Qed.

Lemma stateAfter_accounts (files : Files R) (config : SimulationConfig R)
    (useSmart : bool) (apps : list (Appliance R)) (n : nat) :
  let s := stateAfter files config useSmart apps n in
  carbon s = gridEnergy s * GRID_CARBON_INTENSITY
  /\ 0 <= coolingEnergy s <= gridEnergy s
  /\ 4 * gridEnergy s <= accumulatedCost s <= 12 * gridEnergy s.
Proof.
  induction n as [|n IH].
  - unfold stateAfter.
    cbn [Nat.iter nat_rect initialState carbon gridEnergy coolingEnergy
         accumulatedCost].
    unfold GRID_CARBON_INTENSITY. num_R. lra.
  - change (stateAfter files config useSmart apps (S n))
      with (simStep files config useSmart
              (stateAfter files config useSmart apps n)).
    set (s := stateAfter files config useSmart apps n) in *.
    cbv zeta in IH. destruct IH as (I1 & I2 & I3).
    destruct (simStep_metrics files config useSmart s)
      as (_ & M2 & M3 & M4 & M5 & _).
    cbv zeta in *. rewrite M2, M3, M4, M5, I1.
    set (load := computeLoad (simStep files config useSmart s)) in *.
    pose proof (getCoolingPowerKw_nonneg (currentTemp s) load) as Hc.
    pose proof (getGridPrice_bounds (currentHour s)) as Hp.
    set (cool := getCoolingPowerKw (currentTemp s) load) in *.
    set (price := getGridPrice (currentHour s)) in *.
    rewrite dtHours_R. unfold GRID_CARBON_INTENSITY. num_R.
    destruct (energy_mix load
                (solarAvailableAt files config (currentHour s))) as [_ Hg].
    set (grid := Rmax 0 (load - Rmin load
                   (solarAvailableAt files config (currentHour s)))) in *.
    replace (Rmax (0 / 1) (load - Rmin load
               (solarAvailableAt files config (currentHour s))))
      with grid by (unfold grid; f_equal; lra).
    split; [lra|]. split; [lra|]. nra.
Qed.

End EnergyReal.

(** In exact arithmetic, with either scheduler and after any number of
    iterations: the cooling energy and the compute share of the grid energy
    are never negative; the carbon emitted is the grid energy times
    [GRID_CARBON_INTENSITY]; the cost lies between 4 and 12 times the grid
    energy, the lowest and the highest price; and the total energy is the
    sum of its solar, compute-grid and cooling shares. *)
Theorem grid_energy_accounts (files : Files R) (config : SimulationConfig R)
    (useSmart : bool) (apps : list (Appliance R)) (n : nat) :
  let m := wrapUp (stateAfter files config useSmart apps n) in
  let grid := (energy_grid (energy m) + energy_cooling (energy m))%R in
  (0 <= energy_cooling (energy m))%R
  /\ (0 <= energy_grid (energy m))%R
  /\ metrics_carbon m = (grid * GRID_CARBON_INTENSITY)%R
  /\ (4 * grid <= cost_total m <= 12 * grid)%R
  /\ energy_total (energy m)
     = (energy_solar (energy m) + energy_grid (energy m)
        + energy_cooling (energy m))%R.
Proof.
  intros m grid. subst m grid.
  destruct (stateAfter_accounts files config useSmart apps n)
    as (A1 & A2 & A3).
  cbv zeta in *. unfold wrapUp.
  cbn [energy energy_cooling energy_grid energy_solar energy_total
       metrics_carbon cost_total].
  num_R.
  set (s := stateAfter files config useSmart apps n) in *.
  replace (gridEnergy s - coolingEnergy s + coolingEnergy s)%R
    with (gridEnergy s) by lra.
  repeat split; try lra. 
Qed.

(** In exact arithmetic every iteration balances its energy: the solar
    power used and the grid power drawn for computing (the grid power logged
    less the cooling power) add up to the power of the jobs in the set
    [currentlyRunning]; the solar power used exceeds neither that load nor
    the solar power available; and the cooling power is not negative. *)
Theorem iteration_energy_balance (files : Files R)
    (config : SimulationConfig R) (useSmart : bool)
    (apps : list (Appliance R)) (n : nat) :
  let s := stateAfter files config useSmart apps n in
  let s' := stateAfter files config useSmart apps (S n) in
  exists solarUsed gridUse cooling : R,
    last (log_solar (logs s')) = Some solarUsed
    /\ last (log_grid (logs s')) = Some gridUse
    /\ last (log_cooling (logs s')) = Some cooling
    /\ (solarUsed + (gridUse - cooling) = computeLoad s')%R
    /\ (solarUsed <= computeLoad s')%R
    /\ (solarUsed <= solarAvailableAt files config (currentHour s))%R
    /\ (0 <= cooling <= gridUse)%R.
Proof.
  intros s s'.
  change s' with (simStep files config useSmart s). clear s'.
  destruct (simStep_metrics files config useSmart s)
    as (_ & _ & _ & _ & _ & _ & L).
  cbv zeta in L.
  set (load := computeLoad (simStep files config useSmart s)) in *.
  set (solar := solarAvailableAt files config (currentHour s)) in *.
  eexists _, _, _. rewrite L. cbn [log_solar log_grid log_cooling].
  rewrite !last_snoc.
  split; [reflexivity|]. split; [reflexivity|]. split; [reflexivity|].
  pose proof (getCoolingPowerKw_nonneg (currentTemp s) load) as Hc.
  destruct (energy_mix load solar) as [Hmix Hg].
  num_R.
  replace (Rmax (0 / 1) (load - Rmin load solar))
    with (Rmax 0 (load - Rmin load solar)) by (f_equal; lra).
  pose proof (Rmin_l load solar). pose proof (Rmin_r load solar).
  repeat split; lra.
Qed.

(* ================================================================== *)
(** * What a run keeps of every job *)
(* ================================================================== *)

Section JobsThroughRun.
Context {num : Type} `{Number num} `{MathLib num}.
Local Open Scope num_scope.

Lemma start_specification (j : Job num) (h : num) :
  specification (start j h) = specification j.
Proof. unfold specification. unfold_start j. Qed.

Lemma runStep_specification (j : Job num) (dt h : num) :
  specification (runStep j dt h) = specification j.
Proof.
  unfold runStep.
  destruct (status j) eqn:E; try reflexivity;
    match goal with |- context [if ?c then _ else _] => destruct c end;
    unfold specification; cbn;
    try (change (specification (start j h) = specification j);
         apply start_specification);
    reflexivity.
Qed.

Lemma deadlineMissed_specification (j : Job num) (h : num) :
  specification (fst (deadlineMissed j h)) = specification j.
Proof.
  unfold deadlineMissed. destruct (deadline j) as [d|]; [|reflexivity].
  match goal with |- context [if ?c then _ else _] => destruct c end;
    reflexivity.
Qed.

Lemma map_lookup_total_ext {B : Type} (f : Job num -> B)
    (l1 l2 : list (Job num)) :
  length l1 = length l2 ->
  (forall r, f (l1 !!! r) = f (l2 !!! r)) ->
  map f l1 = map f l2.
Proof.
  revert l2. induction l1 as [|a l1 IH]; intros [|b l2] Hlen Hp;
    try discriminate; [reflexivity|].
  cbn [map]. f_equal; [exact (Hp 0%nat)|].
  apply IH; [simpl in Hlen; lia|]. intros r. exact (Hp (S r)).
Qed.

(** The jobs after parts B and C of an iteration, one by one. *)
Lemma simStep_each (files : Files num) (config : SimulationConfig num)
    (useSmart : bool) (s : SimState num) :
  running_consistent s ->
  let h := currentHour s in
  exists jobs2 : list (Job num),
    jobs (simStep files config useSmart s)
    = map (fun j => fst (deadlineMissed j h)) jobs2
    /\ slaViolations (simStep files config useSmart s)
       = snd (checkDeadlines h jobs2 (slaViolations s))
    /\ length jobs2 = length (jobs s)
    /\ forall r,
         (status (jobs s !!! r) = RUNNING
          /\ jobs2 !!! r = runStep (jobs s !!! r) TIME_STEP_MINUTES h)
         \/ (status (jobs s !!! r) = WAITING
             /\ jobs2 !!! r = start (jobs s !!! r) h)
         \/ (status (jobs s !!! r) <> RUNNING /\ jobs2 !!! r = jobs s !!! r).
Proof.
  intros Hc h.
  destruct (simStep_anatomy files config useSmart s Hc)
    as (newJobs & jobs2 & P1 & P2 & Hlen & Hrun & Hnew & Hrest & _).
  cbv zeta in *. fold h in P1, P2, Hrun, Hnew.
  exists jobs2. split; [exact P1|]. split; [exact P2|]. split; [exact Hlen|].
  intros r. destruct Hc as [_ Hc].
  destruct (in_dec Nat.eq_dec r (currentlyRunning s)) as [Hr | Hr].
  - left. split; [apply Hc; exact Hr | apply Hrun; exact Hr].
  - destruct (in_dec Nat.eq_dec r newJobs) as [Hn | Hn].
    + right. left. destruct (Hnew r Hn) as (_ & Hw & Hst). auto.
    + right. right. split; [|apply Hrest; assumption].
      intros Hs. destruct (decide (r < length (jobs s))%nat) as [Hlt | Hge].
      * apply Hr, Hc. auto.
      * rewrite list_lookup_total_alt, lookup_ge_None_2 in Hs by lia.
        discriminate.
Qed.

Lemma stateAfter_succ (files : Files num) (config : SimulationConfig num)
    (useSmart : bool) (apps : list (Appliance num)) (n : nat) :
  stateAfter files config useSmart apps (S n)
  = simStep files config useSmart (stateAfter files config useSmart apps n).
Proof. reflexivity. Qed.

Lemma stateAfter_clock (files : Files num) (config : SimulationConfig num)
    (useSmart : bool) (apps : list (Appliance num)) (n : nat) :
  currentHour (stateAfter files config useSmart apps n) = clock n.
Proof. unfold stateAfter, clock. apply iter_currentHour. Qed.

Lemma stateAfter_specification (files : Files num)
    (config : SimulationConfig num) (useSmart : bool)
    (apps : list (Appliance num)) (n : nat) :
  map specification (jobs (stateAfter files config useSmart apps n))
  = map (fun app => specification (jobOfAppliance app)) apps.
Proof.
  induction n as [|n IH].
  - unfold stateAfter. cbn [Nat.iter nat_rect initialState jobs].
    rewrite setupJobs_map, map_map. reflexivity.
  - rewrite stateAfter_succ, <- IH.
    set (s := stateAfter files config useSmart apps n).
    destruct (simStep_each files config useSmart s) as (jobs2 & P1 & _ & Hlen & Hj).
    { apply stateAfter_consistent. }
    cbv zeta in *. rewrite P1, map_map.
    rewrite (List.map_ext _ specification)
      by (intros j; apply deadlineMissed_specification).
    apply map_lookup_total_ext; [exact Hlen|].
    intros r.
    destruct (Hj r) as [[_ ->] | [[_ ->] | [_ ->]]];
      auto using runStep_specification, start_specification.
Qed.

Lemma status_agrees_later (n : nat) (j : Job num) :
  status_agrees n j -> status_agrees (S n) j.
Proof.
  intros (A1 & A2 & A3). split; [exact A1|]. split; [|exact A3].
  intros Hs. destruct (A2 Hs) as (k & Hk & Hh). exists k. split; [lia | exact Hh].
Qed.

Lemma status_agrees_runStep (n : nat) (j : Job num) (dt h : num) :
  status j = RUNNING -> status_agrees n j -> status_agrees n (runStep j dt h).
Proof.
  intros Es (A1 & A2 & A3).
  destruct (A2 ltac:(congruence)) as (k & Hk & Hh).
  pose proof (runStep_startHour j dt h _ Hh) as Hh'.
  destruct (runStep_running_status j dt h Es) as [Er | Er].
  - split; [congruence|]. split; [|congruence].
    intros _. exists k. auto.
  - split; [congruence|]. split; [intros _; exists k; auto|].
    intros _. apply runStep_done_remaining; [|exact Er]. congruence.
Qed.

Lemma status_agrees_start (n : nat) (j : Job num) :
  status j = WAITING -> status_agrees n j ->
  status_agrees (S n) (start j (clock n)).
Proof.
  intros Es (A1 & _ & _). destruct (A1 Es) as [Hh _].
  pose proof (start_status j (clock n)) as Hs. rewrite Es in Hs.
  split; [congruence|]. split; [|congruence].
  intros _. exists n. split; [lia|].
  unfold start. rewrite Es. cbn. rewrite Hh. reflexivity.
Qed.

Lemma status_agrees_deadlineMissed (n : nat) (j : Job num) (h : num) :
  status_agrees n j -> status_agrees n (fst (deadlineMissed j h)).
Proof.
  unfold deadlineMissed. destruct (deadline j) as [d|]; [|auto].
  match goal with |- context [if ?c then _ else _] => destruct c end; auto.
Qed.

Lemma Forall_lookup_total_all (P : Job num -> Prop) (l : list (Job num)) :
  (forall r, (r < length l)%nat -> P (l !!! r)) -> Forall P l.
Proof.
  intros Hp. apply Forall_lookup_2. intros r j Hj.
  rewrite <- (list_lookup_total_correct l r j Hj). apply Hp.
  eapply lookup_lt_Some. exact Hj.
Qed.

Lemma stateAfter_status_agrees (files : Files num)
    (config : SimulationConfig num) (useSmart : bool)
    (apps : list (Appliance num)) (n : nat) :
  Forall (status_agrees n) (jobs (stateAfter files config useSmart apps n)).
Proof.
  induction n as [|n IH].
  - unfold stateAfter. cbn [Nat.iter nat_rect initialState jobs].
    rewrite setupJobs_map. apply Forall_forall. intros j Hj.
    apply list_elem_of_In, in_map_iff in Hj. destruct Hj as (app & <- & _).
    split; [auto|]. split; [intros Hs; exfalso; apply Hs; reflexivity|].
    discriminate.
  - rewrite stateAfter_succ.
    set (s := stateAfter files config useSmart apps n) in *.
    destruct (simStep_each files config useSmart s) as (jobs2 & P1 & _ & Hlen & Hj).
    { apply stateAfter_consistent. }
    cbv zeta in *. rewrite P1.
    apply Forall_lookup_total_all. rewrite length_map. intros r Hr.
    rewrite deadlineMissed_lookup. apply status_agrees_deadlineMissed.
    assert (Hold : status_agrees n (jobs s !!! r)).
    { rewrite Forall_lookup in IH. apply (IH r).
      apply list_lookup_lookup_total_lt. lia. }
    destruct (Hj r) as [[Es ->] | [[Es ->] | [_ ->]]].
    + apply status_agrees_later, status_agrees_runStep; assumption.
    + unfold s at 2. rewrite stateAfter_clock.
      apply status_agrees_start; assumption.
    + apply status_agrees_later. exact Hold.
Qed.

Lemma stateAfter_deadline (files : Files num)
    (config : SimulationConfig num) (useSmart : bool)
    (apps : list (Appliance num)) (n : nat) :
  Forall (fun j => deadline j = Some (lit 18))
    (jobs (stateAfter files config useSmart apps n)).
Proof.
  pose proof (stateAfter_specification files config useSmart apps n) as Hs.
  apply Forall_forall. intros j Hj.
  apply list_elem_of_In in Hj.
  assert (Hin : In (specification j)
                  (map specification
                     (jobs (stateAfter files config useSmart apps n))))
    by (apply in_map; exact Hj).
  rewrite Hs in Hin. apply in_map_iff in Hin.
  destruct Hin as (app & Happ & _).
  unfold specification in Happ. inversion Happ. reflexivity.
Qed.

(** Whatever happens in a run, the scheduler keeps of every appliance the
    job it built: after any number of iterations the jobs have, in the order
    of the appliances, the name, the power, the duration, the priority, the
    deadline and the flexibility they were built with; so the timeline lists
    the appliances in their order and every deadline is hour 18. *)
Theorem job_specification_is_kept (files : Files num)
    (config : SimulationConfig num) (useSmart : bool)
    (apps : list (Appliance num)) (n : nat) :
  let s := stateAfter files config useSmart apps n in
  map specification (jobs s)
  = map (fun app => specification (jobOfAppliance app)) apps
  /\ map (fun ev => (ev_name ev, ev_priority ev, ev_duration ev))
       (timeline (wrapUp s))
     = map (fun app => (app_name app, normalizePriority (app_priority app),
                        duration (jobOfAppliance app) / lit 60)) apps
  /\ Forall (fun j => deadline j = Some (lit 18)) (jobs s).
Proof.
  intros s.
  pose proof (stateAfter_specification files config useSmart apps n) as Hs.
  fold s in Hs. split; [exact Hs|]. split.
  - unfold wrapUp. cbn [timeline]. rewrite map_map.
    cbn [ev_name ev_priority ev_duration].
    set (view := fun sp : string * num * num * Priority * option num * bool =>
                   let '(n0, _, d, p, _, _) := sp in (n0, p, d / lit 60)).
    transitivity (map view (map specification (jobs s))).
    { rewrite map_map. reflexivity. }
    rewrite Hs, map_map. reflexivity.
  - apply stateAfter_deadline.
Qed.

(** After any number of iterations the state of every job goes with its
    status: a waiting job has no start hour and all its minutes left; a job
    that is running or done has as start hour the hour of an iteration that
    has run; and a job that is done has no minutes left. *)
Theorem job_state_goes_with_status (files : Files num)
    (config : SimulationConfig num) (useSmart : bool)
    (apps : list (Appliance num)) (n : nat) :
  Forall
    (fun j =>
       (status j = WAITING -> startHour j = None /\ remaining j = duration j)
       /\ (status j <> WAITING ->
           exists k, (k < n)%nat
                     /\ startHour j
                        = Some (currentHour
                                  (stateAfter files config useSmart apps k)))
       /\ (status j = DONE -> remaining j = lit 0))
    (jobs (stateAfter files config useSmart apps n)).
Proof.
  eapply Forall_impl; [apply stateAfter_status_agrees|].
  intros j (A1 & A2 & A3). split; [exact A1|]. split; [|exact A3].
  intros Hs. destruct (A2 Hs) as (k & Hk & Hh). exists k.
  rewrite stateAfter_clock. auto.
Qed.

End JobsThroughRun.

(* ================================================================== *)
(** * The deadline at hour 18 *)
(* ================================================================== *)

Section DeadlineChecks.
Context {num : Type} `{Number num} `{MathLib num}.
Local Open Scope num_scope.

Lemma count_penalized_none (l : list (Job num)) :
  Forall (fun j => penalized j = false) l -> count_penalized l = 0%nat.
Proof.
  unfold count_penalized. induction 1 as [|j l Hj _ IH]; [reflexivity|].
  cbn [List.filter]. rewrite Hj. exact IH.
Qed.

Lemma count_penalized_unfinished (l : list (Job num)) :
  Forall (fun j => penalized j = negb (Status_eqb (status j) DONE)) l ->
  count_penalized l = count_unfinished l.
Proof.
  unfold count_penalized, count_unfinished.
  induction 1 as [|j l Hj _ IH]; [reflexivity|].
  cbn [List.filter]. rewrite Hj.
  destruct (negb (Status_eqb (status j) DONE)); cbn [length]; rewrite IH;
    reflexivity.
Qed.

(** The jobs after parts B and C keep the flag and the deadline, and a job
    that is done was done or running before. *)
Lemma simStep_each_flag (files : Files num) (config : SimulationConfig num)
    (useSmart : bool) (apps : list (Appliance num)) (n : nat) :
  let s := stateAfter files config useSmart apps n in
  exists jobs2 : list (Job num),
    jobs (stateAfter files config useSmart apps (S n))
    = map (fun j => fst (deadlineMissed j (clock n))) jobs2
    /\ length jobs2 = length (jobs s)
    /\ forall r, (r < length (jobs s))%nat ->
         penalized (jobs2 !!! r) = penalized (jobs s !!! r)
         /\ deadline (jobs2 !!! r) = Some (lit 18)
         /\ (status (jobs s !!! r) = DONE -> status (jobs2 !!! r) = DONE).
Proof.
  intros s. subst s. rewrite stateAfter_succ.
  destruct (simStep_each files config useSmart
              (stateAfter files config useSmart apps n))
    as (jobs2 & P1 & _ & Hlen & Hj).
  { apply stateAfter_consistent. }
  cbv zeta in *. rewrite stateAfter_clock in P1, Hj.
  set (s := stateAfter files config useSmart apps n) in *.
  exists jobs2. split; [exact P1|]. split; [exact Hlen|].
  intros r Hr.
  assert (Hd : deadline (jobs s !!! r) = Some (lit 18)).
  { pose proof (stateAfter_deadline files config useSmart apps n) as Hall.
    rewrite Forall_lookup in Hall. apply (Hall r).
    apply list_lookup_lookup_total_lt. exact Hr. }
  assert (Hspec : forall j j' : Job num,
             specification j' = specification j -> deadline j' = deadline j).
  { intros j j' Hs. unfold specification in Hs. inversion Hs. reflexivity. }
  destruct (Hj r) as [[Es ->] | [[Es ->] | [Es ->]]].
  - rewrite runStep_penalized.
    rewrite (Hspec _ _ (runStep_specification _ _ _)).
    split; [reflexivity|]. split; [exact Hd | congruence].
  - rewrite start_penalized.
    rewrite (Hspec _ _ (start_specification _ _)).
    split; [reflexivity|]. split; [exact Hd | congruence].
  - auto.
Qed.

(** As long as the clock has not passed hour 18 no job is flagged. *)
Lemma no_flag_before (files : Files num) (config : SimulationConfig num)
    (useSmart : bool) (apps : list (Appliance num)) (n : nat) :
  (forall k, (k < n)%nat -> (clock k >? lit 18) = false) ->
  Forall (fun j => penalized j = false)
    (jobs (stateAfter files config useSmart apps n)).
Proof.
  induction n as [|n IH]; intros Hclock.
  - unfold stateAfter. cbn [Nat.iter nat_rect initialState jobs].
    rewrite setupJobs_map. apply Forall_forall. intros j Hj.
    apply list_elem_of_In, in_map_iff in Hj. destruct Hj as (app & <- & _).
    reflexivity.
  - destruct (simStep_each_flag files config useSmart apps n)
      as (jobs2 & P1 & Hlen & Hj).
    cbv zeta in *. rewrite P1.
    apply Forall_lookup_total_all. rewrite length_map. intros r Hr.
    rewrite deadlineMissed_lookup.
    destruct (Hj r ltac:(lia)) as (Hp & Hd & _).
    assert (Hold : penalized (jobs (stateAfter files config useSmart apps n) !!! r)
                   = false).
    { specialize (IH ltac:(intros k Hk; apply Hclock; lia)).
      rewrite Forall_lookup in IH. apply (IH r).
      apply list_lookup_lookup_total_lt. lia. }
    unfold deadlineMissed. rewrite Hd, (Hclock n) by lia.
    cbn [andb fst]. congruence.
Qed.

(** The first check after hour 18 flags exactly the jobs that are not
    done. *)
Lemma first_flags (files : Files num) (config : SimulationConfig num)
    (useSmart : bool) (apps : list (Appliance num)) (n : nat) :
  (forall k, (k < n)%nat -> (clock k >? lit 18) = false) ->
  (clock n >? lit 18) = true ->
  Forall (fun j => penalized j = negb (Status_eqb (status j) DONE))
    (jobs (stateAfter files config useSmart apps (S n))).
Proof.
  intros Hbefore Hnow.
  pose proof (no_flag_before files config useSmart apps n Hbefore) as Hnone.
  destruct (simStep_each_flag files config useSmart apps n)
    as (jobs2 & P1 & Hlen & Hj).
  cbv zeta in *. rewrite P1.
  apply Forall_lookup_total_all. rewrite length_map. intros r Hr.
  rewrite deadlineMissed_lookup.
  destruct (Hj r ltac:(lia)) as (Hp & Hd & _).
  assert (Hold : penalized (jobs2 !!! r) = false).
  { rewrite Hp. rewrite Forall_lookup in Hnone. apply (Hnone r).
    apply list_lookup_lookup_total_lt. lia. }
  unfold deadlineMissed. rewrite Hd, Hnow, Hold. cbn [andb negb].
  rewrite andb_true_r.
  destruct (Status_eqb (status (jobs2 !!! r)) DONE) eqn:E; cbn [negb fst];
    [rewrite E; exact Hold|].
  unfold set_penalized. cbn [penalized status]. rewrite E. reflexivity.
Qed.

(** Once every job that is not done is flagged, later checks flag no job. *)
Lemma later_flags (files : Files num) (config : SimulationConfig num)
    (useSmart : bool) (apps : list (Appliance num)) (n : nat) :
  let l := jobs (stateAfter files config useSmart apps n) in
  let l' := jobs (stateAfter files config useSmart apps (S n)) in
  Forall (fun j => status j = DONE \/ penalized j = true) l ->
  Forall (fun j => status j = DONE \/ penalized j = true) l'
  /\ count_penalized l' = count_penalized l.
Proof.
  intros l l' Hall.
  destruct (simStep_each_flag files config useSmart apps n)
    as (jobs2 & P1 & Hlen & Hj).
  cbv zeta in *. fold l l' in P1, Hlen, Hj.
  assert (Hsame : forall r, (r < length l)%nat ->
             fst (deadlineMissed (jobs2 !!! r) (clock n)) = jobs2 !!! r
             /\ (status (jobs2 !!! r) = DONE
                 \/ penalized (jobs2 !!! r) = true)).
  { intros r Hr. destruct (Hj r Hr) as (Hp & _ & Hdone).
    assert (Hold : status (l !!! r) = DONE \/ penalized (l !!! r) = true).
    { rewrite Forall_lookup in Hall. apply (Hall r).
      apply list_lookup_lookup_total_lt. exact Hr. }
    destruct Hold as [Hd | Hf].
    - split; [apply deadlineMissed_done; auto | left; auto].
    - split; [|right; congruence].
      apply deadlineMissed_not_missed, deadlineMissed_flagged. congruence. }
  rewrite P1. split.
  - apply Forall_lookup_total_all. rewrite length_map. intros r Hr.
    rewrite deadlineMissed_lookup.
    destruct (Hsame r ltac:(lia)) as [-> Hs]. exact Hs.
  - apply count_penalized_ext; [rewrite length_map; exact Hlen|].
    intros r. rewrite deadlineMissed_lookup.
    destruct (decide (r < length l)%nat) as [Hr | Hr].
    + destruct (Hsame r Hr) as [-> _]. apply (Hj r Hr).
    + rewrite !list_lookup_total_alt, !lookup_ge_None_2 by lia. reflexivity.
Qed.

(** The number of violations, given the iteration at which the clock first
    passes hour 18. *)
Lemma violations_at (files : Files num) (config : SimulationConfig num)
    (useSmart : bool) (apps : list (Appliance num)) (k0 : nat) :
  (forall k, (k < k0)%nat -> (clock k >? lit 18) = false) ->
  (clock k0 >? lit 18) = true ->
  forall n,
    ((n <= k0)%nat ->
     slaViolations (stateAfter files config useSmart apps n) = lit 0)
    /\ ((k0 < n)%nat ->
        slaViolations (stateAfter files config useSmart apps n)
        = incremented
            (count_unfinished
               (jobs (stateAfter files config useSmart apps (S k0))))).
Proof.
  intros Hbefore Hnow n. split; intros Hn.
  - rewrite stateAfter_violations, count_penalized_none; [reflexivity|].
    apply no_flag_before. intros k Hk. apply Hbefore. lia.
  - rewrite stateAfter_violations. f_equal.
    pose proof (first_flags files config useSmart apps k0 Hbefore Hnow) as Hfirst.
    rewrite <- (count_penalized_unfinished _ Hfirst).
    assert (G : forall m,
               Forall (fun j => status j = DONE \/ penalized j = true)
                 (jobs (stateAfter files config useSmart apps (S k0 + m)))
               /\ count_penalized
                    (jobs (stateAfter files config useSmart apps (S k0 + m)))
                  = count_penalized
                      (jobs (stateAfter files config useSmart apps (S k0)))).
    { induction m as [|m [IH1 IH2]].
      - rewrite Nat.add_0_r. split; [|reflexivity].
        eapply Forall_impl; [exact Hfirst|]. cbv beta. intros j Hj.
        destruct (Status_eqb (status j) DONE) eqn:E.
        + left. apply Status_eqb_true. exact E.
        + right. rewrite Hj. reflexivity.
      - replace (S k0 + S m)%nat with (S (S k0 + m)) by lia.
        destruct (later_flags files config useSmart apps (S k0 + m) IH1)
          as [L1 L2].
        split; [exact L1 | congruence]. }
    replace n with (S k0 + (n - S k0))%nat by lia. apply G.
Qed.

End DeadlineChecks.

Lemma clock_R (k : nat) : @clock R _ k = (INR k / 6)%R.
Proof.
  unfold clock. induction k as [|k IH].
  - cbn [Nat.iter nat_rect]. unfold SIMULATION_START_HOUR. num_R. simpl. lra.
  - rewrite Nat.iter_succ, IH, S_INR, dtHours_R. num_R. lra.
Qed.

Lemma clock_passes_18_float :
  forallb (fun k => negb (nltb (lit 18) (@clock float _ k))) (seq 0 109) = true
  /\ nltb (lit 18) (@clock float _ 109) = true.
Proof. vm_compute. split; reflexivity. Qed.

(** Every job has the deadline 18, and the clock first passes hour 18 at
    iteration 109, in binary64 as in exact arithmetic.  So, with either
    scheduler: up to iteration 109 no violation is counted; from then on the
    number of violations is the number of jobs that were not done after
    iteration 109 (at 18:10), each counted once, whether or not they finish
    later.  In binary64 this is the number the run returns. *)
Theorem violations_are_jobs_unfinished_after_18 :
  (forall (M : MathLib float) (files : Files float)
          (config : SimulationConfig float) (useSmart : bool)
          (apps : list (Appliance float)),
      let unfinished :=
        count_unfinished (jobs (stateAfter files config useSmart apps 110)) in
      (forall n, (n <= 109)%nat ->
         slaViolations (stateAfter files config useSmart apps n) = lit 0)
      /\ (forall n, (110 <= n)%nat ->
            slaViolations (stateAfter files config useSmart apps n)
            = incremented unfinished)
      /\ (forall extra, exists m,
            runSmartSimulation (144 + extra) apps files config useSmart = Some m
            /\ sla_violations m = incremented unfinished))
  /\ (forall (files : Files R) (config : SimulationConfig R) (useSmart : bool)
             (apps : list (Appliance R)),
        let unfinished :=
          count_unfinished (jobs (stateAfter files config useSmart apps 110)) in
        (forall n, (n <= 109)%nat ->
           slaViolations (stateAfter files config useSmart apps n) = 0%R)
        /\ (forall n, (110 <= n)%nat ->
              slaViolations (stateAfter files config useSmart apps n)
              = INR unfinished)).
Proof.
  split.
  - intros M files config useSmart apps unfinished. subst unfinished.
    assert (Hbefore : forall k, (k < 109)%nat ->
               nltb (lit 18) (@clock float _ k) = false).
    { intros k Hk.
      pose proof (below_forallb _ 109 (proj1 clock_passes_18_float) k Hk) as E.
      apply negb_true_iff in E. exact E. }
    pose proof (violations_at files config useSmart apps 109 Hbefore
                  (proj2 clock_passes_18_float)) as G.
    split; [intros n Hn; apply (G n); exact Hn|].
    split; [intros n Hn; apply (G n); lia|].
    intros extra.
    exists (wrapUp (stateAfter files config useSmart apps 144)). split.
    + unfold runSmartSimulation, stateAfter. rewrite simLoop_144. reflexivity.
    + unfold wrapUp. cbn [sla_violations]. apply (G 144%nat). lia.
  - intros files config useSmart apps unfinished. subst unfinished.
    assert (Hbefore : forall k, (k < 109)%nat ->
               nltb (lit 18) (@clock R _ k) = false).
    { intros k Hk. rewrite clock_R. num_R. apply Rltb_false.
      assert (Hle : (k <= 108)%nat) by lia.
      apply le_INR in Hle. rewrite (INR_IZR_INZ 108) in Hle.
      change (Z.of_nat 108) with 108%Z in Hle. lra. }
    assert (Hnow : nltb (lit 18) (@clock R _ 109) = true).
    { rewrite clock_R. num_R. apply Rltb_true. rewrite (INR_IZR_INZ 109).
      change (Z.of_nat 109) with 109%Z. lra. }
    pose proof (violations_at files config useSmart apps 109 Hbefore Hnow) as G.
    split.
    + intros n Hn. rewrite (proj1 (G n) Hn). num_R. lra.
    + intros n Hn. rewrite (proj2 (G n)) by lia. apply incremented_R.
Qed.

(* ================================================================== *)
(** * The lookup of the uploaded data *)
(* ================================================================== *)

Section LookupFacts.
Context {num : Type} `{Number num} `{MathLib num}.
Local Open Scope num_scope.

Lemma Map_get_unrecorded (h : num) (l : list (StandardizedPoint num)) :
  (forall q, In q l -> recorded_at h q = false) ->
  forall acc,
    Map_get
      (fold_left
         (fun map p =>
            match timestamp p with
            | Some t => Map_set map t (value p)
            | None => map
            end) l acc) h
    = Map_get acc h.
Proof.
  induction l as [|q l IH]; intros Hl acc; cbn [fold_left]; [reflexivity|].
  rewrite IH by (intros x Hx; apply Hl; right; exact Hx).
  pose proof (Hl q (or_introl eq_refl)) as Hq. unfold recorded_at in Hq.
  destruct (timestamp q) as [t|]; [|reflexivity].
  cbn [Map_set Map_get]. rewrite Hq. reflexivity.
Qed.

(** The value found for an hour is that of the last point recorded at that
    hour: a later point with the same timestamp replaces an earlier one, and
    the position of the points in the file plays no part. *)
Theorem createLookup_last_recorded (before after : list (StandardizedPoint num))
    (p : StandardizedPoint num) (h : num) :
  recorded_at h p = true ->
  (forall q, In q after -> recorded_at h q = false) ->
  createLookup (Some (before ++ p :: after)) h = Some (value p).
Proof.
  intros Hp Hafter. unfold createLookup.
  destruct (before ++ p :: after) as [|x l] eqn:E.
  { destruct before; discriminate. }
  rewrite <- E. clear E x l.
  rewrite fold_left_app. cbn [fold_left].
  rewrite Map_get_unrecorded by exact Hafter.
  unfold recorded_at in Hp. destruct (timestamp p) as [t|]; [|discriminate].
  cbn [Map_set Map_get]. rewrite Hp. reflexivity.
Qed.

End LookupFacts.

Section LookupReal.
Local Open Scope R_scope.

Lemma sameValueZero_R (x y : R) : sameValueZero x y = true <-> x = y.
Proof.
  unfold sameValueZero. num_R.
  replace (Reqb x x) with true by (symmetry; apply Reqb_true; reflexivity).
  cbn [negb andb]. rewrite orb_false_r. apply Reqb_true.
Qed.

(** The fallback map holds the value of the point at every index of the
    array, and nothing else. *)
Lemma Map_get_index (l : list (StandardizedPoint R)) :
  forall (a : nat) (acc : NumMap) (z : Z),
    (forall k v, In (k, v) acc -> exists i : nat, k = INR i /\ (i < a)%nat) ->
    Map_get
      (fold_left
         (fun fm ip => Map_set fm (nZ (Z.of_nat (fst ip))) (value (snd ip)))
         (combine (seq a (length l)) l) acc) (IZR z)
    = if (Z.of_nat a <=? z)%Z
      then match l !! Z.to_nat (z - Z.of_nat a) with
           | Some p => Some (value p)
           | None => None
           end
      else Map_get acc (IZR z).
Proof.
  induction l as [|p l IH]; intros a acc z Hacc; cbn [length seq combine fold_left].
  - destruct (Z.of_nat a <=? z)%Z eqn:E; [|reflexivity].
    rewrite lookup_nil.
    assert (G : forall m : NumMap,
               (forall k v, In (k, v) m ->
                            exists i : nat, k = INR i /\ (i < a)%nat) ->
               Map_get m (IZR z) = None).
    { induction m as [|[k v] m IHm]; intros Hm; [reflexivity|].
      cbn [Map_get].
      destruct (sameValueZero k (IZR z)) eqn:Ek.
      - exfalso. apply sameValueZero_R in Ek.
        destruct (Hm k v (or_introl eq_refl)) as (i & -> & Hi).
        rewrite INR_IZR_INZ in Ek. apply eq_IZR in Ek.
        apply Z.leb_le in E. lia.
      - apply IHm. intros k' v' Hin. apply (Hm k' v'). right. exact Hin. }
    apply G. exact Hacc.
  - rewrite IH.
    2:{ intros k v [Hkv | Hin].
        - inversion Hkv; subst. exists a. cbn [fst]. num_R.
          rewrite INR_IZR_INZ. split; [reflexivity | lia].
        - destruct (Hacc k v Hin) as (i & Hk & Hi).
          exists i. split; [exact Hk | lia]. }
    cbn [fst snd Map_set Map_get].
    destruct (Z.of_nat (S a) <=? z)%Z eqn:E1.
    + apply Z.leb_le in E1.
      replace (Z.of_nat a <=? z)%Z with true by (symmetry; apply Z.leb_le; lia).
      replace (Z.to_nat (z - Z.of_nat a))
        with (S (Z.to_nat (z - Z.of_nat (S a)))) by lia.
      reflexivity.
    + apply Z.leb_gt in E1.
      destruct (sameValueZero (nZ (Z.of_nat a)) (IZR z)) eqn:Ek.
      * apply sameValueZero_R in Ek. num_R. apply eq_IZR in Ek. subst z.
        rewrite Z.leb_refl, Z.sub_diag. reflexivity.
      * assert (Hne : Z.of_nat a <> z).
        { intros <-. apply Bool.not_true_iff_false in Ek. apply Ek.
          apply sameValueZero_R. reflexivity. }
        replace (Z.of_nat a <=? z)%Z with false
          by (symmetry; apply Z.leb_gt; lia).
        reflexivity.
Qed.

Lemma createLookup_fallback (data : list (StandardizedPoint R)) (h : R) :
  (forall q, In q data -> recorded_at h q = false) ->
  createLookup (Some data) h
  = if (0 <=? Int_part h)%Z
    then match data !! Z.to_nat (Int_part h) with
         | Some p => Some (value p)
         | None => None
         end
    else None.
Proof.
  intros Hun. unfold createLookup.
  destruct data as [|x l] eqn:E.
  { destruct (0 <=? Int_part h)%Z; [rewrite lookup_nil|]; reflexivity. }
  rewrite <- E in *. clear E x l.
  rewrite Map_get_unrecorded by exact Hun. cbn [Map_get].
  change (Math_floor h) with (IZR (Int_part h)).
  rewrite (Map_get_index data 0 [] (Int_part h)) by (intros k v []).
  change (Z.of_nat 0) with 0%Z. rewrite Z.sub_0_r.
  destruct (0 <=? Int_part h)%Z; [|reflexivity].
  destruct (data !! Z.to_nat (Int_part h)); reflexivity.
Qed.

End LookupReal.

(** In exact arithmetic, for an hour at which no point is recorded: the
    lookup finds the value of the point whose index in the file is the hour
    rounded down, and nothing when that index is outside the file, that is
    when the hour is negative or not below the number of points. *)
Theorem createLookup_by_index (data : list (StandardizedPoint R)) (h : R) :
  (forall q, In q data -> recorded_at h q = false) ->
  (forall (i : nat) (p : StandardizedPoint R),
      data !! i = Some p -> (INR i <= h < INR i + 1)%R ->
      createLookup (Some data) h = Some (value p))
  /\ ((h < 0)%R \/ (INR (length data) <= h)%R ->
      createLookup (Some data) h = None).
Proof.
  intros Hun. rewrite (createLookup_fallback data h Hun). split.
  - intros i p Hp [Hlo Hhi].
    assert (Hi : Int_part h = Z.of_nat i).
    { symmetry. apply Int_part_spec. rewrite <- INR_IZR_INZ. lra. }
    rewrite Hi. replace (0 <=? Z.of_nat i)%Z with true
      by (symmetry; apply Z.leb_le; lia).
    rewrite Nat2Z.id, Hp. reflexivity.
  - intros Hout.
    destruct (0 <=? Int_part h)%Z eqn:E; [|reflexivity].
    apply Z.leb_le in E.
    destruct (base_Int_part h) as [B1 B2].
    destruct Hout as [Hneg | Hbig].
    + exfalso. apply IZR_le in E. lra.
    + rewrite lookup_ge_None_2; [reflexivity|].
      assert (Hlt : (IZR (Z.of_nat (length data)) < IZR (Int_part h + 1))%R).
      { rewrite <- INR_IZR_INZ, plus_IZR. lra. }
      apply lt_IZR in Hlt. lia.
Qed.

(* ================================================================== *)
(** * The clock, the price bands and the hourly data *)
(* ================================================================== *)

Lemma price_band_float :
  forallb
    (fun k =>
       PrimFloat.Leibniz.eqb (getGridPrice (@clock float _ k))
         (price_band 109 k))
    (seq 0 144) = true.
Proof. vm_compute. reflexivity. Qed.

Lemma price_band_R (k : nat) : getGridPrice (@clock R _ k) = price_band 108 k.
Proof.
  rewrite clock_R. unfold getGridPrice, price_band. num_R.
  assert (H36 : INR 36 = 36%R) by (rewrite INR_IZR_INZ; reflexivity).
  assert (H108 : INR 108 = 108%R) by (rewrite INR_IZR_INZ; reflexivity).
  assert (H132 : INR 132 = 132%R) by (rewrite INR_IZR_INZ; reflexivity).
  destruct (Nat.ltb_spec k 36) as [L1 | L1].
  - apply lt_INR in L1. rewrite H36 in L1.
    replace (Rltb (INR k / 6) (6 / 1)) with true
      by (symmetry; apply Rltb_true; lra).
    reflexivity.
  - apply le_INR in L1. rewrite H36 in L1.
    replace (Rltb (INR k / 6) (6 / 1)) with false
      by (symmetry; apply Rltb_false; lra).
    destruct (Nat.leb_spec 108 k) as [L2 | L2].
    + apply le_INR in L2. rewrite H108 in L2.
      replace (Rleb (18 / 1) (INR k / 6)) with true
        by (symmetry; apply Rleb_true; lra).
      destruct (Nat.ltb_spec k 132) as [L3 | L3].
      * apply lt_INR in L3. rewrite H132 in L3.
        replace (Rltb (INR k / 6) (22 / 1)) with true
          by (symmetry; apply Rltb_true; lra).
        reflexivity.
      * apply le_INR in L3. rewrite H132 in L3.
        replace (Rltb (INR k / 6) (22 / 1)) with false
          by (symmetry; apply Rltb_false; lra).
        reflexivity.
    + apply lt_INR in L2. rewrite H108 in L2.
      replace (Rleb (18 / 1) (INR k / 6)) with false
        by (symmetry; apply Rleb_false; lra).
      reflexivity.
Qed.

(** The price applied at each iteration depends on the clock alone.  In
    exact arithmetic it is 4 for the iterations 0 to 35, 12 for the
    iterations 108 to 131 (hours 18 to 22) and 8 otherwise.  In binary64
    the clock reads just under 18 at iteration 108, and the peak price
    applies from iteration 109 only. *)
Theorem price_by_iteration :
  (forall (M : MathLib float) (files : Files float)
          (config : SimulationConfig float) (useSmart : bool)
          (apps : list (Appliance float)) (k : nat),
      (k < 144)%nat ->
      getGridPrice (currentHour (stateAfter files config useSmart apps k))
      = price_band 109 k)
  /\ (forall (files : Files R) (config : SimulationConfig R) (useSmart : bool)
             (apps : list (Appliance R)) (k : nat),
        getGridPrice (currentHour (stateAfter files config useSmart apps k))
        = price_band 108 k).
Proof.
  split.
  - intros M files config useSmart apps k Hk. rewrite stateAfter_clock.
    apply FloatAxioms.Leibniz.eqb_spec.
    exact (below_forallb _ 144 price_band_float k Hk).
  - intros files config useSmart apps k. rewrite stateAfter_clock.
    apply price_band_R.
Qed.

Section UnstampedData.
Context {num : Type} `{Number num} `{MathLib num}.
Local Open Scope num_scope.

Lemma createLookup_unstamped (data : list (StandardizedPoint num)) (h : num) :
  Forall (fun p => timestamp p = None) data ->
  createLookup (Some data) h = Map_get (fallbackMap data) (Math_floor h).
Proof.
  intros Hun. unfold createLookup, fallbackMap.
  destruct data as [|x l] eqn:E; [reflexivity|].
  rewrite <- E in *. clear E x l.
  rewrite Map_get_unrecorded.
  - cbn [Map_get]. destruct (Map_get _ _); reflexivity.
  - intros q Hq. rewrite Forall_forall in Hun.
    unfold recorded_at. rewrite (Hun q); [reflexivity|].
    apply list_elem_of_In. exact Hq.
Qed.

End UnstampedData.

Lemma floor_clock_float :
  forallb
    (fun k =>
       PrimFloat.Leibniz.eqb (Math_floor (@clock float _ k))
         (nZ (Z.of_nat (index_read_float k)))
       && (index_read_float k <? 24)%nat)
    (seq 0 144) = true.
Proof. vm_compute. reflexivity. Qed.

Lemma fallbackMap_24 (data : list (StandardizedPoint float)) (j : nat) :
  length data = 24%nat -> (j < 24)%nat ->
  Map_get (fallbackMap data) (nZ (Z.of_nat j)) = value <$> data !! j.
Proof.
  intros Hlen Hj.
  do 24 (destruct data as [|? data]; [discriminate|]).
  destruct data; [|discriminate]. clear Hlen.
  do 24 (destruct j as [|j]; [vm_compute; reflexivity|]). lia.
Qed.

Lemma Int_part_clock (k : nat) : Int_part (INR k / 6) = Z.of_nat (k / 6).
Proof.
  symmetry. apply Int_part_spec.
  pose proof (Nat.div_mod_eq k 6) as Hk.
  pose proof (Nat.mod_upper_bound k 6 ltac:(lia)) as Hm.
  rewrite <- INR_IZR_INZ.
  assert (Hr : INR k = (6 * INR (k / 6) + INR (k mod 6))%R).
  { rewrite Hk at 1. rewrite plus_INR, mult_INR.
    rewrite (INR_IZR_INZ 6). reflexivity. }
  assert (H0 : (0 <= INR (k mod 6))%R) by apply pos_INR.
  assert (H6 : (INR (k mod 6) < 6)%R).
  { apply lt_INR in Hm. rewrite (INR_IZR_INZ 6) in Hm. exact Hm. }
  lra.
Qed.

(** Twenty-four hourly points without timestamps are read by index.  In
    exact arithmetic the iteration [k] reads the point of the hour [k / 6].
    In binary64 the clock is just under a whole hour at 13 of the 144
    iterations, the first of them iteration 6, and these iterations read
    the point of the hour before. *)
Theorem hourly_data_by_iteration :
  (forall (data : list (StandardizedPoint float)) (k : nat),
      length data = 24%nat ->
      Forall (fun p => timestamp p = None) data ->
      (k < 144)%nat ->
      createLookup (Some data) (clock k)
      = value <$> data !! index_read_float k)
  /\ (forall (data : list (StandardizedPoint R)) (k : nat),
        Forall (fun p => timestamp p = None) data ->
        createLookup (Some data) (clock k) = value <$> data !! (k / 6)%nat).
Proof.
  split.
  - intros data k Hlen Hun Hk.
    rewrite (createLookup_unstamped data _ Hun).
    pose proof (below_forallb _ 144 floor_clock_float k Hk) as E.
    cbv beta in E. apply andb_true_iff in E. destruct E as [E1 E2].
    apply FloatAxioms.Leibniz.eqb_spec in E1. apply Nat.ltb_lt in E2.
    rewrite E1. apply fallbackMap_24; assumption.
  - intros data k Hun.
    rewrite createLookup_fallback.
    + rewrite clock_R, Int_part_clock.
      replace (0 <=? Z.of_nat (k / 6))%Z with true
        by (symmetry; apply Z.leb_le; lia).
      rewrite Nat2Z.id. destruct (data !! (k / 6)%nat); reflexivity.
    + intros q Hq. rewrite Forall_forall in Hun.
      unfold recorded_at. rewrite (Hun q); [reflexivity|].
      apply list_elem_of_In. exact Hq.
Qed.

(* ================================================================== *)
(** * A blocked queue, and a full hub *)
(* ================================================================== *)

Section BlockedQueue.
Context {num : Type} `{Number num} `{MathLib num}.
Local Open Scope num_scope.

(** [BaselineScheduler.schedule] admits nothing and changes nothing when
    the first job of the array is waiting and does not fit on top of the
    background load. *)
Lemma baseline_blocked (j0 : Job num) (rest : list (Job num)) (s t h : num) :
  status j0 = WAITING ->
  (BASELINE_BACKGROUND_LOAD + powerKw j0 <=? MAX_DATA_HUB_POWER) = false ->
  BaselineScheduler.schedule (j0 :: rest) s t h = ([], j0 :: rest).
Proof.
  intros Hs Hp.
  unfold BaselineScheduler.schedule, BaselineScheduler.schedule_loop.
  unfold waitingJobs. cbn [length seq List.filter].
  change ((j0 :: rest) !!! 0%nat) with j0. rewrite Hs. cbn [Status_eqb].
  cbn [BaselineScheduler.fifo_loop].
  change ((j0 :: rest) !!! 0%nat) with j0. rewrite Hp. reflexivity.
Qed.

Lemma blocked_step (files : Files num) (config : SimulationConfig num)
    (s : SimState num) (j0 : Job num) (rest : list (Job num)) :
  currentlyRunning s = [] -> jobs s = j0 :: rest ->
  status j0 = WAITING ->
  (BASELINE_BACKGROUND_LOAD + powerKw j0 <=? MAX_DATA_HUB_POWER) = false ->
  currentlyRunning (simStep files config false s) = []
  /\ jobs (simStep files config false s)
     = map (fun j => fst (deadlineMissed j (currentHour s))) (jobs s).
Proof.
  intros Hr Hj Hs Hp.
  destruct (simStep_parts files config false s) as (P1 & P2 & _).
  cbv zeta in P1, P2. rewrite P1, P2, Hr, Hj.
  change (runExisting (currentHour s) (j0 :: rest) [])
    with (j0 :: rest, @nil nat).
  cbn [fst snd scheduler_schedule].
  rewrite (baseline_blocked j0 rest _ _ _ Hs Hp).
  cbn [fst snd]. split; reflexivity.
Qed.

Lemma blocked_run (files : Files num) (config : SimulationConfig num)
    (app0 : Appliance num) (rest : list (Appliance num)) (n : nat) :
  (BASELINE_BACKGROUND_LOAD + app_power app0 <=? MAX_DATA_HUB_POWER) = false ->
  let s := stateAfter files config false (app0 :: rest) n in
  currentlyRunning s = []
  /\ length (jobs s) = S (length rest)
  /\ powerKw (jobs s !!! 0%nat) = app_power app0
  /\ forall r, status (jobs s !!! r) = WAITING
               /\ startHour (jobs s !!! r) = None
               /\ remaining (jobs s !!! r) = duration (jobs s !!! r).
Proof.
  intros Hp. induction n as [|n IH].
  - unfold stateAfter.
    cbn [Nat.iter nat_rect initialState currentlyRunning jobs].
    rewrite setupJobs_map. cbn [map length].
    split; [reflexivity|]. split; [rewrite length_map; reflexivity|].
    split; [reflexivity|].
    intros r.
    change (jobOfAppliance app0 :: map jobOfAppliance rest)
      with (jobOfAppliance <$> (app0 :: rest)).
    rewrite list_lookup_total_alt, list_lookup_fmap.
    destruct ((app0 :: rest) !! r); cbn; auto.
  - change (stateAfter files config false (app0 :: rest) (S n))
      with (simStep files config false
              (stateAfter files config false (app0 :: rest) n)).
    set (s := stateAfter files config false (app0 :: rest) n) in *.
    cbv zeta in IH. destruct IH as (I1 & I2 & I3 & I4).
    destruct (jobs s) as [|j0 js] eqn:Ej; [discriminate|].
    change ((j0 :: js) !!! 0%nat) with j0 in I3.
    destruct (blocked_step files config s j0 js I1 Ej) as [B1 B2].
    { destruct (I4 0%nat) as [Hs _]. exact Hs. }
    { rewrite I3. exact Hp. }
    rewrite Ej in B2. cbv zeta. rewrite B1, B2.
    split; [reflexivity|]. split; [rewrite length_map; exact I2|].
    split.
    + cbn [map]. change ((?a :: ?l) !!! 0%nat) with a.
      rewrite deadlineMissed_powerKw. exact I3.
    + intros r. rewrite deadlineMissed_lookup.
      destruct (I4 r) as (Hs & Hh & Hrem).
      destruct (deadlineMissed_fields ((j0 :: js) !!! r) (currentHour s))
        as (D1 & _ & _ & D4).
      rewrite D1, D4. split; [exact Hs|]. split; [exact Hh|].
      unfold deadlineMissed. destruct (deadline ((j0 :: js) !!! r)); [|exact Hrem].
      match goal with |- context [if ?c then _ else _] => destruct c end;
        exact Hrem.
Qed.

(** The queue of the baseline is blocked for good by a first appliance that
    does not fit on top of the background load: whatever the other
    appliances are, after any number of iterations no job has started, every
    job is still waiting with all its minutes left, and the set of running
    jobs is empty. *)
Theorem baseline_blocked_by_first_job (files : Files num)
    (config : SimulationConfig num) (app0 : Appliance num)
    (rest : list (Appliance num)) (n : nat) :
  (BASELINE_BACKGROUND_LOAD + app_power app0 <=? MAX_DATA_HUB_POWER) = false ->
  let s := stateAfter files config false (app0 :: rest) n in
  currentlyRunning s = []
  /\ forall r, status (jobs s !!! r) = WAITING
               /\ startHour (jobs s !!! r) = None
               /\ remaining (jobs s !!! r) = duration (jobs s !!! r).
Proof.
  intros Hp s.
  destruct (blocked_run files config app0 rest n Hp) as (B1 & _ & _ & B4).
  split; [exact B1 | exact B4].
Qed.

End BlockedQueue.

Section FullHub.
Local Open Scope R_scope.

(** The four ways through one iteration of the loop of
    [SmartScheduler.schedule]. *)
Lemma consider_ways {num : Type} `{Number num} (s t h : num)
    (run : list ref) (tot : num) (jobs : list (Job num)) (r : ref) :
  let job := jobs !!! r in
  let st := (run, tot, jobs) in
  ((t >? THERMAL_THRESHOLD)%num && Priority_eqb (priority job) low = true
   /\ SmartScheduler.consider s t h st r = st)
  \/ (Priority_eqb (priority job) medium && (s <? lit 1.0)%num
      && flexible job = true
      /\ SmartScheduler.consider s t h st r = st)
  \/ ((tot + powerKw job <=? MAX_DATA_HUB_POWER)%num = true
      /\ SmartScheduler.consider s t h st r
         = (run ++ [r], (tot + powerKw job)%num,
            <[r := start job h]> jobs))
  \/ ((tot + powerKw job <=? MAX_DATA_HUB_POWER)%num = false
      /\ SmartScheduler.consider s t h st r = st).
Proof.
  intros job st. subst job st. unfold SmartScheduler.consider.
  destruct ((t >? THERMAL_THRESHOLD)%num
            && Priority_eqb (priority (jobs !!! r)) low); [left; auto|].
  destruct (Priority_eqb (priority (jobs !!! r)) medium
            && (s <? lit 1.0)%num && flexible (jobs !!! r));
    [right; left; auto|].
  destruct (tot + powerKw (jobs !!! r) <=? MAX_DATA_HUB_POWER)%num;
    [right; right; left; auto | right; right; right; auto].
Qed.

Lemma consider_fold_room (s t h : R) (jobs0 : list (Job R))
    (cands : list ref) :
  (forall c, In c cands -> 0 <= powerKw (jobs0 !!! c)) ->
  forall run tot jobs,
    (forall r, powerKw (jobs !!! r) = powerKw (jobs0 !!! r)
               /\ priority (jobs !!! r) = priority (jobs0 !!! r)
               /\ flexible (jobs !!! r) = flexible (jobs0 !!! r)) ->
    let res := fold_left (SmartScheduler.consider s t h) cands (run, tot, jobs) in
    tot <= snd (fst res)
    /\ (forall x, In x run -> In x (fst (fst res)))
    /\ (forall c, In c cands ->
          In c (fst (fst res))
          \/ passed_over s t (jobs0 !!! c) = true
          \/ MAX_DATA_HUB_POWER < snd (fst res) + powerKw (jobs0 !!! c)).
Proof.
  induction cands as [|c cands IH]; intros Hpos run tot jobs Hf;
    cbn [fold_left].
  - cbn [fst snd]. split; [lra|]. split; [auto | intros c []].
  - assert (Hpos' : forall x, In x cands -> 0 <= powerKw (jobs0 !!! x)).
    { intros x Hx. apply Hpos. right. exact Hx. }
    destruct (Hf c) as (Fp & Fr & Ff).
    destruct (consider_ways s t h run tot jobs c)
      as [[E ->] | [[E ->] | [[E ->] | [E ->]]]];
      cbv zeta in E; rewrite ?Fp, ?Fr, ?Ff in E.
    + destruct (IH Hpos' run tot jobs Hf) as (I1 & I2 & I3). cbv zeta in *.
      split; [exact I1|]. split; [exact I2|].
      intros x [<- | Hx]; [|apply I3; exact Hx].
      right. left. unfold passed_over. rewrite E. reflexivity.
    + destruct (IH Hpos' run tot jobs Hf) as (I1 & I2 & I3). cbv zeta in *.
      split; [exact I1|]. split; [exact I2|].
      intros x [<- | Hx]; [|apply I3; exact Hx].
      right. left. unfold passed_over. rewrite E. apply orb_true_r.
    + destruct (IH Hpos' (run ++ [c]) (tot + powerKw (jobs !!! c))%num
                  (<[c := start (jobs !!! c) h]> jobs)) as (I1 & I2 & I3).
      { intros r. destruct (Hf r) as (Gp & Gr & Gf).
        rewrite <- Gp, <- Gr, <- Gf.
        split; [|split]; apply insert_start_field; intros j;
          [apply start_powerKw | apply start_priority | apply start_flexible]. }
      cbv zeta in *.
      pose proof (Hpos c (or_introl eq_refl)) as Hc.
      rewrite Fp in *. num_R.
      split; [lra|]. split.
      * intros x Hx. apply I2. apply in_app_iff. left. exact Hx.
      * intros x [<- | Hx]; [|apply I3; exact Hx].
        left. apply I2. apply in_app_iff. right. left. reflexivity.
    + destruct (IH Hpos' run tot jobs Hf) as (I1 & I2 & I3). cbv zeta in *.
      split; [exact I1|]. split; [exact I2|].
      intros x [<- | Hx]; [|apply I3; exact Hx].
      right. right. unfold MAX_DATA_HUB_POWER in *. num_R. R_cases. lra.
Qed.

(** In exact arithmetic, when no waiting job has a negative power, a call
    of [SmartScheduler.schedule] leaves no room: every waiting job it does
    not admit either was passed over for the temperature or for the lack of
    solar power, or does not fit on top of the jobs the call admitted. *)
Theorem smart_schedule_leaves_no_room (jobs : list (Job R)) (s t h : R) :
  (forall r, In r (waitingJobs jobs) -> 0 <= powerKw (jobs !!! r)) ->
  let admitted := fst (SmartScheduler.schedule jobs s t h) in
  forall r, In r (waitingJobs jobs) -> ~ In r admitted ->
    passed_over s t (jobs !!! r) = true
    \/ MAX_DATA_HUB_POWER < sum_powerKw jobs admitted + powerKw (jobs !!! r).
Proof.
  intros Hpos admitted r Hw Hn. subst admitted.
  unfold SmartScheduler.schedule, SmartScheduler.schedule_loop in *.
  set (sorted := SmartScheduler.prioritizeJobs jobs (waitingJobs jobs) h s) in *.
  assert (Hperm : Permutation sorted (waitingJobs jobs))
    by apply Array_sort_perm.
  destruct (consider_fold_total s t h jobs sorted [] (lit 0) jobs
              (fun _ => eq_refl)) as (newly & E1 & E2 & _).
  destruct (consider_fold_room s t h jobs sorted) with (run := @nil nat)
    (tot := @lit R _ 0) (jobs := jobs) as (_ & _ & I3).
  { intros c Hc. apply Hpos. apply (Permutation_in c Hperm). exact Hc. }
  { intros x. auto. }
  cbv zeta in *.
  destruct (fold_left _ _ _) as [[run tot] jobs']. cbn [fst snd] in *.
  subst run. cbn [app] in *.
  destruct (I3 r) as [Hin | [Hp | Hfull]].
  - apply (Permutation_in r (Permutation_sym Hperm)). exact Hw.
  - contradiction.
  - left. exact Hp.
  - right. unfold sum_powerKw. rewrite <- E2. exact Hfull.
Qed.

End FullHub.

(* ================================================================== *)
(** * The temperature, cooling and solar models, in exact arithmetic *)
(* ================================================================== *)

Section ModelsReal.
Local Open Scope R_scope.

Lemma Rtrunc_integer (x : R) : exists z : Z, Rtrunc x = IZR z.
Proof.
  unfold Rtrunc. destruct (Rle_dec 0 x).
  - exists (Int_part x). reflexivity.
  - exists (- Int_part (- x))%Z. rewrite opp_IZR. reflexivity.
Qed.

Lemma cos_period_Z (x : R) (z : Z) : cos (x + 2 * IZR z * PI) = cos x.
Proof.
  destruct (Z_le_gt_dec 0 z) as [Hz | Hz].
  - rewrite <- (Z2Nat.id z Hz), <- INR_IZR_INZ. apply cos_period.
  - rewrite <- (cos_period (x + 2 * IZR z * PI) (Z.to_nat (- z))).
    rewrite INR_IZR_INZ, Z2Nat.id by lia. rewrite opp_IZR.
    f_equal. ring.
Qed.

(** The remainder [hour % 24] leaves the cosine of the phase as it is. *)
Lemma getAmbientTemp_cos (h : R) (lo hi : option R) :
  getAmbientTemp h lo hi
  = (orElse lo DEF_MIN_TEMP + orElse hi DEF_MAX_TEMP) / 2
    + (orElse hi DEF_MAX_TEMP - orElse lo DEF_MIN_TEMP) / 2
      * cos ((h - 14) * (PI / 12)).
Proof.
  unfold getAmbientTemp, PEAK_TEMP_HOUR. num_R. unfold Rrem.
  destruct (Rtrunc_integer (h / (24 / 1))) as [z ->].
  match goal with |- _ + _ * cos ?a = _ =>
    replace a with ((h - 14) * (PI / 12) + 2 * IZR (- z) * PI)
      by (rewrite opp_IZR; field)
  end.
  rewrite cos_period_Z. f_equal; [field|]. f_equal. field.
Qed.

End ModelsReal.

(** In exact arithmetic the ambient temperature stays between the minimum
    and the maximum of the day, whichever of the two bounds is the larger;
    it is the maximum at hour 14 and the minimum at hour 2; and it repeats
    every 24 hours, for negative hours too. *)
Theorem getAmbientTemp_daily_cycle (h : R) (minTemp maxTemp : option R) :
  let lo := orElse minTemp DEF_MIN_TEMP in
  let hi := orElse maxTemp DEF_MAX_TEMP in
  (Rmin lo hi <= getAmbientTemp h minTemp maxTemp <= Rmax lo hi)%R
  /\ getAmbientTemp 14%R minTemp maxTemp = hi
  /\ getAmbientTemp 2%R minTemp maxTemp = lo
  /\ forall k : Z,
       getAmbientTemp (h + 24 * IZR k)%R minTemp maxTemp
       = getAmbientTemp h minTemp maxTemp.
Proof.
  intros lo hi. rewrite !getAmbientTemp_cos. fold lo hi.
  split; [|split; [|split]].
  - pose proof (COS_bound ((h - 14) * (PI / 12))) as Hc.
    set (c := cos ((h - 14) * (PI / 12))) in *.
    unfold Rmin, Rmax. destruct (Rle_dec lo hi); split; nra.
  - replace ((14 - 14) * (PI / 12))%R with 0%R by lra.
    rewrite cos_0. lra.
  - replace ((2 - 14) * (PI / 12))%R with (- PI)%R by lra.
    rewrite cos_neg, cos_PI. lra.
  - intros k. rewrite getAmbientTemp_cos. fold lo hi. f_equal. f_equal.
    replace ((h + 24 * IZR k - 14) * (PI / 12))%R
      with ((h - 14) * (PI / 12) + 2 * IZR k * PI)%R by lra.
    apply cos_period_Z.
Qed.

(** The cooling power is 0 up to [TEMP_THRESHOLD] and never negative: in
    binary64, and in exact arithmetic.  In exact arithmetic it grows with
    the temperature and with the load, and above the threshold under a load
    that is not negative it is a third of half the excess temperature plus a
    twentieth of the load, which is positive. *)
Theorem getCoolingPowerKw_shape :
  (forall (num : Type) (N : Number num) (t l : num),
      (t <=? TEMP_THRESHOLD)%num = true -> getCoolingPowerKw t l = lit 0.0)
  /\ (forall t l : float, (getCoolingPowerKw t l <? lit 0)%num = false)
  /\ (forall t l : R, (0 <= getCoolingPowerKw t l)%R)
  /\ (forall t1 t2 l1 l2 : R,
        (t1 <= t2)%R -> (l1 <= l2)%R ->
        (getCoolingPowerKw t1 l1 <= getCoolingPowerKw t2 l2)%R)
  /\ (forall t l : R,
        (25 < t)%R -> (0 <= l)%R ->
        getCoolingPowerKw t l = ((0.5 * (t - 25) + 0.05 * l) / 3)%R
        /\ (0 < getCoolingPowerKw t l)%R).
Proof.
  split; [|split; [|split; [|split]]].
  - intros num N t l Ht. unfold getCoolingPowerKw. rewrite Ht. reflexivity.
  - intros t l. unfold getCoolingPowerKw.
    destruct (t <=? TEMP_THRESHOLD)%num; [reflexivity|].
    change (@lit float Number_float 0) with 0%float.
    apply float_max_0_not_negative.
  - apply getCoolingPowerKw_nonneg.
  - intros t1 t2 l1 l2 Ht Hl. unfold getCoolingPowerKw, TEMP_THRESHOLD,
      COOLING_FACTOR, LOAD_COOLING_FACTOR, COOLING_COP.
    num_R.
    destruct (Rleb t1 (25 / 1)) eqn:E1, (Rleb t2 (25 / 1)) eqn:E2; R_cases;
      try lra.
    + eapply Rle_trans; [|apply Rmax_l]. lra.
    + apply Rle_max_compat_l. lra.
  - intros t l Ht Hl. unfold getCoolingPowerKw, TEMP_THRESHOLD,
      COOLING_FACTOR, LOAD_COOLING_FACTOR, COOLING_COP.
    num_R.
    replace (Rleb t (25 / 1)) with false
      by (symmetry; apply Rleb_false; lra).
    rewrite Rmax_right by lra. split; lra.
Qed.

Section SolarReal.
Local Open Scope R_scope.

Lemma sinAlpha_symmetric (d x lat : R) :
  sinAlpha d (12 + x) lat = sinAlpha d (12 - x) lat.
Proof.
  unfold sinAlpha. num_R.
  replace (15 / 1 * (12 + x - 12 / 1) * D2R)
    with (- (15 / 1 * (12 - x - 12 / 1) * D2R)) by field.
  rewrite cos_neg. reflexivity.
Qed.

Lemma calculateIrradiance_symmetric (d x lat : R) (tilt : option R) :
  calculateIrradiance d (12 + x) lat tilt
  = calculateIrradiance d (12 - x) lat tilt.
Proof.
  unfold calculateIrradiance. rewrite sinAlpha_symmetric. num_R.
  replace (15 / 1 * (12 + x - 12 / 1) * D2R)
    with (- (15 / 1 * (12 - x - 12 / 1) * D2R)) by field.
  rewrite cos_neg. reflexivity.
Qed.

(** A sum of two products of a sine and a cosine, each pair at one angle,
    lies between -1 and 1. *)
Lemma sin_cos_product_bound (a b c : R) :
  -1 <= sin a * sin b + cos a * cos b * c <= 1 \/ ~ (-1 <= c <= 1).
Proof.
  destruct (Rle_dec (-1) c) as [H1|H1]; [|right; lra].
  destruct (Rle_dec c 1) as [H2|H2]; [|right; lra].
  left.
  pose proof (sin2_cos2 a) as Ha. pose proof (sin2_cos2 b) as Hb.
  unfold Rsqr in Ha, Hb.
  set (sa := sin a) in *. set (ca := cos a) in *.
  set (sb := sin b) in *. set (cb := cos b) in *.
  assert (Hcc : Rabs (ca * cb * c) <= Rabs (ca * cb)).
  { rewrite (Rabs_mult (ca * cb) c).
    rewrite <- (Rmult_1_r (Rabs (ca * cb))) at 2.
    apply Rmult_le_compat_l; [apply Rabs_pos|].
    apply Rabs_le. lra. }
  assert (Hs : Rabs (sa * sb) + Rabs (ca * cb) <= 1).
  { rewrite !Rabs_mult.
    pose proof (Rabs_pos sa). pose proof (Rabs_pos sb).
    pose proof (Rabs_pos ca). pose proof (Rabs_pos cb).
    assert (Rabs sa * Rabs sa = sa * sa)
      by (rewrite <- Rabs_mult; apply Rabs_pos_eq; nra).
    assert (Rabs sb * Rabs sb = sb * sb)
      by (rewrite <- Rabs_mult; apply Rabs_pos_eq; nra).
    assert (Rabs ca * Rabs ca = ca * ca)
      by (rewrite <- Rabs_mult; apply Rabs_pos_eq; nra).
    assert (Rabs cb * Rabs cb = cb * cb)
      by (rewrite <- Rabs_mult; apply Rabs_pos_eq; nra).
    pose proof (Rle_0_sqr (Rabs sa - Rabs sb)) as Q1.
    pose proof (Rle_0_sqr (Rabs ca - Rabs cb)) as Q2.
    unfold Rsqr in Q1, Q2. lra. }
  pose proof (Rabs_triang (sa * sb) (ca * cb * c)) as Ht.
  pose proof (Rle_abs (sa * sb + ca * cb * c)) as Hu.
  pose proof (Rle_abs (- (sa * sb + ca * cb * c))) as Hl.
  rewrite Rabs_Ropp in Hl. lra.
Qed.

Lemma calculateIrradiance_upper (d h lat : R) (tilt : option R) :
  calculateIrradiance d h lat tilt <= 1414.04.
Proof.
  unfold calculateIrradiance.
  destruct (sinAlpha d h lat <=? lit 0)%num eqn:Es; [num_R; lra|].
  assert (Hsa : 0 < sinAlpha d h lat <= 1).
  { split; [num_R; R_cases; lra|].
    unfold sinAlpha.
    match goal with |- (Math_sin ?a * Math_sin ?b
                        + Math_cos ?a * Math_cos ?b * Math_cos ?c)%num <= 1 =>
      destruct (sin_cos_product_bound a b (cos c)) as [Hb | Hb];
        [num_R; lra | exfalso; apply Hb; apply COS_bound]
    end. }
  num_R.
  set (sa := sinAlpha d h lat) in *.
  set (c := cos (orElse tilt lat * D2R)).
  set (E := exp (- (168 / 1000) / sa)).
  match goal with |- context [Rmax (0 / 1) (?x * ?y + ?z * ?w * ?v)] =>
    set (ct := x * y + z * w * v) end.
  assert (HE : 0 < E <= 1).
  { split; [apply exp_pos|]. rewrite <- exp_0. unfold E.
    destruct (Req_dec (- (168 / 1000) / sa) 0) as [-> | Hne]; [lra|].
    left. apply exp_increasing.
    assert (0 < 168 / 1000 / sa) by (apply Rdiv_lt_0_compat; lra).
    unfold Rdiv in *. lra. }
  assert (Hc : -1 <= c <= 1) by apply COS_bound.
  assert (Hct : ct <= 1).
  { unfold ct.
    match goal with |- sin ?a * sin ?b + cos ?a * cos ?b * cos ?w <= 1 =>
      destruct (sin_cos_product_bound a b (cos w)) as [Hb | Hb];
        [lra | exfalso; apply Hb; apply COS_bound]
    end. }
  assert (Hm : 0 <= Rmax (0 / 1) ct <= 1).
  { split; [eapply Rle_trans; [|apply Rmax_l]; lra|].
    apply Rmax_lub; lra. }
  set (m := Rmax (0 / 1) ct) in *.
  apply Rmax_lub; [lra|].
  assert (H1 : 1160 / 1 * E * m <= 1160).
  { assert (E * m <= 1) by nra. lra. }
  assert (H2 : 95 / 1000 * (1160 / 1 * E) * ((1 / 1 + c) / (2 / 1))
               <= 95 / 1000 * 1160 * ((1 + c) / 2)).
  { assert (E * (1 + c) <= 1 + c) by nra. lra. }
  assert (H3 : 1160 / 1 * E * (sa + 95 / 1000) * (2 / 10)
                 * ((1 / 1 - c) / (2 / 1))
               <= 1160 * (1 + 95 / 1000) * (2 / 10) * ((1 - c) / 2)).
  { assert (Hx : E * (sa + 95 / 1000) <= 1 + 95 / 1000) by nra.
    assert (Hy : 0 <= E * (sa + 95 / 1000)) by nra.
    assert (E * (sa + 95 / 1000) * (1 - c) <= (1 + 95 / 1000) * (1 - c))
      by nra.
    lra. }
  lra.
Qed.

End SolarReal.

(** In exact arithmetic the solar power is the same as long before noon as
    after it; it is 0 whenever the sun is down; and for a capacity that is
    not negative it is never negative and never above 1.202 times the
    capacity. *)
Theorem getSolarPower_shape (x : R) (maxPowerKw lat day : option R) :
  let capacity := orElse maxPowerKw MAX_SOLAR_KW in
  (0 <= capacity)%R ->
  getSolarPower (12 + x)%R maxPowerKw lat day
  = getSolarPower (12 - x)%R maxPowerKw lat day
  /\ ((sinAlpha (orElse day 172) x (orElse lat 21) <= 0)%R ->
      getSolarPower x maxPowerKw lat day = 0%R)
  /\ (0 <= getSolarPower x maxPowerKw lat day <= 1.202 * capacity)%R.
Proof.
  intros capacity Hcap. unfold getSolarPower. fold capacity.
  rewrite calculateIrradiance_symmetric.
  split; [reflexivity|].
  assert (Hd : orElse day (lit 172) = orElse day 172%R).
  { destruct day; [reflexivity | cbn [orElse]; num_R; lra]. }
  assert (Hl : orElse lat (lit 21.0) = orElse lat 21%R).
  { destruct lat; [reflexivity | cbn [orElse]; num_R; lra]. }
  rewrite Hd, Hl.
  set (irr := calculateIrradiance (orElse day 172%R) x (orElse lat 21%R)
                (Some (orElse lat 21%R))).
  pose proof (calculateIrradiance_nonneg (orElse day 172%R) x
                (orElse lat 21%R) (Some (orElse lat 21%R))) as H0.
  pose proof (calculateIrradiance_upper (orElse day 172%R) x
                (orElse lat 21%R) (Some (orElse lat 21%R))) as H1.
  fold irr in H0, H1.
  split.
  - intros Hs. unfold irr. rewrite calculateIrradiance_night by exact Hs.
    unfold SOLAR_EFFICIENCY. num_R. lra.
  - unfold SOLAR_EFFICIENCY. num_R. split; nra.
Qed.

(* ================================================================== *)
(** * Steps of a job and the meaning of its urgency, in exact arithmetic *)
(* ================================================================== *)

(** In exact arithmetic two steps of a job are one step of their sum: after
    [runStep] with [a] minutes and then with [b] minutes, [b] not negative,
    the job is as after one [runStep] with [a + b] minutes at the hour of
    the first call.  The hour of the second call plays no part. *)
Theorem runStep_composes (j : Job R) (a b h h' : R) :
  (0 <= b)%R ->
  runStep (runStep j a h) b h' = runStep j (a + b)%R h.
Proof.
  intros Hb. unfold runStep at 2 3.
  destruct (status j) eqn:Es.
  - (* WAITING: both sides start the job at [h] *)
    pose proof (start_status j h) as Hs. rewrite Es in Hs.
    destruct (start j h) as [n p du re pr de st pe sh fl]. cbn in Hs. subst st.
    unfold set_remaining, set_status. cbn [remaining name powerKw duration
      priority deadline status penalized startHour flexible].
    num_R.
    destruct (Rleb (re - a) (0 / 1)) eqn:E1;
      destruct (Rleb (re - (a + b)) (0 / 1)) eqn:E2; R_cases;
      unfold runStep; cbn; num_R; try lra; try reflexivity.
    + destruct (Rleb (re - a - b) (0 / 1)) eqn:E3; R_cases; try lra.
      reflexivity.
    + destruct (Rleb (re - a - b) (0 / 1)) eqn:E3; R_cases; try lra.
      unfold set_remaining. cbn. f_equal. lra.
  - destruct j as [n p du re pr de st pe sh fl]. cbn in Es. subst st.
    unfold set_remaining, set_status. cbn [remaining name powerKw duration
      priority deadline status penalized startHour flexible].
    num_R.
    destruct (Rleb (re - a) (0 / 1)) eqn:E1;
      destruct (Rleb (re - (a + b)) (0 / 1)) eqn:E2; R_cases;
      unfold runStep; cbn; num_R; try lra; try reflexivity.
    + destruct (Rleb (re - a - b) (0 / 1)) eqn:E3; R_cases; try lra.
      reflexivity.
    + destruct (Rleb (re - a - b) (0 / 1)) eqn:E3; R_cases; try lra.
      unfold set_remaining. cbn. f_equal. lra.
  - unfold runStep. rewrite Es. reflexivity.
Qed.

(** In exact arithmetic, before the deadline [d] of a job with no negative
    remaining time: the urgency score is at least 1 exactly when the job,
    run without pause from now on, finishes no earlier than its deadline;
    and the score does not decrease as the hour advances towards the
    deadline. *)
Theorem urgencyScore_meaning (j : Job R) (d h : R) :
  deadline j = Some d -> (h < d)%R -> (0 <= remaining j)%R ->
  ((1 <= urgencyScore j h)%R <-> (d <= h + remaining j / 60)%R)
  /\ (forall h', (h <= h')%R -> (h' < d)%R ->
        (urgencyScore j h <= urgencyScore j h')%R).
Proof.
  intros Hd Hh Hr.
  assert (Hscore : forall x, (x < d)%R ->
            urgencyScore j x = (remaining j / 60 / (d - x))%R).
  { intros x Hx. unfold urgencyScore. rewrite Hd. num_R.
    replace (Rleb (d - x) (0 / 1)) with false
      by (symmetry; apply Rleb_false; lra).
    lra. }
  split.
  - rewrite (Hscore h Hh).
    assert (Hpos : (0 < d - h)%R) by lra.
    split; intros Hx.
    + apply (Rmult_le_compat_r (d - h)) in Hx; [|lra].
      unfold Rdiv in Hx at 1. rewrite Rmult_assoc, Rinv_l in Hx by lra. lra.
    + apply (Rmult_le_reg_r (d - h)); [exact Hpos|].
      unfold Rdiv at 1. rewrite Rmult_assoc, Rinv_l by lra. lra.
  - intros h' Hle Hlt. rewrite (Hscore h Hh), (Hscore h' Hlt).
    unfold Rdiv at 1 3.
    apply Rmult_le_compat_l; [lra|].
    apply Rinv_le_contravar; lra.
Qed.

(* ================================================================== *)
(** * The hours requested and the columns found *)
(* ================================================================== *)

(** At any hour of the day [predict24Hours] requests each of the 24 hours
    once: the current hour first and the others in their cyclic order. *)
Theorem predict24Hours_each_hour_once (c : nat) :
  (c < 24)%nat ->
  predict24Hours_hours (nZ (Z.of_nat c))
  = map (fun i => nZ (Z.of_nat i) : float)
      (drop c (seq 0 24) ++ take c (seq 0 24)).
Proof.
  intros Hc.
  do 24 (destruct c as [|c]; [vm_compute; reflexivity|]). lia.
Qed.

Section Columns.

Lemma findIndex_Some {A : Type} (f : A -> bool) (l : list A) (i : nat) :
  findIndex f l = Some i <->
  exists before x after,
    l = before ++ x :: after /\ length before = i /\ f x = true
    /\ forall y, In y before -> f y = false.
Proof.
  revert i. induction l as [|a l IH]; intros i; cbn [findIndex].
  - split; [discriminate|]. intros (b & x & c & E & _). destruct b; discriminate.
  - destruct (f a) eqn:Fa.
    + split.
      * intros [= <-]. exists [], a, l. cbn. repeat split; auto. intros y [].
      * intros (b & x & c & E & Hlen & Fx & Hb).
        destruct b as [|b0 b].
        -- cbn in Hlen. subst i. reflexivity.
        -- cbn in E. inversion E; subst b0.
           rewrite (Hb a (or_introl eq_refl)) in Fa. discriminate.
    + destruct (findIndex f l) as [k|] eqn:Ek; cbn [option_map].
      * split.
        -- intros [= <-]. destruct (proj1 (IH k) eq_refl)
             as (b & x & c & E & Hlen & Fx & Hb).
           exists (a :: b), x, c. cbn. rewrite E, Hlen.
           repeat split; auto. intros y [<- | Hy]; auto.
        -- intros (b & x & c & E & Hlen & Fx & Hb).
           destruct b as [|b0 b].
           ++ cbn in E. inversion E; subst. congruence.
           ++ cbn in E. inversion E; subst b0 l. cbn in Hlen. subst i.
              f_equal. f_equal.
              assert (Hk : Some k = Some (length b)); [|congruence].
              apply IH. exists b, x, c. repeat split; auto.
              intros y Hy. apply Hb. right. exact Hy.
      * split; [discriminate|].
        intros (b & x & c & E & Hlen & Fx & Hb).
        destruct b as [|b0 b].
        -- cbn in E. inversion E; subst. congruence.
        -- cbn in E. inversion E; subst b0 l.
           assert (Hk : None = Some (length b)); [|discriminate].
           apply IH. exists b, x, c. repeat split; auto.
           intros y Hy. apply Hb. right. exact Hy.
Qed.

Lemma findIndex_None {A : Type} (f : A -> bool) (l : list A) :
  findIndex f l = None <-> forall x, In x l -> f x = false.
Proof.
  induction l as [|a l IH]; cbn [findIndex].
  - split; [intros _ x [] | reflexivity].
  - destruct (f a) eqn:Fa.
    + split; [discriminate|]. intros Hall.
      rewrite (Hall a (or_introl eq_refl)) in Fa. discriminate.
    + destruct (findIndex f l); cbn [option_map].
      * split; [discriminate|]. intros Hall.
        assert (Hn : Some n = None); [|discriminate].
        apply IH. intros x Hx. apply Hall. right. exact Hx.
      * split; [|reflexivity]. intros _ x [<- | Hx]; [exact Fa|].
        apply (proj1 IH eq_refl). exact Hx.
Qed.

(** The loop of [findColumn] over the keywords. *)
Lemma findColumn_cons (headers : list string) (k : string)
    (rest : list string) :
  findColumn headers (k :: rest)
  = match findIndex (fun h => includes h (normalizeName k))
            (map normalizeName headers) with
    | Some index => headers !! index
    | None => findColumn headers rest
    end.
Proof. reflexivity. Qed.

Lemma findIndex_matches (k : string) (headers : list string) :
  findIndex (fun h => includes h (normalizeName k)) (map normalizeName headers)
  = findIndex (matches k) headers.
Proof.
  induction headers as [|h l IH]; [reflexivity|].
  cbn [map findIndex]. rewrite IH. reflexivity.
Qed.

Lemma findColumn_unmatched (headers : list string) (ks : list string)
    (rest : list string) :
  (forall k h, In k ks -> In h headers -> matches k h = false) ->
  findColumn headers (ks ++ rest) = findColumn headers rest.
Proof.
  induction ks as [|k ks IH]; intros Hno; [reflexivity|].
  cbn [app]. rewrite findColumn_cons, findIndex_matches.
  replace (findIndex (matches k) headers) with (@None nat).
  - apply IH. intros k' h Hk Hh. apply Hno; [right; exact Hk | exact Hh].
  - symmetry. apply findIndex_None. intros h Hh.
    apply Hno; [left; reflexivity | exact Hh].
Qed.

End Columns.

(** [findColumn] goes by the order of the keywords first and by the order
    of the headers second: the column found is the first header that
    matches the first keyword that any header matches, in the spelling
    given, and a header matching a later keyword is not looked at; no
    column is found exactly when no header matches any keyword. *)
Theorem findColumn_first_keyword_first (headers keywords : list string) :
  (forall (earlier later before after : list string) (k h : string),
      keywords = earlier ++ k :: later ->
      headers = before ++ h :: after ->
      (forall k' h', In k' earlier -> In h' headers -> matches k' h' = false) ->
      matches k h = true ->
      (forall h', In h' before -> matches k h' = false) ->
      findColumn headers keywords = Some h)
  /\ (forall h, findColumn headers keywords = Some h -> In h headers)
  /\ (findColumn headers keywords = None
      <-> forall k h, In k keywords -> In h headers -> matches k h = false).
Proof.
  split; [|split].
  - intros earlier later before after k h -> -> Hearlier Hm Hbefore.
    rewrite (findColumn_unmatched _ earlier (k :: later) Hearlier).
    rewrite findColumn_cons, findIndex_matches.
    replace (findIndex (matches k) (before ++ h :: after))
      with (Some (length before)).
    + apply list_lookup_middle. reflexivity.
    + symmetry. apply findIndex_Some. exists before, h, after. auto.
  - intros h. induction keywords as [|k ks IH]; [discriminate|].
    rewrite findColumn_cons.
    destruct (findIndex _ _) as [i|]; [|exact IH].
    intros Hi. apply list_elem_of_In. eapply list_elem_of_lookup_2. exact Hi.
  - induction keywords as [|k ks IH].
    + split; [intros _ k h [] | reflexivity].
    + rewrite findColumn_cons, findIndex_matches.
      destruct (findIndex (matches k) headers) as [i|] eqn:Ei.
      * apply findIndex_Some in Ei.
        destruct Ei as (b & x & c & E & Hlen & Fx & Hb).
        split.
        -- intros Hnone. rewrite E in Hnone.
           rewrite list_lookup_middle in Hnone by (symmetry; exact Hlen).
           discriminate.
        -- intros Hall. exfalso.
           rewrite (Hall k x) in Fx; [discriminate | left; reflexivity|].
           rewrite E. apply in_elt.
      * rewrite IH. rewrite findIndex_None in Ei. split.
        -- intros Hall k' h [<- | Hk] Hh; [apply Ei; exact Hh|].
           apply Hall; assumption.
        -- intros Hall k' h Hk Hh. apply Hall; [right; exact Hk | exact Hh].
Qed.

(* ================================================================== *)
(** * A power that is not a number *)
(* ================================================================== *)

Section Unfit.
Context {num : Type} `{Number num} `{MathLib num}.
Local Open Scope num_scope.

(** A job that fits on top of no total is returned by neither scheduler. *)
Lemma consider_fold_unfit (s t h : num) (r0 : ref) (p0 : num)
    (cands : list ref) :
  (forall tot, (tot + p0 <=? MAX_DATA_HUB_POWER) = false) ->
  forall run tot jobs,
    powerKw (jobs !!! r0) = p0 ->
    ~ In r0 run ->
    ~ In r0 (fst (fst (fold_left (SmartScheduler.consider s t h) cands
                         (run, tot, jobs)))).
Proof.
  intros Hun. induction cands as [|c cands IH]; intros run tot jobs Hp Hr;
    cbn [fold_left]; [exact Hr|].
  destruct (consider_ways s t h run tot jobs c)
    as [[_ ->] | [[_ ->] | [[E ->] | [_ ->]]]]; try (apply IH; assumption).
  cbv zeta in E.
  assert (Hne : c <> r0).
  { intros ->. rewrite Hp, Hun in E. discriminate. }
  apply IH.
  - rewrite list_lookup_total_insert_ne by exact Hne. exact Hp.
  - rewrite in_app_iff. cbn. intuition congruence.
Qed.

Lemma unfit_never_returned (useSmart : bool) (jobs : list (Job num))
    (sv t h : num) (r0 : ref) :
  (forall tot, (tot + powerKw (jobs !!! r0) <=? MAX_DATA_HUB_POWER) = false) ->
  ~ In r0 (fst (scheduler_schedule useSmart jobs sv t h)).
Proof.
  intros Hun. unfold scheduler_schedule. destruct useSmart.
  - unfold SmartScheduler.schedule, SmartScheduler.schedule_loop.
    pose proof (consider_fold_unfit sv t h r0 _
                  (SmartScheduler.prioritizeJobs jobs (waitingJobs jobs) h sv)
                  Hun [] (lit 0) jobs eq_refl (fun x => x)) as G.
    destruct (fold_left _ _ _) as [[run tot] jobs']. exact G.
  - unfold BaselineScheduler.schedule, BaselineScheduler.schedule_loop.
    destruct (fifo_loop_prefix h jobs (waitingJobs jobs) []
                BASELINE_BACKGROUND_LOAD jobs) as (k & E1 & E2 & _).
    { intros x. split; [intros [] | reflexivity]. }
    { reflexivity. }
    cbv zeta in *.
    destruct (BaselineScheduler.fifo_loop _ _ _ _ _) as [[run tot] jobs'].
    cbn [fst snd app] in *. subst run. intros Hin.
    apply list_elem_of_In, list_elem_of_lookup in Hin.
    destruct Hin as (i & Hi).
    assert (Hik : (i < k)%nat).
    { apply lookup_lt_Some in Hi. rewrite length_take in Hi. lia. }
    rewrite lookup_take_lt in Hi by exact Hik.
    specialize (E2 i r0 Hik Hi). rewrite Hun in E2. discriminate.
Qed.

Lemma simStep_unfit (files : Files num) (config : SimulationConfig num)
    (useSmart : bool) (s : SimState num) (r : ref) :
  (r < length (jobs s))%nat ->
  status (jobs s !!! r) = WAITING -> startHour (jobs s !!! r) = None ->
  ~ In r (currentlyRunning s) ->
  (forall tot,
     (tot + powerKw (jobs s !!! r) <=? MAX_DATA_HUB_POWER) = false) ->
  let s' := simStep files config useSmart s in
  (r < length (jobs s'))%nat
  /\ status (jobs s' !!! r) = WAITING /\ startHour (jobs s' !!! r) = None
  /\ ~ In r (currentlyRunning s')
  /\ powerKw (jobs s' !!! r) = powerKw (jobs s !!! r).
Proof.
  intros Hlt Hw Hh Hr Hun s'. subst s'.
  destruct (simStep_parts files config useSmart s) as (P1 & P2 & _).
  cbv zeta in P1, P2. rewrite P1, P2.
  pose proof (runExisting_keeps (currentHour s) r (jobs s) (currentlyRunning s)
                Hr) as (B1 & B2 & B3).
  destruct (runExisting (currentHour s) (jobs s) (currentlyRunning s))
    as [jobs1 running1]. cbn [fst snd] in *.
  pose proof (unfit_never_returned useSmart jobs1
                (solarAvailableAt files config (currentHour s)) (currentTemp s)
                (currentHour s) r) as Hnot.
  rewrite B1 in Hnot. specialize (Hnot Hun).
  destruct (scheduler_schedule_frame useSmart jobs1
              (solarAvailableAt files config (currentHour s)) (currentTemp s)
              (currentHour s)) as (C1 & _ & C3).
  cbv zeta in *.
  destruct (scheduler_schedule useSmart jobs1 _ _ _) as [newJobs jobs2].
  cbn [fst snd] in *.
  rewrite length_map, deadlineMissed_lookup, deadlineMissed_powerKw.
  destruct (deadlineMissed_fields (jobs2 !!! r) (currentHour s))
    as (D1 & _ & _ & D4).
  rewrite D1, D4, (C3 r Hnot), B1.
  split; [lia|]. split; [exact Hw|]. split; [exact Hh|].
  split; [|reflexivity].
  apply addNew_frame; assumption.
Qed.

Lemma stateAfter_unfit (files : Files num) (config : SimulationConfig num)
    (useSmart : bool) (apps : list (Appliance num)) (r : ref)
    (app : Appliance num) (n : nat) :
  apps !! r = Some app ->
  (forall tot, (tot + app_power app <=? MAX_DATA_HUB_POWER) = false) ->
  let s := stateAfter files config useSmart apps n in
  (r < length (jobs s))%nat
  /\ status (jobs s !!! r) = WAITING /\ startHour (jobs s !!! r) = None
  /\ ~ In r (currentlyRunning s)
  /\ powerKw (jobs s !!! r) = app_power app.
Proof.
  intros Ha Hun. induction n as [|n IH].
  - unfold stateAfter.
    cbn [Nat.iter nat_rect initialState jobs currentlyRunning].
    rewrite setupJobs_map, length_map.
    rewrite (list_lookup_total_correct (map jobOfAppliance apps) r
               (jobOfAppliance app))
      by (change (map jobOfAppliance apps) with (jobOfAppliance <$> apps);
          rewrite list_lookup_fmap, Ha; reflexivity).
    split; [eapply lookup_lt_Some; exact Ha|].
    repeat split; auto.
  - rewrite stateAfter_succ. cbv zeta in IH.
    destruct IH as (I1 & I2 & I3 & I4 & I5).
    destruct (simStep_unfit files config useSmart
                (stateAfter files config useSmart apps n) r I1 I2 I3 I4)
      as (S1 & S2 & S3 & S4 & S5).
    { rewrite I5. exact Hun. }
    cbv zeta. rewrite S5, I5. auto.
Qed.

End Unfit.

Lemma float_nan_unfit (p tot : float) :
  PrimFloat.is_nan p = true -> PrimFloat.leb (tot + p) MAX_DATA_HUB_POWER = false.
Proof.
  intros Hp. unfold PrimFloat.is_nan in Hp.
  rewrite FloatAxioms.eqb_spec in Hp.
  apply negb_true_iff, SFeqb_irrefl_nan in Hp.
  rewrite FloatAxioms.leb_spec, FloatAxioms.add_spec, Hp.
  destruct (Prim2SF tot) as [s | s | | s m e]; reflexivity.
Qed.

(** In binary64, an appliance whose power is not a number ([parseFloat]
    found no number in [app.power]) passes no capacity check: with either
    scheduler its job is never started; after any number of iterations it is
    waiting, without start hour and outside the set of running jobs. *)
Theorem power_not_a_number_never_starts (M : MathLib float)
    (files : Files float) (config : SimulationConfig float) (useSmart : bool)
    (apps : list (Appliance float)) (r : ref) (app : Appliance float)
    (n : nat) :
  apps !! r = Some app ->
  PrimFloat.is_nan (app_power app) = true ->
  let s := stateAfter files config useSmart apps n in
  status (jobs s !!! r) = WAITING
  /\ startHour (jobs s !!! r) = None
  /\ ~ In r (currentlyRunning s).
Proof.
  intros Ha Hnan s.
  destruct (stateAfter_unfit files config useSmart apps r app n Ha)
    as (_ & S2 & S3 & S4 & _).
  { intros tot. apply float_nan_unfit. exact Hnan. }
  auto.
Qed.

(* ================================================================== *)
(** * The capacity check of the baseline *)
(* ================================================================== *)

Section BaselineCapacity.
Context {num : Type} `{Number num}.
Local Open Scope num_scope.

Lemma baseline_within_capacity (jobs : list (Job num)) (s t h : num) :
  (BASELINE_BACKGROUND_LOAD <=? MAX_DATA_HUB_POWER) = true ->
  (sum_powerKw_from BASELINE_BACKGROUND_LOAD jobs
     (fst (BaselineScheduler.schedule jobs s t h))
   <=? MAX_DATA_HUB_POWER) = true.
Proof.
  intros Hbase.
  unfold BaselineScheduler.schedule, BaselineScheduler.schedule_loop.
  destruct (fifo_loop_prefix h jobs (waitingJobs jobs) []
              BASELINE_BACKGROUND_LOAD jobs) as (k & E1 & E2 & _).
  { intros x. split; [intros [] | reflexivity]. }
  { reflexivity. }
  cbv zeta in *.
  destruct (BaselineScheduler.fifo_loop _ _ _ _ _) as [[run tot] jobs'].
  cbn [fst snd app] in *. subst run.
  destruct k as [|k]; [rewrite take_0; exact Hbase|].
  destruct (decide (k < length (waitingJobs jobs))%nat) as [Hk | Hk].
  - destruct (lookup_lt_is_Some_2 (waitingJobs jobs) k Hk) as [r Hr].
    rewrite (take_S_r _ _ _ Hr).
    unfold sum_powerKw_from. rewrite fold_left_app. cbn [fold_left].
    apply (E2 k r); [lia | exact Hr].
  - rewrite take_ge by lia. rewrite <- (take_ge (waitingJobs jobs) k) by lia.
    assert (G : forall i, (i <= k)%nat ->
               (sum_powerKw_from BASELINE_BACKGROUND_LOAD jobs
                  (take i (waitingJobs jobs)) <=? MAX_DATA_HUB_POWER) = true).
    { induction i as [|i IH]; intros Hi; [rewrite take_0; exact Hbase|].
      destruct (decide (i < length (waitingJobs jobs))%nat) as [Hlt | Hge].
      - destruct (lookup_lt_is_Some_2 (waitingJobs jobs) i Hlt) as [r Hr].
        rewrite (take_S_r _ _ _ Hr).
        unfold sum_powerKw_from. rewrite fold_left_app. cbn [fold_left].
        apply (E2 i r); [lia | exact Hr].
      - rewrite take_ge by lia. rewrite <- (take_ge (waitingJobs jobs) i) by lia.
        apply IH. lia. }
    apply G. lia.
Qed.

End BaselineCapacity.

(** What one call of [BaselineScheduler.schedule] admits stays within the
    capacity together with the background load: the sum of
    [BASELINE_BACKGROUND_LOAD] and the power of the jobs admitted, taken in
    the order of admission, does not exceed [MAX_DATA_HUB_POWER], in
    binary64 and in exact arithmetic.  As with the Smart Scheduler, the
    jobs already running are not part of the sum. *)
Theorem baseline_admitted_within_capacity :
  (forall (jobs : list (Job float)) (s t h : float),
      (sum_powerKw_from BASELINE_BACKGROUND_LOAD jobs
         (fst (BaselineScheduler.schedule jobs s t h))
       <=? MAX_DATA_HUB_POWER)%num = true)
  /\ (forall (jobs : list (Job R)) (s t h : R),
        (sum_powerKw_from BASELINE_BACKGROUND_LOAD jobs
           (fst (BaselineScheduler.schedule jobs s t h))
         <= MAX_DATA_HUB_POWER)%R).
Proof.
  split.
  - intros jobs s t h. apply baseline_within_capacity. reflexivity.
  - intros jobs s t h. apply Rleb_true.
    change ((sum_powerKw_from BASELINE_BACKGROUND_LOAD jobs
               (fst (BaselineScheduler.schedule jobs s t h))
             <=? MAX_DATA_HUB_POWER)%num = true).
    apply baseline_within_capacity.
    unfold BASELINE_BACKGROUND_LOAD, MAX_DATA_HUB_POWER. num_R.
    apply Rleb_true. lra.
Qed.

(* ================================================================== *)
(** * A run in exact arithmetic *)
(* ================================================================== *)

Section RunReal.
Local Open Scope R_scope.

Lemma INR_literal (k : nat) : INR k = IZR (Z.of_nat k).
Proof. apply INR_IZR_INZ. Qed.

Lemma initialState_clock (useSmart : bool) (apps : list (Appliance R))
    (k : nat) :
  Nat.iter k (fun h : R => nadd h dtHours)
    (currentHour (initialState useSmart apps))
  = clock k.
Proof. reflexivity. Qed.

Lemma simLoop_144_R (files : Files R) (config : SimulationConfig R)
    (useSmart : bool) (apps : list (Appliance R)) (extra : nat) :
  simLoop (144 + extra) files config useSmart (initialState useSmart apps)
  = Some (Nat.iter 144 (simStep files config useSmart)
            (initialState useSmart apps)).
Proof.
  apply simLoop_more_fuel. apply simLoop_exact.
  - intros k Hk. rewrite iter_currentHour, initialState_clock, clock_R.
    unfold SIMULATION_END_HOUR. num_R. apply Rltb_true.
    apply lt_INR in Hk. rewrite (INR_literal 144) in Hk.
    change (Z.of_nat 144) with 144%Z in Hk. lra.
  - rewrite iter_currentHour, initialState_clock, clock_R.
    unfold SIMULATION_END_HOUR. num_R. apply Rltb_false.
    rewrite (INR_literal 144). change (Z.of_nat 144) with 144%Z. lra.
Qed.

Lemma runStep_running_R (j : Job R) (h : R) :
  status j = RUNNING ->
  (10 < remaining j ->
   status (runStep j TIME_STEP_MINUTES h) = RUNNING
   /\ remaining (runStep j TIME_STEP_MINUTES h) = remaining j - 10)
  /\ (remaining j <= 10 ->
      status (runStep j TIME_STEP_MINUTES h) = DONE
      /\ remaining (runStep j TIME_STEP_MINUTES h) = 0).
Proof.
  intros Es. unfold runStep, TIME_STEP_MINUTES. rewrite Es.
  destruct j as [n p du re pr de st pe sh fl]. cbn in Es. subst st.
  unfold set_remaining, set_status.
  cbn [remaining name powerKw duration priority deadline status penalized
       startHour flexible].
  num_R.
  destruct (Rleb (re - 10 / 1) (0 / 1)) eqn:E; R_cases;
    cbn [status remaining]; split; intros Hx; split; try reflexivity; lra.
Qed.

Lemma deadlineMissed_remaining (j : Job R) (h : R) :
  remaining (fst (deadlineMissed j h)) = remaining j.
Proof.
  unfold deadlineMissed. destruct (deadline j) as [d|]; [|reflexivity].
  match goal with |- context [if ?c then _ else _] => destruct c end;
    reflexivity.
Qed.

(** One iteration on a job that is running, and on a job that is done. *)
Lemma simStep_running_R (files : Files R) (config : SimulationConfig R)
    (useSmart : bool) (apps : list (Appliance R)) (n : nat) (r : ref) :
  let j := jobs (stateAfter files config useSmart apps n) !!! r in
  let j' := jobs (stateAfter files config useSmart apps (S n)) !!! r in
  (r < length apps)%nat ->
  (status j = RUNNING -> 10 < remaining j ->
   status j' = RUNNING /\ remaining j' = remaining j - 10)
  /\ (status j = RUNNING -> remaining j <= 10 ->
      status j' = DONE /\ remaining j' = 0)
  /\ (status j = DONE -> remaining j = 0 ->
      status j' = DONE /\ remaining j' = 0).
Proof.
  intros j j' Hr. subst j j'. rewrite stateAfter_succ.
  destruct (stateAfter_consistent files config useSmart apps n) as [Hc Hlen].
  set (s := stateAfter files config useSmart apps n) in *.
  destruct (simStep_each files config useSmart s Hc)
    as (jobs2 & P1 & _ & _ & Hj).
  cbv zeta in *. rewrite P1, deadlineMissed_lookup.
  rewrite deadlineMissed_status, deadlineMissed_remaining.
  destruct (Hj r) as [[Es ->] | [[Es ->] | [Es ->]]].
  - destruct (runStep_running_R (jobs s !!! r) (currentHour s) Es) as [R1 R2].
    split; [intros _; exact R1|]. split; [intros _; exact R2|].
    intros Hd. congruence.
  - split; [congruence|]. split; congruence.
  - split; [intros; contradiction|]. split; [intros; contradiction|]. auto.
Qed.

End RunReal.

(** In exact arithmetic the clock is at hour [k / 6] after [k] iterations
    and the loop of [runSmartSimulation] ends after exactly 144 of them, as
    it does in binary64: the function returns the metrics of the state
    reached then. *)
Theorem simulation_terminates_exactly (files : Files R)
    (config : SimulationConfig R) (useSmart : bool)
    (apps : list (Appliance R)) (extra k : nat) :
  currentHour (stateAfter files config useSmart apps k) = (INR k / 6)%R
  /\ runSmartSimulation (144 + extra) apps files config useSmart
     = Some (wrapUp (stateAfter files config useSmart apps 144)).
Proof.
  split.
  - rewrite stateAfter_clock. apply clock_R.
  - unfold runSmartSimulation, stateAfter. rewrite simLoop_144_R. reflexivity.
Qed.

(** In exact arithmetic a job that is running is never suspended: [m]
    iterations later it is still running, with 10 minutes less for each of
    them, as long as these are fewer minutes than it had left; and it is
    done, with no minutes left, from the first iteration on that reaches
    them. *)
Theorem running_job_runs_to_completion (files : Files R)
    (config : SimulationConfig R) (useSmart : bool)
    (apps : list (Appliance R)) (n m : nat) (r : ref) (j : Job R) :
  jobs (stateAfter files config useSmart apps n) !! r = Some j ->
  status j = RUNNING ->
  exists j',
    jobs (stateAfter files config useSmart apps (n + m)) !! r = Some j'
    /\ ((10 * INR m < remaining j)%R ->
        status j' = RUNNING
        /\ remaining j' = (remaining j - 10 * INR m)%R)
    /\ ((1 <= m)%nat -> (remaining j <= 10 * INR m)%R ->
        status j' = DONE /\ remaining j' = 0%R).
Proof.
  intros Hj Es.
  assert (Hr : (r < length apps)%nat).
  { destruct (stateAfter_consistent files config useSmart apps n) as [_ Hlen].
    rewrite <- Hlen. eapply lookup_lt_Some. exact Hj. }
  assert (Hlook : forall k,
             jobs (stateAfter files config useSmart apps k) !! r
             = Some (jobs (stateAfter files config useSmart apps k) !!! r)).
  { intros k. apply list_lookup_lookup_total_lt.
    destruct (stateAfter_consistent files config useSmart apps k) as [_ Hlen].
    rewrite Hlen. exact Hr. }
  exists (jobs (stateAfter files config useSmart apps (n + m)) !!! r).
  split; [apply Hlook|].
  apply list_lookup_total_correct in Hj.
  induction m as [|m IH].
  - rewrite Nat.add_0_r, Hj. cbn [INR]. split; [|lia].
    intros _. split; [exact Es | lra].
  - replace (n + S m)%nat with (S (n + m)) by lia.
    destruct IH as [IH1 IH2].
    destruct (simStep_running_R files config useSmart apps (n + m) r Hr)
      as (S1 & S2 & S3).
    cbv zeta in S1, S2, S3. rewrite S_INR. split.
    + intros Hlt. destruct IH1 as [I1 I2]; [lra|].
      destruct S1 as [T1 T2]; [exact I1 | lra |].
      split; [exact T1 | lra].
    + intros _ Hle.
      destruct (Rlt_dec (10 * INR m) (remaining j)) as [Hlt | Hge].
      * destruct IH1 as [I1 I2]; [exact Hlt|].
        apply S2; [exact I1 | lra].
      * destruct m as [|m'].
        -- rewrite Nat.add_0_r in S2 |- *. rewrite Hj in S2.
           cbn [INR] in Hge. apply S2; [exact Es | lra].
        -- destruct IH2 as [I1 I2]; [lia | lra |].
           apply S3; assumption.
Qed.

(* ================================================================== *)
(** * The theorems at concrete inputs *)
(* ================================================================== *)

(** The late job is flagged once, at hour 2. *)
Lemma late_job_flagged_once :
  snd (lifetime Examples.late_job Examples.late_calls) = [false; true; false].
Proof. vm_compute. reflexivity. Qed.

Lemma deadlineMissed_at_most_once_witness :
  (count_true (snd (lifetime Examples.late_job Examples.late_calls)) <= 1)%nat.
Proof.
  exact (proj1 (deadlineMissed_at_most_once Examples.late_job 2%float
                  Examples.late_calls)).
Defined.

(** Thirty minutes of work advanced by ten minutes three times, in exact
    arithmetic; and the half minute advanced by tenths, in binary64. *)
Lemma runStep_remaining_witness :
  (let j := advance (new_Job "Water Pump" 2%R 30%R "medium" (Some 18%R) true)
              [(10%R, 0%R); (10%R, 0%R)] in
   (0 <= remaining j)%R
   /\ (remaining (runStep j 10%R 0%R) <= remaining j)%R
   /\ (status j = DONE <-> (30 <= advanced [(10%R, 0%R); (10%R, 0%R)])%R))
  /\ (let j := advance Examples.half_minute Examples.tenths in
      (remaining j <? lit 0)%num = false
      /\ (remaining j <? remaining (runStep j (lit 0.1) (lit 0)))%num = false).
Proof.
  split.
  - cbv zeta. split; [|split].
    + apply (proj1 (proj2 (proj2 runStep_remaining))
               "Water Pump"%string 2%R 30%R "medium"%string (Some 18%R) true
               [(10%R, 0%R); (10%R, 0%R)] 10%R 0%R).
      left. lra.
    + apply (proj1 (proj2 (proj2 runStep_remaining))
               "Water Pump"%string 2%R 30%R "medium"%string (Some 18%R) true
               [(10%R, 0%R); (10%R, 0%R)] 10%R 0%R); [left|]; lra.
    + apply (proj2 (proj2 (proj2 runStep_remaining)));
        [left; lra | repeat constructor; simpl; lra].
  - cbv zeta.
    destruct (proj1 (proj2 runStep_remaining)
                "Timer"%string 1%float 0.5%float "high"%string None true
                Examples.tenths (lit 0.1) (lit 0) (or_introl eq_refl))
      as [Hn Hm].
    split; [exact Hn | apply Hm; reflexivity].
Defined.

(** One hour past its deadline a job has the score 999. *)
Lemma urgencyScore_cases_witness :
  urgencyScore Examples.late_job 2%float = 999%float.
Proof.
  exact (proj1 (proj2 (proj1 urgencyScore_cases float _ Examples.late_job
                         2%float))
           1%float eq_refl eq_refl).
Defined.

(** The baseline admits the air conditioner and the pump and stops at the
    charger; the lighting, which would fit, is not looked at. *)
Lemma baseline_stops_at_charger :
  fst (BaselineScheduler.schedule Examples.household 5 25 0)%float
  = [0; 1]%nat.
Proof. vm_compute. reflexivity. Qed.

Lemma baseline_schedule_fifo_witness :
  (forall r, In r (waitingJobs Examples.household)
             <-> (r < 4)%nat /\ status (Examples.household !!! r) = WAITING)
  /\ exists k : nat,
       fst (BaselineScheduler.schedule Examples.household 5 25 0)%float
       = take k (waitingJobs Examples.household).
Proof.
  destruct (baseline_schedule_fifo Examples.household 5%float 25%float
              0%float) as (_ & Hw & _ & k & Hk & _).
  split; [exact Hw|]. exists k. exact Hk.
Defined.

(** On the appliances of the dashboard the comparator is consistent: the
    lighting comes first, then the air conditioner, the pump and the
    charger. *)
Lemma prioritizeJobs_order_witness :
  sorted_by (compareRefs Examples.household 0%float)
    (waitingJobs Examples.household)
    (SmartScheduler.prioritizeJobs Examples.household
       (waitingJobs Examples.household) 0%float 5%float)
  /\ precedence_kept 0%float
       (prioritized Examples.household (waitingJobs Examples.household)
          0%float 5%float) = true.
Proof.
  destruct (proj1 prioritizeJobs_order Examples.household
              (waitingJobs Examples.household) 0%float 5%float)
    as (Hs & _ & Hk & _).
  - apply (bool_decide_unpack _). vm_compute. exact I.
  - vm_compute. reflexivity.
  - split; assumption.
Defined.

(** A day without solar power: the pump, a flexible medium job, waits
    through all 144 steps. *)
Lemma medium_flexible_never_admitted_witness :
  exists m ev,
    runSmartSimulation 144 [Examples.pump; Examples.lighting]
      Examples.dark_day Examples.no_config true = Some m
    /\ timeline m !! 0%nat = Some ev
    /\ ev_status ev = WAITING /\ ev_start ev = None.
Proof.
  apply (proj2 (proj2 medium_flexible_never_admitted) MathLib_float
           [Examples.pump; Examples.lighting] Examples.dark_day
           Examples.no_config 0%nat Examples.pump 0%nat);
    [reflexivity | reflexivity | discriminate |].
  apply (below_forallb
           (fun k =>
              nltb (solarAvailableAt Examples.dark_day Examples.no_config
                      (currentHour
                         (Nat.iter k
                            (simStep Examples.dark_day Examples.no_config true)
                            (initialState true
                               [Examples.pump; Examples.lighting]))))
                (lit 1.0))
           144%nat).
  vm_compute. reflexivity.
Defined.

Lemma built_job_deadline_duration_witness :
  exists j : Job float,
    jobs (initialState true [Examples.pump; Examples.lighting]) !! 1%nat
    = Some j
    /\ deadline j = Some (lit 18).
Proof.
  destruct (built_job_deadline_duration true
              [Examples.pump; Examples.lighting] 1%nat Examples.lighting
              eq_refl) as (j & Hj & Hd & _).
  exists j. split; assumption.
Defined.

(** At the equator the sun is above the horizon at noon on day 172. *)
Lemma equator_noon : (0 < sinAlpha 172 12 0)%R.
Proof.
  unfold sinAlpha, D2R. num_R.
  replace (0 * (PI / (180 / 1)))%R with 0%R by lra.
  replace (15 / 1 * (12 - 12 / 1) * (PI / (180 / 1)))%R with 0%R by lra.
  rewrite sin_0, cos_0.
  match goal with |- context [cos ?x] => set (dr := x) end.
  assert (Hb : (- (PI / 2) < dr < PI / 2)%R).
  { unfold dr.
    match goal with
    | |- context [sin ?x] =>
        pose proof (SIN_bound x) as Hs; set (sv := sin x) in *
    end.
    pose proof PI_RGT_0 as Hpi.
    split; nra. }
  pose proof (cos_gt_0 dr (proj1 Hb) (proj2 Hb)). lra.
Qed.

Lemma calculateIrradiance_sign_witness :
  (0 < calculateIrradiance 172 12 0 None)%R.
Proof.
  exact (proj1 (proj2 (proj2 (proj2 (proj2 calculateIrradiance_sign)
                                172%R 12%R 0%R None)))
           equator_noon).
Defined.

(** At 35 degrees the charger, a job of low priority, is passed over. *)
Lemma low_priority_waits_when_hot_witness :
  ~ In 2%nat
      (fst (SmartScheduler.schedule Examples.household 5 35 0)%float)
  /\ snd (SmartScheduler.schedule Examples.household 5 35 0)%float !!! 2%nat
     = Examples.household !!! 2%nat.
Proof.
  apply (low_priority_waits_when_hot Examples.household
           5%float 35%float 0%float 2%nat); reflexivity.
Defined.

(* ================================================================== *)
(** * The further theorems at concrete inputs *)
(* ================================================================== *)

(** On the mild day the pump is admitted by the first iteration, advanced
    by the second and still in the set after it. *)
Lemma iteration_on_each_job_witness :
  In 0%nat
    (currentlyRunning
       (stateAfter Examples.mild_day Examples.no_config true
          [Examples.pump; Examples.lighting] 2)).
Proof.
  pose proof (iteration_on_each_job Examples.mild_day Examples.no_config true
                [Examples.pump; Examples.lighting] 1 0%nat
                (jobs (stateAfter Examples.mild_day Examples.no_config true
                         [Examples.pump; Examples.lighting] 1) !!! 0%nat)) as W.
  cbv zeta in W.
  assert (Hj : jobs (stateAfter Examples.mild_day Examples.no_config true
                       [Examples.pump; Examples.lighting] 1) !! 0%nat
               = Some (jobs (stateAfter Examples.mild_day Examples.no_config true
                               [Examples.pump; Examples.lighting] 1) !!! 0%nat))
    by (vm_compute; reflexivity).
  specialize (W Hj). vm_compute in W. vm_compute.
  apply (proj2 (proj2 W)). discriminate.
Defined.

(** Behind a boiler of 8 kW nothing runs all day. *)
Lemma baseline_blocked_by_first_job_witness :
  currentlyRunning
    (stateAfter Examples.mild_day Examples.no_config false
       [Inputs.boiler; Examples.lighting] 144) = [].
Proof.
  apply (baseline_blocked_by_first_job Examples.mild_day Examples.no_config
           Inputs.boiler [Examples.lighting] 144).
  vm_compute. reflexivity.
Defined.

(** The kiln of 12 kW is not admitted, and it does not fit. *)
Lemma smart_schedule_leaves_no_room_witness :
  passed_over 5%R 25%R (Inputs.kiln !!! 0%nat) = true
  \/ (MAX_DATA_HUB_POWER
      < sum_powerKw Inputs.kiln
          (fst (SmartScheduler.schedule Inputs.kiln 5 25 0))
        + powerKw (Inputs.kiln !!! 0%nat))%R.
Proof.
  apply (smart_schedule_leaves_no_room Inputs.kiln 5%R 25%R 0%R).
  - intros r Hr. cbn in Hr. destruct Hr as [<- | []]. cbn. lra.
  - cbn. left. reflexivity.
  - unfold SmartScheduler.schedule, SmartScheduler.schedule_loop,
      SmartScheduler.prioritizeJobs.
    cbn [Inputs.kiln waitingJobs length seq List.filter Array_sort foldr
         sort_insert fold_left].
    change (Status_eqb (status (Inputs.kiln !!! 0%nat)) WAITING) with true.
    cbn [Array_sort foldr sort_insert fold_left].
    destruct (consider_ways 5%R 25%R 0%R [] (lit 0) Inputs.kiln 0%nat)
      as [[_ ->] | [[_ ->] | [[E _] | [_ ->]]]]; cbn; try tauto.
    exfalso. cbn in E. unfold MAX_DATA_HUB_POWER in E. num_R. R_cases. lra.
Defined.

(** Of two points recorded at hour 6 the later one is found. *)
Lemma createLookup_last_recorded_witness :
  createLookup (Some Inputs.stamped) 6%float = Some 2%float.
Proof.
  apply (createLookup_last_recorded (num:=float)
           [mkPoint (Some 6%float) 1%float] [mkPoint None 3%float]
           (mkPoint (Some 6%float) 2%float) 6%float).
  - vm_compute. reflexivity.
  - intros q [<- | []]. reflexivity.
Defined.

(** At half past one the second point is read. *)
Lemma createLookup_by_index_witness :
  createLookup (Some Inputs.two_points) 1.5%R = Some 7%R.
Proof.
  assert (Hun : forall q, In q Inputs.two_points -> recorded_at 1.5%R q = false).
  { intros q [<- | [<- | []]]; reflexivity. }
  apply (proj1 (createLookup_by_index Inputs.two_points 1.5%R Hun)
           1%nat (mkPoint None 7%R) eq_refl).
  simpl. lra.
Defined.

(** Twice ten minutes are twenty minutes. *)
Lemma runStep_composes_witness :
  runStep (runStep Inputs.pump_job 10%R 0%R) 10%R 0.5%R
  = runStep Inputs.pump_job (10 + 10)%R 0%R.
Proof. apply runStep_composes. lra. Defined.

(** One hour before the deadline two hours of work are too many. *)
Lemma urgencyScore_meaning_witness :
  (1 <= urgencyScore Inputs.pump_job 17)%R.
Proof.
  assert (Hd : deadline Inputs.pump_job = Some 18%R) by reflexivity.
  assert (Hh : (17 < 18)%R) by lra.
  assert (Hr : (0 <= remaining Inputs.pump_job)%R) by (simpl; lra).
  apply (proj1 (urgencyScore_meaning Inputs.pump_job 18%R 17%R Hd Hh Hr)).
  simpl. lra.
Defined.

(** The default capacity of 8 kW at nine in the morning. *)
Lemma getSolarPower_shape_witness :
  (0 <= getSolarPower 9 None None None <= 1.202 * MAX_SOLAR_KW)%R.
Proof.
  assert (Hcap : (0 <= orElse None MAX_SOLAR_KW)%R).
  { cbn [orElse]. unfold MAX_SOLAR_KW. num_R. lra. }
  exact (proj2 (proj2 (getSolarPower_shape 9%R None None None Hcap))).
Defined.

(** A warmer hub under a larger load needs no less cooling. *)
Lemma getCoolingPowerKw_shape_witness :
  (getCoolingPowerKw 30 2 <= getCoolingPowerKw 31 3)%R.
Proof.
  apply (proj1 (proj2 (proj2 (proj2 getCoolingPowerKw_shape)))); lra.
Defined.

(** The iteration of 18:00 is billed at the standard price in binary64. *)
Lemma price_by_iteration_witness :
  getGridPrice
    (currentHour
       (stateAfter Examples.mild_day Examples.no_config true
          [Examples.pump] 108))
  = price_band 109 108.
Proof.
  apply (proj1 price_by_iteration MathLib_float). lia.
Defined.

(** The iteration of 1:00 reads the point of hour 0 in binary64. *)
Lemma hourly_data_by_iteration_witness :
  createLookup (Some (Examples.hourly 5%float)) (clock 6)
  = value <$> Examples.hourly 5%float !! index_read_float 6.
Proof.
  apply (proj1 hourly_data_by_iteration (Examples.hourly 5%float) 6%nat).
  - reflexivity.
  - unfold Examples.hourly. cbn [seq map]. repeat constructor.
  - lia.
Defined.

(** No violation is counted by iteration 100. *)
Lemma violations_are_jobs_unfinished_after_18_witness :
  slaViolations
    (stateAfter Examples.mild_day Examples.no_config true
       [Examples.pump; Examples.lighting] 100) = lit 0.
Proof.
  apply (proj1 (proj1 violations_are_jobs_unfinished_after_18 MathLib_float
                  Examples.mild_day Examples.no_config true
                  [Examples.pump; Examples.lighting])).
  lia.
Defined.

(** At ten in the evening the request starts with hour 22. *)
Lemma predict24Hours_each_hour_once_witness :
  predict24Hours_hours (nZ 22)
  = map (fun i => nZ (Z.of_nat i) : float)
      (drop 22 (seq 0 24) ++ take 22 (seq 0 24)).
Proof.
  apply (predict24Hours_each_hour_once 22). lia.
Defined.

(** The keyword [solar] finds the radiation column before the keyword
    [production] is tried. *)
Lemma findColumn_first_keyword_first_witness :
  findColumn Inputs.solar_headers ["solar"%string; "production"%string]
  = Some "Solar_Radiation"%string.
Proof.
  apply (proj1 (findColumn_first_keyword_first Inputs.solar_headers
                  ["solar"%string; "production"%string])
           [] ["production"%string] ["Date"%string]
           ["Production (kW)"%string]
           "solar"%string "Solar_Radiation"%string); try reflexivity.
  - intros k' h' [].
  - intros h' [<- | []]. reflexivity.
Defined.

(** A heater whose power is not a number waits all day. *)
Lemma power_not_a_number_never_starts_witness :
  status
    (jobs (stateAfter Examples.mild_day Examples.no_config true
             [Inputs.broken; Examples.lighting] 144) !!! 0%nat) = WAITING.
Proof.
  apply (power_not_a_number_never_starts MathLib_float Examples.mild_day
           Examples.no_config true [Inputs.broken; Examples.lighting]
           0%nat Inputs.broken 144); reflexivity.
Defined.

(** The baseline starts the fan in the first iteration. *)
Lemma fan_started :
  exists j : Job R,
    jobs (stateAfter Inputs.no_files Inputs.no_settings false [Inputs.fan] 1)
      !! 0%nat = Some j
    /\ status j = RUNNING /\ remaining j = 120%R.
Proof.
  rewrite stateAfter_succ.
  destruct (simStep_parts Inputs.no_files Inputs.no_settings false
              (stateAfter Inputs.no_files Inputs.no_settings false
                 [Inputs.fan] 0)) as (P1 & _).
  cbv zeta in P1. rewrite P1.
  unfold stateAfter.
  cbn [Nat.iter nat_rect initialState jobs currentlyRunning currentHour
       currentTemp].
  rewrite setupJobs_map. cbn [map].
  set (j0 := jobOfAppliance Inputs.fan).
  change (runExisting SIMULATION_START_HOUR [j0] []) with ([j0], @nil nat).
  cbn [fst snd scheduler_schedule].
  unfold BaselineScheduler.schedule, BaselineScheduler.schedule_loop.
  change (waitingJobs [j0]) with [0%nat].
  cbn [BaselineScheduler.fifo_loop].
  change ([j0] !!! 0%nat) with j0.
  replace (nleb (nadd BASELINE_BACKGROUND_LOAD (powerKw j0))
             MAX_DATA_HUB_POWER) with true.
  2:{ symmetry. unfold BASELINE_BACKGROUND_LOAD, MAX_DATA_HUB_POWER, j0.
      cbn [jobOfAppliance new_Job powerKw Inputs.fan app_power]. num_R.
      apply Rleb_true. lra. }
  cbn [fst snd map].
  eexists. split; [reflexivity|].
  destruct (deadlineMissed_fields (start j0 SIMULATION_START_HOUR)
              SIMULATION_START_HOUR) as (D1 & _).
  rewrite D1, deadlineMissed_remaining, start_status, start_remaining.
  split; [reflexivity|].
  unfold j0. cbn. num_R. lra.
Defined.

(** Its two hours are over after twelve more iterations. *)
Lemma running_job_runs_to_completion_witness :
  exists j' : Job R,
    jobs (stateAfter Inputs.no_files Inputs.no_settings false [Inputs.fan] 13)
      !! 0%nat = Some j'
    /\ status j' = DONE /\ remaining j' = 0%R.
Proof.
  destruct fan_started as (j & Hj & Hs & Hr).
  destruct (running_job_runs_to_completion Inputs.no_files Inputs.no_settings
              false [Inputs.fan] 1 12 0%nat j Hj Hs) as (j' & Hj' & _ & Hdone).
  exists j'. split; [exact Hj'|].
  apply Hdone; [lia|]. rewrite Hr, (INR_literal 12).
  change (Z.of_nat 12) with 12%Z. lra.
Defined.
